(** * F1 data import pipeline: a shallow embedding of [app/core/data_import.py]

    The import routines of [data_import.py] are embedded as functions of a
    state-and-exception monad over the relational store that [crud.py]
    reads and writes.  The results of the fetchers of [f1_api.py] are the
    inputs of the model: each fetcher returns a list of records, and a
    record is a Python dict as the Ergast API serves it, whose values are
    strings or nested dicts.  The extraction that the fetchers run on the
    reply of the API is embedded apart, in the module [Api], over any JSON
    document.

    Text is held as its UTF-8 encoding.  [int], [float] and [strptime] read
    it as CPython 3.11 does, decimal digits of every script included, and
    a float is a binary64 number.  The records of [schemas.py] are validated
    as pydantic validates them; the [date] field of a Round and of a
    Session, declared [date: t.Optional[date] = None], takes None only.
    Of the database engine, which is not part of the sources, the model
    keeps what the specification states: keys assigned by the storage and
    the foreign key from a Session to its Round. *)

From Stdlib Require Import ZArith List String Ascii Bool Lia DecimalString.
From Stdlib Require Import Floats.SpecFloat.
Import ListNotations.
Open Scope string_scope.
Open Scope list_scope.
Open Scope Z_scope.
Set Warnings "-register-all".

(** ** Upstream payloads *)

(** A payload value.  Ergast serialises every scalar as a JSON string, so a
    value is a string or a dict; a dict is kept as its items in order, the
    first binding of a key being the one a lookup sees. *)
Inductive json : Type :=
| JStr (s : string)
| JObj (items : list (string * json)).

Definition dict := list (string * json).

(** [d.get(k)], with [None] for the default. *)
Fixpoint dict_get (k : string) (d : dict) : option json :=
  match d with
  | [] => None
  | (k', v) :: r => if String.eqb k k' then Some v else dict_get k r
  end.

(** [k in d]. *)
Definition dict_in (k : string) (d : dict) : bool :=
  match dict_get k d with Some _ => true | None => false end.

(** Python truthiness of a value that may be [None]: the empty string and
    the empty dict are false. *)
Definition truthy (v : option json) : bool :=
  match v with
  | None => false
  | Some (JStr s) => negb (String.eqb s "")
  | Some (JObj []) => false
  | Some (JObj (_ :: _)) => true
  end.

(** ** Exceptions and results *)

Inductive exn : Type :=
| KeyError | ValueError | TypeError | AttributeError
| ValidationError   (* pydantic rejects a field *)
| DBAPIError        (* the driver cannot bind a parameter *)
| IntegrityError.   (* the store rejects a row *)

Inductive result (A : Type) : Type :=
| Ok (a : A)
| Raise (e : exn).
Arguments Ok {A} a.
Arguments Raise {A} e.

(** ** Python builtins on text

    A string of the model holds the UTF-8 encoding of a Python string. *)

Definition byte (c : ascii) : Z := Z.of_nat (nat_of_ascii c).

Definition is_continuation (c : ascii) : bool :=
  (128 <=? byte c) && (byte c <? 192).

(** The code points of a string.  A byte that starts no well-formed
    sequence encodes no character; it is decoded as [-1], which is neither
    a digit nor a blank. *)
Fixpoint code_points (l : list ascii) : list Z :=
  match l with
  | [] => []
  | a :: r =>
      let n := byte a in
      if n <? 128 then n :: code_points r
      else
        match r with
        | b :: r1 =>
            if (192 <=? n) && (n <? 224) && is_continuation b
            then ((n - 192) * 64 + (byte b - 128)) :: code_points r1
            else
              match r1 with
              | c :: r2 =>
                  if (224 <=? n) && (n <? 240) && is_continuation b
                     && is_continuation c
                  then ((n - 224) * 4096 + (byte b - 128) * 64 + (byte c - 128))
                         :: code_points r2
                  else
                    match r2 with
                    | d :: r3 =>
                        if (240 <=? n) && (n <? 248) && is_continuation b
                           && is_continuation c && is_continuation d
                        then ((n - 240) * 262144 + (byte b - 128) * 4096
                              + (byte c - 128) * 64 + (byte d - 128))
                               :: code_points r3
                        else -1 :: code_points r
                    | [] => -1 :: code_points r
                    end
              | [] => -1 :: code_points r
              end
        | [] => [-1]
        end
  end.

(** The digit zero of every script of decimal digits (category Nd of
    Unicode 14.0): the ten digits of a script are consecutive. *)
Definition decimal_zeros : list Z :=
  [48; 1632; 1776; 1984; 2406; 2534; 2662; 2790; 2918; 3046; 3174; 3302; 3430;
   3558; 3664; 3792; 3872; 4160; 4240; 6112; 6160; 6470; 6608; 6784; 6800;
   6992; 7088; 7232; 7248; 42528; 43216; 43264; 43472; 43504; 43600; 44016;
   65296; 66720; 68912; 69734; 69872; 69942; 70096; 70384; 70736; 70864;
   71248; 71360; 71472; 71904; 72016; 72784; 73040; 73120; 92768; 92864;
   93008; 120782; 120792; 120802; 120812; 120822; 123200; 123632; 125264;
   130032].

(** The value of a decimal digit of any script: what [\d] matches in a
    pattern on text, and what [int] and [float] read as a digit. *)
Definition decimal (cp : Z) : option Z :=
  match find (fun z => (z <=? cp) && (cp <? z + 10)) decimal_zeros with
  | Some z => Some (cp - z)
  | None => None
  end.

(** The blanks beyond ASCII. *)
Definition unicode_spaces : list Z :=
  [133; 160; 5760; 8192; 8193; 8194; 8195; 8196; 8197; 8198; 8199; 8200;
   8201; 8202; 8232; 8233; 8239; 8287; 12288].

(** What [int] and [float] make of a character before they read the
    literal: an ASCII character is kept, another blank becomes a space,
    another decimal digit its ASCII digit, anything else a question
    mark, which no literal holds. *)
Definition to_ascii (cp : Z) : ascii :=
  if (0 <=? cp) && (cp <? 128) then ascii_of_nat (Z.to_nat cp)
  else if existsb (Z.eqb cp) unicode_spaces then " "%char
  else match decimal cp with
       | Some v => ascii_of_nat (Z.to_nat (48 + v))
       | None => "?"%char
       end.

Definition decimal_and_space_to_ascii (s : string) : list ascii :=
  map to_ascii (code_points (list_ascii_of_string s)).

Definition is_digit (c : ascii) : bool :=
  let n := nat_of_ascii c in (48 <=? n)%nat && (n <=? 57)%nat.

Definition digit_val (c : ascii) : Z := Z.of_nat (nat_of_ascii c) - 48.

(** The blanks [int] and [float] skip around the literal: tab to carriage
    return, and the space. *)
Definition is_space (c : ascii) : bool :=
  let n := nat_of_ascii c in
  ((9 <=? n)%nat && (n <=? 13)%nat) || (n =? 32)%nat.

Fixpoint lstrip (l : list ascii) : list ascii :=
  match l with
  | c :: r => if is_space c then lstrip r else l
  | [] => []
  end.

Definition strip (l : list ascii) : list ascii :=
  rev (lstrip (rev (lstrip l))).

(** A digit part: digits, single underscores allowed between two digits.
    Returns the digits read and what follows them. *)
Fixpoint digitpart (l : list ascii) : option (list ascii * list ascii) :=
  match l with
  | c :: r =>
      if is_digit c then
        match r with
        | "_"%char :: ((c' :: _) as r') =>
            if is_digit c' then
              match digitpart r' with
              | Some (ds, rest) => Some (c :: ds, rest)
              | None => None
              end
            else Some ([c], r)
        | _ =>
            match digitpart r with
            | Some (ds, rest) => Some (c :: ds, rest)
            | None => Some ([c], r)
            end
        end
      else None
  | [] => None
  end.

Definition digits_val (ds : list ascii) : Z :=
  fold_left (fun acc c => 10 * acc + digit_val c) ds 0.

Definition sign_of (l : list ascii) : bool * list ascii :=
  match l with
  | "-"%char :: r => (true, r)
  | "+"%char :: r => (false, r)
  | _ => (false, l)
  end.

(** [int(s)] for a string: [None] stands for [ValueError], which a
    literal of more than 4300 digits raises too, by the default limit of
    the interpreter. *)
Definition int_of_string (s : string) : option Z :=
  let (neg, body) := sign_of (strip (decimal_and_space_to_ascii s)) in
  match digitpart body with
  | Some (ds, []) =>
      if (List.length ds <=? 4300)%nat
      then Some (if neg then - digits_val ds else digits_val ds)
      else None
  | _ => None
  end.

(** [int(v)]: a dict is a [TypeError], a bad literal a [ValueError]. *)
Definition py_int (v : json) : result Z :=
  match v with
  | JStr s => match int_of_string s with Some n => Ok n | None => Raise ValueError end
  | JObj _ => Raise TypeError
  end.

(** A Python float: a binary64 number. *)
Definition pyfloat : Type := spec_float.

(** The float nearest to [mant * 10 ^ exp10], ties to even, as [float]
    rounds a decimal literal: beyond the largest float it is an infinity,
    below the smallest a zero. *)
Definition float_of_decimal (neg : bool) (mant exp10 : Z) : pyfloat :=
  match mant with
  | Zpos m =>
      if 0 <=? exp10
      then binary_normalize 53 1024
             ((if neg then -1 else 1) * (mant * 10 ^ exp10)) 0 false
      else SFdiv 53 1024 (S754_finite neg m 0)
                 (S754_finite false (Z.to_pos (10 ^ (- exp10))) 0)
  | _ => S754_zero neg
  end.

Definition lower (c : ascii) : ascii :=
  let n := nat_of_ascii c in
  if (65 <=? n)%nat && (n <=? 90)%nat then ascii_of_nat (n + 32) else c.

(** The optional exponent of a float literal, then the end of the text. *)
Definition exponent (l : list ascii) : option Z :=
  match l with
  | [] => Some 0
  | c :: r =>
      if Ascii.eqb (lower c) "e" then
        let (neg, body) := sign_of r in
        match digitpart body with
        | Some (ds, []) => Some (if neg then - digits_val ds else digits_val ds)
        | _ => None
        end
      else None
  end.

(** The unsigned number of a float literal: [digitpart], [digitpart "."],
    [[digitpart] "." digitpart], each with an optional exponent. *)
Definition floatnumber (l : list ascii) : option (Z * Z) :=
  match digitpart l with
  | Some (ip, "."%char :: r) =>
      match digitpart r with
      | Some (fp, rest) =>
          match exponent rest with
          | Some e => Some (digits_val (ip ++ fp), e - Z.of_nat (List.length fp))
          | None => None
          end
      | None =>
          match exponent r with
          | Some e => Some (digits_val ip, e)
          | None => None
          end
      end
  | Some (ip, rest) =>
      match exponent rest with
      | Some e => Some (digits_val ip, e)
      | None => None
      end
  | None =>
      match l with
      | "."%char :: r =>
          match digitpart r with
          | Some (fp, rest) =>
              match exponent rest with
              | Some e => Some (digits_val fp, e - Z.of_nat (List.length fp))
              | None => None
              end
          | None => None
          end
      | _ => None
      end
  end.

(** [float(s)] for a string: [None] stands for [ValueError]. *)
Definition float_of_string (s : string) : option pyfloat :=
  let (neg, body) := sign_of (strip (decimal_and_space_to_ascii s)) in
  let word := string_of_list_ascii (map lower body) in
  if String.eqb word "inf" || String.eqb word "infinity"
  then Some (S754_infinity neg)
  else if String.eqb word "nan" then Some S754_nan
  else match floatnumber body with
       | Some (m, e) => Some (float_of_decimal neg m e)
       | None => None
       end.

(** [float(v)]. *)
Definition py_float (v : json) : result pyfloat :=
  match v with
  | JStr s => match float_of_string s with Some f => Ok f | None => Raise ValueError end
  | JObj _ => Raise TypeError
  end.

(** ** Dates *)

Record pydate : Type := mkdate { year : Z; month : Z; day : Z }.

Definition is_leap (y : Z) : bool :=
  ((y mod 4 =? 0) && negb (y mod 100 =? 0)) || (y mod 400 =? 0).

Definition days_in_month (y m : Z) : Z :=
  if m =? 2 then (if is_leap y then 29 else 28)
  else if (m =? 4) || (m =? 6) || (m =? 9) || (m =? 11) then 30
  else 31.

(** An ASCII digit between [lo] and [hi], and its value. *)
Definition digit_in (lo hi cp : Z) : option Z :=
  if (48 + lo <=? cp) && (cp <=? 48 + hi) then Some (cp - 48) else None.

(** The day, [3[0-1]|[1-2]\d|0[1-9]|[1-9]| [1-9]], and nothing more: the
    alternatives are tried in this order, and text left after the first
    that matches is an error. *)
Definition day_of (t : list Z) : option Z :=
  match t with
  | [a] => digit_in 1 9 a
  | [a; b] =>
      if a =? 51 then
        match digit_in 0 1 b with Some v => Some (30 + v) | None => None end
      else if (a =? 49) || (a =? 50) then
        match decimal b with Some v => Some (10 * (a - 48) + v) | None => None end
      else if (a =? 48) || (a =? 32) then digit_in 1 9 b
      else None
  | _ => None
  end.

(** The text after the year and its dash: the month,
    [1[0-2]|0[1-9]|[1-9]], a dash, and the day. *)
Definition month_day (l : list Z) : option (Z * Z) :=
  let with_month (m : option Z) (t : list Z) : option (Z * Z) :=
    match m, day_of t with
    | Some m, Some d => Some (m, d)
    | _, _ => None
    end in
  match l with
  | a :: b :: t =>
      if b =? 45 then with_month (digit_in 1 9 a) t
      else
        match t with
        | c :: t' =>
            if c =? 45 then
              if a =? 49 then
                with_month (match digit_in 0 2 b with
                            | Some v => Some (10 + v)
                            | None => None
                            end) t'
              else if a =? 48 then with_month (digit_in 1 9 b) t'
              else None
            else None
        | [] => None
        end
  | _ => None
  end.

(** [datetime.strptime(s, "%Y-%m-%d").date()]: the year is [\d\d\d\d],
    four decimal digits of any script.  [None] stands for [ValueError]. *)
Definition strptime_ymd (s : string) : option pydate :=
  match code_points (list_ascii_of_string s) with
  | y1 :: y2 :: y3 :: y4 :: dash :: r =>
      match decimal y1, decimal y2, decimal y3, decimal y4 with
      | Some a, Some b, Some c, Some d =>
          let y := 1000 * a + 100 * b + 10 * c + d in
          if dash =? 45 then
            match month_day r with
            | Some (m, d) =>
                if (1 <=? y) && (d <=? days_in_month y m) then Some (mkdate y m d)
                else None
            | None => None
            end
          else None
      | _, _, _, _ => None
      end
  | _ => None
  end.

(** [parse_date]: a false argument gives [None]; the [ValueError] of
    [strptime] is caught, its [TypeError] on a dict is not. *)
Definition parse_date (date_str : option json) : result (option pydate) :=
  if negb (truthy date_str) then Ok None
  else match date_str with
       | Some (JStr s) => Ok (strptime_ymd s)
       | _ => Raise TypeError
       end.

(** ** The result monad of the pure helpers *)

Definition bindR {A B} (r : result A) (k : A -> result B) : result B :=
  match r with
  | Ok a => k a
  | Raise e => Raise e
  end.

Notation "'let?' x ':=' r 'in' k" := (bindR r (fun x => k))
  (at level 10, x name, r at level 100, k at level 200).

(** [d[k]]. *)
Definition dict_index (k : string) (d : dict) : result json :=
  match dict_get k d with
  | Some v => Ok v
  | None => Raise KeyError
  end.

(** [v[k]] for a value [v]: indexing a string by a string is a
    [TypeError]. *)
Definition json_index (k : string) (v : json) : result json :=
  match v with
  | JObj d => dict_index k d
  | JStr _ => Raise TypeError
  end.

(** [v.get(k)] for a value [v]: a string has no [get]. *)
Definition json_get (k : string) (v : json) : result (option json) :=
  match v with
  | JObj d => Ok (dict_get k d)
  | JStr _ => Raise AttributeError
  end.

(** [d.get(k, {})]. *)
Definition dict_get_obj (k : string) (d : dict) : json :=
  match dict_get k d with
  | Some v => v
  | None => JObj []
  end.

(** pydantic on a [str] field and on an [Optional[str]] field. *)
Definition valid_str (v : json) : result string :=
  match v with
  | JStr s => Ok s
  | JObj _ => Raise ValidationError
  end.

Definition valid_opt_str (v : option json) : result (option string) :=
  match v with
  | None => Ok None
  | Some (JStr s) => Ok (Some s)
  | Some (JObj _) => Raise ValidationError
  end.

(** pydantic on the [date] field of [RoundBase] and of [SessionBase].  The
    class body reads [date: t.Optional[date] = None]: the default is bound
    to the name [date] before the annotation is evaluated, so the field is
    declared [Optional[None]] and takes [None] only. *)
Definition valid_date_field (v : option pydate) : result (option pydate) :=
  match v with
  | None => Ok None
  | Some _ => Raise ValidationError
  end.

(** [float(x.get(k, 0)) if x.get(k) else None]. *)
Definition float_if_truthy (v : option json) : result (option pyfloat) :=
  if truthy v then
    match v with
    | Some x => let? f := py_float x in Ok (Some f)
    | None => Ok None
    end
  else Ok None.

(** ** Schemas ([schemas.py]) and rows ([models.py]) *)

Module SeasonCreate.
Record t : Type := mk { year : Z; wikipedia : option string }.
End SeasonCreate.

Module CircuitCreate.
Record t : Type := mk {
  reference : option string; name : string;
  locality : option string; country : option string;
  country_code : option string;
  latitude : option pyfloat; longitude : option pyfloat;
  altitude : option pyfloat; wikipedia : option string }.
End CircuitCreate.

Module DriverCreate.
Record t : Type := mk {
  reference : option string; forename : string; surname : string;
  abbreviation : option string; nationality : option string;
  country_code : option string; permanent_car_number : option Z;
  date_of_birth : option pydate; wikipedia : option string }.
End DriverCreate.

Module TeamCreate.
Record t : Type := mk {
  reference : option string; name : string; nationality : option string;
  country_code : option string; constructor_id : option string;
  wikipedia : option string }.
End TeamCreate.

Module RoundCreate.
Record t : Type := mk {
  reference : option string; name : string; round_number : Z;
  date : option pydate; time : option string; wikipedia : option string;
  season_id : Z; circuit_id : Z }.
End RoundCreate.

Module SessionCreate.
Record t : Type := mk {
  session_type : string; date : option pydate; time : option string;
  status : option string; round_id : Z }.
End SessionCreate.

Module TeamDriverCreate.
Record t : Type := mk { team_id : Z; driver_id : Z; season_year : Z }.
End TeamDriverCreate.

(** A persisted row: the columns of the schema and the surrogate key the
    store assigned. *)
Record row (A : Type) : Type := mkrow { id : Z; fields : A }.
Arguments mkrow {A} id fields.
Arguments id {A} r.
Arguments fields {A} r.

Definition table (A : Type) : Type := list (row A).

(** The store: one table per model, rows in insertion order. *)
Record db : Type := mkdb {
  seasons : table SeasonCreate.t;
  circuits : table CircuitCreate.t;
  drivers : table DriverCreate.t;
  teams : table TeamCreate.t;
  rounds : table RoundCreate.t;
  sessions : table SessionCreate.t;
  team_drivers : table TeamDriverCreate.t }.

Definition empty_db : db := mkdb [] [] [] [] [] [] [].

(** Modelled from the spec: "a surrogate identifier (assigned by storage)".
    The database engine, which is not part of the sources, assigns the key
    of an inserted row; the model takes one past the largest key in use,
    and the properties rely only on the key being one that no row of the
    table has. *)
Definition next_id {A} (t : table A) : Z :=
  1 + fold_right (fun r m => Z.max (id r) m) 0 t.

Definition insert {A} (t : table A) (x : A) : table A * row A :=
  let r := mkrow (next_id t) x in (t ++ [r], r).

(** ** The monad of the import routines: store passing, with exceptions.
    A raised exception keeps the store as the commits so far left it. *)

Definition M (A : Type) : Type := db -> db * result A.

Definition ret {A} (a : A) : M A := fun d => (d, Ok a).

Definition bind {A B} (m : M A) (k : A -> M B) : M B :=
  fun d => match m d with
           | (d', Ok a) => k a d'
           | (d', Raise e) => (d', Raise e)
           end.

Definition lift {A} (r : result A) : M A := fun d => (d, r).

Notation "x <- m ;; k" := (bind m (fun x => k))
  (at level 61, m at next level, right associativity).
Notation "m ;;; k" := (bind m (fun _ => k))
  (at level 61, right associativity).

(** ** The repository ([crud.py])

    Each [create_*] adds the record as a row and commits; each [get_*] is
    a query.  The database engine is not part of the sources, and neither
    the sources nor the specification fix the range of its INTEGER columns
    or whether it holds a [String(n)] to its length.  The columns of the
    model hold any integer and any text: where an engine rejects a number
    or a text beyond its bounds (a [permanent_car_number], a year or a
    round number that [int] read from a long literal), the code raises at
    that commit and the model stores the row.  The runs of the model on
    which every stored value is within the bounds of the engine are the
    runs of the code. *)

(** A [String] column compared with a bound parameter: a NULL column
    matches nothing. *)
Definition ref_eqb (reference : string) (col : option string) : bool :=
  match col with
  | Some s => String.eqb s reference
  | None => false
  end.

(** A payload value bound as the parameter of a query: the driver binds a
    string and rejects a dict. *)
Definition bind_param (v : json) : result string :=
  match v with
  | JStr s => Ok s
  | JObj _ => Raise DBAPIError
  end.

Definition get_season_by_year (y : Z) : M (option (row SeasonCreate.t)) :=
  fun d => (d, Ok (find (fun r => SeasonCreate.year (fields r) =? y) (seasons d))).

Definition get_circuit_by_reference (reference : string)
  : M (option (row CircuitCreate.t)) :=
  fun d => (d, Ok (find (fun r => ref_eqb reference (CircuitCreate.reference (fields r)))
                        (circuits d))).

Definition get_driver_by_reference (reference : string)
  : M (option (row DriverCreate.t)) :=
  fun d => (d, Ok (find (fun r => ref_eqb reference (DriverCreate.reference (fields r)))
                        (drivers d))).

Definition get_team_by_reference (reference : string)
  : M (option (row TeamCreate.t)) :=
  fun d => (d, Ok (find (fun r => ref_eqb reference (TeamCreate.reference (fields r)))
                        (teams d))).

Definition get_round_by_reference (reference : string)
  : M (option (row RoundCreate.t)) :=
  fun d => (d, Ok (find (fun r => ref_eqb reference (RoundCreate.reference (fields r)))
                        (rounds d))).

Definition get_sessions_by_round (round_id : Z) (d : db) : table SessionCreate.t :=
  filter (fun r => SessionCreate.round_id (fields r) =? round_id) (sessions d).

Definition create_season (season : SeasonCreate.t) : M (row SeasonCreate.t) :=
  fun d => let (t, r) := insert (seasons d) season in
           (mkdb t (circuits d) (drivers d) (teams d) (rounds d) (sessions d)
                 (team_drivers d), Ok r).

Definition create_circuit (circuit : CircuitCreate.t) : M (row CircuitCreate.t) :=
  fun d => let (t, r) := insert (circuits d) circuit in
           (mkdb (seasons d) t (drivers d) (teams d) (rounds d) (sessions d)
                 (team_drivers d), Ok r).

Definition create_driver (driver : DriverCreate.t) : M (row DriverCreate.t) :=
  fun d => let (t, r) := insert (drivers d) driver in
           (mkdb (seasons d) (circuits d) t (teams d) (rounds d) (sessions d)
                 (team_drivers d), Ok r).

Definition create_team (team : TeamCreate.t) : M (row TeamCreate.t) :=
  fun d => let (t, r) := insert (teams d) team in
           (mkdb (seasons d) (circuits d) (drivers d) t (rounds d) (sessions d)
                 (team_drivers d), Ok r).

Definition create_round (round_obj : RoundCreate.t) : M (row RoundCreate.t) :=
  fun d => let (t, r) := insert (rounds d) round_obj in
           (mkdb (seasons d) (circuits d) (drivers d) (teams d) t (sessions d)
                 (team_drivers d), Ok r).

(** Modelled from the spec: the foreign key of [models.py]
    ([ForeignKey("round.id")]) is enforced by the database engine, which is
    not part of the sources: "foreign keys enforcing ... Session->Round".
    The commit of a session whose round is not stored raises and stores
    nothing.  The routines take the other foreign keys from rows they have
    just read, so no other create can meet a missing row. *)
Definition create_session (session : SessionCreate.t) : M (row SessionCreate.t) :=
  fun d =>
    if existsb (Z.eqb (SessionCreate.round_id session)) (map id (rounds d))
    then let (t, r) := insert (sessions d) session in
         (mkdb (seasons d) (circuits d) (drivers d) (teams d) (rounds d) t
               (team_drivers d), Ok r)
    else (d, Raise IntegrityError).

Definition create_team_driver (team_driver : TeamDriverCreate.t)
  : M (row TeamDriverCreate.t) :=
  fun d => let (t, r) := insert (team_drivers d) team_driver in
           (mkdb (seasons d) (circuits d) (drivers d) (teams d) (rounds d)
                 (sessions d) t, Ok r).

(** ** The fetchers ([f1_api.py]), by what they return *)

Record upstream : Type := mkupstream {
  now_year : Z;                                   (* datetime.now().year *)
  fetch_seasons : list dict;
  fetch_circuits : list dict;
  fetch_drivers : list dict;
  fetch_constructors : list dict;
  fetch_races : Z -> list dict;
  fetch_qualifying_results : Z -> Z -> list dict;
  fetch_sprint_results : Z -> Z -> list dict;
  (* the pairs (driverId, constructorId) of the dicts it builds *)
  fetch_driver_constructor_by_season : Z -> list (json * json) }.

(** ** The import routines ([data_import.py]) *)

(** The loop every routine runs: the body answers whether it created a row
    ([count += 1]) or moved on ([continue]). *)
Fixpoint for_each {X} (body : X -> M bool) (l : list X) (count : Z) : M Z :=
  match l with
  | [] => ret count
  | x :: r => created <- body x ;;
              for_each body r (if created then count + 1 else count)
  end.

(** [end_year] after [if not end_year: end_year = datetime.now().year]. *)
Definition default_end_year (up : upstream) (end_year : option Z) : Z :=
  match end_year with
  | Some e => if e =? 0 then now_year up else e
  | None => now_year up
  end.

Definition import_season (start_year end_year : Z) (season_data : dict) : M bool :=
  season_year <- lift (let? v := dict_index "season" season_data in py_int v) ;;
  if (season_year <? start_year) || (season_year >? end_year) then ret false
  else
    existing_season <- get_season_by_year season_year ;;
    match existing_season with
    | Some _ => ret false
    | None =>
        season_create <- lift (let? w := valid_opt_str (dict_get "url" season_data) in
                               Ok (SeasonCreate.mk season_year w)) ;;
        create_season season_create ;;;
        ret true
    end.

Definition import_seasons (up : upstream) (start_year : Z) (end_year : option Z)
  : M Z :=
  for_each (import_season start_year (default_end_year up end_year))
           (fetch_seasons up) 0.

(** The [CircuitCreate(...)] call that [import_circuits] and the inline
    creation of [import_rounds_for_season] both make: the arguments in the
    order Python evaluates them, then pydantic's validation. *)
Definition build_circuit_create (circuit_reference : string) (circuit_data : dict)
  : result CircuitCreate.t :=
  let location := dict_get_obj "Location" circuit_data in
  let? name := dict_index "circuitName" circuit_data in
  let? locality := json_get "locality" location in
  let? country := json_get "country" location in
  let? lat := json_get "lat" location in
  let? latitude := float_if_truthy lat in
  let? long := json_get "long" location in
  let? longitude := float_if_truthy long in
  let? name := valid_str name in
  let? locality := valid_opt_str locality in
  let? country := valid_opt_str country in
  let? wikipedia := valid_opt_str (dict_get "url" circuit_data) in
  Ok (CircuitCreate.mk (Some circuit_reference) name locality country None
                       latitude longitude None wikipedia).

Definition import_circuit (circuit_data : dict) : M bool :=
  circuit_reference <- lift (let? v := dict_index "circuitId" circuit_data in
                             bind_param v) ;;
  existing_circuit <- get_circuit_by_reference circuit_reference ;;
  match existing_circuit with
  | Some _ => ret false
  | None =>
      circuit_create <- lift (build_circuit_create circuit_reference circuit_data) ;;
      create_circuit circuit_create ;;;
      ret true
  end.

Definition import_circuits (up : upstream) : M Z :=
  for_each import_circuit (fetch_circuits up) 0.

Definition build_driver_create (driver_reference : string) (driver_data : dict)
  : result DriverCreate.t :=
  let? forename := dict_index "givenName" driver_data in
  let? surname := dict_index "familyName" driver_data in
  let? permanent_car_number :=
    (match dict_get "permanentNumber" driver_data with
     | Some v => let? n := py_int v in Ok (Some n)
     | None => Ok None
     end) in
  let? date_of_birth := parse_date (dict_get "dateOfBirth" driver_data) in
  let? forename := valid_str forename in
  let? surname := valid_str surname in
  let? abbreviation := valid_opt_str (dict_get "code" driver_data) in
  let? nationality := valid_opt_str (dict_get "nationality" driver_data) in
  let? wikipedia := valid_opt_str (dict_get "url" driver_data) in
  Ok (DriverCreate.mk (Some driver_reference) forename surname abbreviation
                      nationality None permanent_car_number date_of_birth
                      wikipedia).

Definition import_driver (driver_data : dict) : M bool :=
  driver_reference <- lift (let? v := dict_index "driverId" driver_data in
                            bind_param v) ;;
  existing_driver <- get_driver_by_reference driver_reference ;;
  match existing_driver with
  | Some _ => ret false
  | None =>
      driver_create <- lift (build_driver_create driver_reference driver_data) ;;
      create_driver driver_create ;;;
      ret true
  end.

Definition import_drivers (up : upstream) : M Z :=
  for_each import_driver (fetch_drivers up) 0.

Definition build_team_create (constructor_reference : string)
  (constructor_data : dict) : result TeamCreate.t :=
  let? name := dict_index "name" constructor_data in
  let? name := valid_str name in
  let? nationality := valid_opt_str (dict_get "nationality" constructor_data) in
  let? wikipedia := valid_opt_str (dict_get "url" constructor_data) in
  Ok (TeamCreate.mk (Some constructor_reference) name nationality None
                    (Some constructor_reference) wikipedia).

Definition import_team (constructor_data : dict) : M bool :=
  constructor_reference <- lift (let? v := dict_index "constructorId" constructor_data in
                                 bind_param v) ;;
  existing_team <- get_team_by_reference constructor_reference ;;
  match existing_team with
  | Some _ => ret false
  | None =>
      team_create <- lift (build_team_create constructor_reference constructor_data) ;;
      create_team team_create ;;;
      ret true
  end.

Definition import_teams (up : upstream) : M Z :=
  for_each import_team (fetch_constructors up) 0.

(** [find_race]: the scan of [import_sessions_for_round] for the first race
    whose round number is [round_num]. *)
Fixpoint find_race (round_num : Z) (race_data : list dict) : result (option dict) :=
  match race_data with
  | [] => Ok None
  | race :: rest =>
      let? v := dict_index "round" race in
      let? n := py_int v in
      if n =? round_num then Ok (Some race) else find_race round_num rest
  end.

Definition race_session_create (race_info : dict) (round_id : Z)
  : result SessionCreate.t :=
  let? date := parse_date (dict_get "date" race_info) in
  let? date := valid_date_field date in
  let? time := valid_opt_str (dict_get "time" race_info) in
  Ok (SessionCreate.mk "race" date time (Some "completed") round_id).

(** The [SessionCreate(...)] call of the five sessions read from a nested
    dict: [race_info.get(key, {}).get("date", default_date)] and
    [race_info.get(key, {}).get("time", None)]. *)
Definition nested_session_create (session_type key : string)
  (default_date : option json) (race_info : dict) (round_id : Z)
  : result SessionCreate.t :=
  let? d := json_get "date" (dict_get_obj key race_info) in
  let? date := parse_date (match d with Some v => Some v | None => default_date end) in
  let? t := json_get "time" (dict_get_obj key race_info) in
  let? date := valid_date_field date in
  let? time := valid_opt_str t in
  Ok (SessionCreate.mk session_type date time (Some "completed") round_id).

(** A Python list is true when it is not empty. *)
Definition nonempty {X} (l : list X) : bool :=
  match l with [] => false | _ :: _ => true end.

Definition import_sessions_for_round (up : upstream)
  (season_year round_num round_id : Z) : M Z :=
  let count := 0 in
  let race_data := fetch_races up season_year in
  race_info <- lift (find_race round_num race_data) ;;
  match race_info with
  | None | Some [] => ret 0
  | Some race_info =>
      race_session_create <- lift (race_session_create race_info round_id) ;;
      create_session race_session_create ;;;
      let count := count + 1 in
      let quali_data := fetch_qualifying_results up season_year round_num in
      count <- (if nonempty quali_data then
                  quali_session_create <-
                    lift (nested_session_create "qualifying" "Qualifying"
                            (dict_get "date" race_info) race_info round_id) ;;
                  create_session quali_session_create ;;;
                  ret (count + 1)
                else ret count) ;;
      let sprint_data := fetch_sprint_results up season_year round_num in
      count <- (if nonempty sprint_data then
                  sprint_session_create <-
                    lift (nested_session_create "sprint" "Sprint"
                            (dict_get "date" race_info) race_info round_id) ;;
                  create_session sprint_session_create ;;;
                  ret (count + 1)
                else ret count) ;;
      if season_year >=? 2000 then
        p1_session_create <-
          lift (nested_session_create "practice1" "FirstPractice" None
                  race_info round_id) ;;
        create_session p1_session_create ;;;
        let count := count + 1 in
        p2_session_create <-
          lift (nested_session_create "practice2" "SecondPractice" None
                  race_info round_id) ;;
        create_session p2_session_create ;;;
        let count := count + 1 in
        if negb (nonempty sprint_data) && dict_in "ThirdPractice" race_info then
          p3_session_create <-
            lift (nested_session_create "practice3" "ThirdPractice" None
                    race_info round_id) ;;
          create_session p3_session_create ;;;
          ret (count + 1)
        else ret count
      else ret count
  end.

(** ** String formatting *)

(** [str(n)] for an integer.  The interpreter's default limit makes the
    conversion of a number of more than 4300 digits raise; the model
    formats any number. *)
Definition str_of_int (n : Z) : string := NilZero.string_of_int (Z.to_int n).

Definition hex_digit (n : nat) : ascii :=
  nth n (list_ascii_of_string "0123456789abcdef") "0"%char.

(** One character of [repr(s)] inside the quote [q]. *)
Definition repr_char (q c : ascii) : list ascii :=
  let n := nat_of_ascii c in
  if Ascii.eqb c "\" then ["\"; "\"]%char
  else if Ascii.eqb c q then ["\"%char; c]
  else if (n =? 10)%nat then ["\"; "n"]%char
  else if (n =? 13)%nat then ["\"; "r"]%char
  else if (n =? 9)%nat then ["\"; "t"]%char
  else if (n <? 32)%nat || (n =? 127)%nat
       then ["\"%char; "x"%char; hex_digit (n / 16); hex_digit (n mod 16)]
  else [c].

(** [repr(s)] for a string, exact on ASCII text: double quotes are chosen
    when the text has a single quote and no double quote. *)
Definition repr_str (s : string) : string :=
  let l := list_ascii_of_string s in
  let has c := existsb (Ascii.eqb c) l in
  let dq := ascii_of_nat 34 in
  let q := if has "'"%char && negb (has dq) then dq else "'"%char in
  string_of_list_ascii (q :: flat_map (repr_char q) l ++ [q]).

(** [str(v)], which an f-string applies: a string is itself, a dict is
    shown by its [repr], each key once. *)
Fixpoint py_str (v : json) : string :=
  match v with
  | JStr s => s
  | JObj items =>
      let fix shown (seen : list string) (l : list (string * json)) : list string :=
        match l with
        | [] => []
        | (k, x) :: r =>
            if existsb (String.eqb k) seen then shown seen r
            else (repr_str k ++ ": " ++
                  match x with JStr s => repr_str s | JObj _ => py_str x end)%string
                 :: shown (k :: seen) r
        end in
      ("{" ++ String.concat ", " (shown [] items) ++ "}")%string
  end.

(** [import_rounds_for_season], one race of the loop. *)
Definition import_round (up : upstream) (season_year : Z)
  (season : row SeasonCreate.t) (race_data : dict) : M bool :=
  circuit_data <- lift (dict_index "Circuit" race_data) ;;
  circuit_reference <- lift (let? v := json_index "circuitId" circuit_data in
                             bind_param v) ;;
  circuit <- get_circuit_by_reference circuit_reference ;;
  circuit <- (match circuit with
              | Some c => ret c
              | None =>
                  circuit_create <-
                    lift (match circuit_data with
                          | JObj cd => build_circuit_create circuit_reference cd
                          | JStr _ => Raise TypeError
                          end) ;;
                  create_circuit circuit_create
              end) ;;
  round <- lift (dict_index "round" race_data) ;;
  let round_reference := (str_of_int season_year ++ "-" ++ py_str round)%string in
  existing_round <- get_round_by_reference round_reference ;;
  match existing_round with
  | Some _ => ret false
  | None =>
      round_create <-
        lift (let? name := dict_index "raceName" race_data in
              let? round_number := py_int round in
              let? date := parse_date (dict_get "date" race_data) in
              let? name := valid_str name in
              let? date := valid_date_field date in
              let? time := valid_opt_str (dict_get "time" race_data) in
              let? wikipedia := valid_opt_str (dict_get "url" race_data) in
              Ok (RoundCreate.mk (Some round_reference) name round_number date
                                 time wikipedia (id season) (id circuit))) ;;
      round_obj <- create_round round_create ;;
      round_num <- lift (py_int round) ;;
      import_sessions_for_round up season_year round_num (id round_obj) ;;;
      ret true
  end.

Definition import_rounds_for_season (up : upstream) (season_year : Z) : M Z :=
  season <- get_season_by_year season_year ;;
  match season with
  | None => ret 0
  | Some season =>
      for_each (import_round up season_year season) (fetch_races up season_year) 0
  end.

(** The existence query of [import_team_drivers_for_season]. *)
Definition query_team_driver (team_id driver_id season_year : Z)
  : M (option (row TeamDriverCreate.t)) :=
  fun d => (d, Ok (find (fun r =>
                           (TeamDriverCreate.team_id (fields r) =? team_id)
                           && (TeamDriverCreate.driver_id (fields r) =? driver_id)
                           && (TeamDriverCreate.season_year (fields r) =? season_year))
                        (team_drivers d))).

Definition import_team_driver (season_year : Z) (team_driver_data : json * json)
  : M bool :=
  let (driver_reference, team_reference) := team_driver_data in
  driver_reference <- lift (bind_param driver_reference) ;;
  driver <- get_driver_by_reference driver_reference ;;
  team_reference <- lift (bind_param team_reference) ;;
  team <- get_team_by_reference team_reference ;;
  match driver, team with
  | Some driver, Some team =>
      existing <- query_team_driver (id team) (id driver) season_year ;;
      match existing with
      | Some _ => ret false
      | None =>
          create_team_driver
            (TeamDriverCreate.mk (id team) (id driver) season_year) ;;;
          ret true
      end
  | _, _ => ret false
  end.

Definition import_team_drivers_for_season (up : upstream) (season_year : Z) : M Z :=
  for_each (import_team_driver season_year)
           (fetch_driver_constructor_by_season up season_year) 0.

(** [range(start_year, end_year + 1)]. *)
Definition year_range (start_year end_year : Z) : list Z :=
  map (fun i => start_year + Z.of_nat i)
      (seq 0 (Z.to_nat (end_year + 1 - start_year))).

(** The counts [import_all_f1_data] returns. *)
Record counts : Type := mkcounts {
  n_seasons : Z; n_circuits : Z; n_drivers : Z; n_teams : Z;
  n_rounds : Z; n_team_drivers : Z }.

Fixpoint import_years (up : upstream) (years : list Z) (rounds team_drivers : Z)
  : M (Z * Z) :=
  match years with
  | [] => ret (rounds, team_drivers)
  | year :: rest =>
      r <- import_rounds_for_season up year ;;
      t <- import_team_drivers_for_season up year ;;
      import_years up rest (rounds + r) (team_drivers + t)
  end.

Definition import_all_f1_data (up : upstream) (start_year : Z) (end_year : option Z)
  : M counts :=
  let end_year := default_end_year up end_year in
  s <- import_seasons up start_year (Some end_year) ;;
  c <- import_circuits up ;;
  d <- import_drivers up ;;
  t <- import_teams up ;;
  rt <- import_years up (year_range start_year end_year) 0 0 ;;
  ret (mkcounts s c d t (fst rt) (snd rt)).

(** ** Vocabulary of the properties *)

(** [l'] is [l] with rows added after it. *)
Definition grows {A} (l l' : list A) : Prop := exists added, l' = l ++ added.

(** The store [d'] holds every row of [d], unchanged and in place, and
    possibly new rows after them. *)
Definition extends (d d' : db) : Prop :=
  grows (seasons d) (seasons d') /\ grows (circuits d) (circuits d') /\
  grows (drivers d) (drivers d') /\ grows (teams d) (teams d') /\
  grows (rounds d) (rounds d') /\ grows (sessions d) (sessions d') /\
  grows (team_drivers d) (team_drivers d').

(** The rows a run from [d] to [d'] added to a table. *)
Definition created {A} (t t' : table A) : table A := skipn (List.length t) t'.

(** A computation keeps a relation between the store it starts from and the
    store it leaves, whatever it returns or raises. *)
Definition keeps (R : db -> db -> Prop) {A} (m : M A) : Prop :=
  forall d, R d (fst (m d)).

(** The store [d] with the session [s] added. *)
Definition add_session (s : SessionCreate.t) (d : db) : db :=
  mkdb (seasons d) (circuits d) (drivers d) (teams d) (rounds d)
       (sessions d ++ [mkrow (next_id (sessions d)) s]) (team_drivers d).

(** The store [d] with the sessions [l] added one after the other. *)
Fixpoint add_sessions (l : list SessionCreate.t) (d : db) : db :=
  match l with
  | [] => d
  | s :: r => add_sessions r (add_session s d)
  end.

(** A computation that only commits sessions of the round [round_id], the
    same ones from every store that holds the round: it commits [l] and
    ends with [r]. *)
Definition commits (round_id : Z) {A} (m : M A) (l : list SessionCreate.t)
  (r : result A) : Prop :=
  Forall (fun s => SessionCreate.round_id s = round_id) l /\
  forall d, In round_id (map id (rounds d)) -> m d = (add_sessions l d, r).

Definition is_practice (session_type : string) : bool :=
  String.eqb session_type "practice1" || String.eqb session_type "practice2"
  || String.eqb session_type "practice3".

Definition session_types (t : table SessionCreate.t) : list string :=
  map (fun r => SessionCreate.session_type (fields r)) t.

(** The sessions of kind [session_type] among the rows [t] of round
    [round_id]. *)
Definition sessions_of (session_type : string) (round_id : Z)
  (t : table SessionCreate.t) : table SessionCreate.t :=
  filter (fun r => String.eqb (SessionCreate.session_type (fields r)) session_type
                   && (SessionCreate.round_id (fields r) =? round_id)) t.

Definition season_years (t : table SeasonCreate.t) : list Z :=
  map (fun r => SeasonCreate.year (fields r)) t.

(** The years the records of a season list carry, where [int] reads them. *)
Fixpoint upstream_years (l : list dict) : list Z :=
  match l with
  | [] => []
  | s :: r =>
      match (let? v := dict_index "season" s in py_int v) with
      | Ok y => y :: upstream_years r
      | Raise _ => upstream_years r
      end
  end.

(** ** Statements and fixtures of the properties *)

(** A computation commits sessions of the round that all satisfy [P]. *)
Definition plans (round_id : Z) (P : SessionCreate.t -> Prop) {A} (m : M A)
  : Prop :=
  exists l r, commits round_id m l r /\ Forall P l.

(** What every session committed by [import_sessions_for_round] satisfies. *)
Definition session_ok (season_year round_id : Z) (s : SessionCreate.t) : Prop :=
  SessionCreate.status s = Some "completed" /\
  SessionCreate.round_id s = round_id /\
  (season_year < 2000 -> is_practice (SessionCreate.session_type s) = false).

(** Claim C2 as stated: a run creates exactly one race session for the
    round. *)
Definition creates_one_race_session (up : upstream)
  (season_year round_num round_id : Z) (d : db) : Prop :=
  let d' := fst (import_sessions_for_round up season_year round_num round_id d) in
  List.length (sessions_of "race" round_id (created (sessions d) (sessions d')))
  = 1%nat.

(** A computation commits [s] first and then sessions that satisfy [Q]. *)
Definition plans_after (round_id : Z) (s : SessionCreate.t)
  (Q : SessionCreate.t -> Prop) {A} (m : M A) : Prop :=
  exists l r, commits round_id m (s :: l) r /\ Forall Q l.

Definition not_race (s : SessionCreate.t) : Prop :=
  String.eqb (SessionCreate.session_type s) "race" = false.

(** An upstream that serves nothing. *)
Definition up_empty : upstream :=
  mkupstream 2024 [] [] [] [] (fun _ => []) (fun _ _ => []) (fun _ _ => [])
             (fun _ => []).

(** Claim C3 as stated: a run creates exactly five sessions. *)
Definition creates_five_sessions (up : upstream)
  (season_year round_num round_id : Z) (d : db) : Prop :=
  List.length
    (created (sessions d)
       (sessions (fst (import_sessions_for_round up season_year round_num
                                                 round_id d))))
  = 5%nat.

(** The kinds of session a modern weekend without sprint gets. *)
Definition modern_session_types (qualifying : bool) : list string :=
  "race" :: (if qualifying then ["qualifying"] else [])
  ++ ["practice1"; "practice2"; "practice3"].

(** A race entry as Ergast serves it for a modern weekend. *)
Definition race_bahrain : dict :=
  [("season", JStr "2021"); ("round", JStr "1");
   ("url", JStr "https://en.wikipedia.org/wiki/2021_Bahrain_Grand_Prix");
   ("raceName", JStr "Bahrain Grand Prix");
   ("Circuit", JObj [("circuitId", JStr "bahrain");
                     ("url", JStr "http://en.wikipedia.org/wiki/Bahrain_International_Circuit");
                     ("circuitName", JStr "Bahrain International Circuit");
                     ("Location", JObj [("lat", JStr "26.0325");
                                        ("long", JStr "50.5106");
                                        ("locality", JStr "Sakhir");
                                        ("country", JStr "Bahrain")])]);
   ("date", JStr "2021-03-28"); ("time", JStr "15:00:00Z");
   ("FirstPractice", JObj [("date", JStr "2021-03-26")]);
   ("SecondPractice", JObj [("date", JStr "2021-03-26")]);
   ("ThirdPractice", JObj [("date", JStr "2021-03-27")]);
   ("Qualifying", JObj [("date", JStr "2021-03-27")])].

(** An upstream with that one race in every season, no sprint, and the
    given qualifying results. *)
Definition up_bahrain (qualifying : list dict) : upstream :=
  mkupstream 2024 [[("season", JStr "2021")]] [] [] []
             (fun _ => [race_bahrain]) (fun _ _ => qualifying) (fun _ _ => [])
             (fun _ => []).

(** The entry of a weekend whose dates are not set: the times only. *)
Definition race_undated : dict :=
  [("season", JStr "2021"); ("round", JStr "1");
   ("url", JStr "https://en.wikipedia.org/wiki/2021_Bahrain_Grand_Prix");
   ("raceName", JStr "Bahrain Grand Prix");
   ("Circuit", JObj [("circuitId", JStr "bahrain");
                     ("url", JStr "http://en.wikipedia.org/wiki/Bahrain_International_Circuit");
                     ("circuitName", JStr "Bahrain International Circuit");
                     ("Location", JObj [("lat", JStr "26.0325");
                                        ("long", JStr "50.5106");
                                        ("locality", JStr "Sakhir");
                                        ("country", JStr "Bahrain")])]);
   ("time", JStr "15:00:00Z");
   ("FirstPractice", JObj [("time", JStr "11:30:00Z")]);
   ("SecondPractice", JObj [("time", JStr "15:00:00Z")]);
   ("ThirdPractice", JObj [("time", JStr "12:00:00Z")]);
   ("Qualifying", JObj [("time", JStr "15:00:00Z")])].

(** The entry of a weekend of which only the third practice has its date
    set. *)
Definition race_practice_dated : dict :=
  [("season", JStr "2021"); ("round", JStr "1");
   ("raceName", JStr "Bahrain Grand Prix");
   ("time", JStr "15:00:00Z");
   ("FirstPractice", JObj [("time", JStr "11:30:00Z")]);
   ("SecondPractice", JObj [("time", JStr "15:00:00Z")]);
   ("ThirdPractice", JObj [("date", JStr "2021-03-27");
                           ("time", JStr "12:00:00Z")]);
   ("Qualifying", JObj [("time", JStr "15:00:00Z")])].

(** An upstream with that entry, no sprint, and qualifying results. *)
Definition up_practice_dated : upstream :=
  mkupstream 2024 [[("season", JStr "2021")]] [] [] []
             (fun _ => [race_practice_dated]) (fun _ _ => [[]]) (fun _ _ => [])
             (fun _ => []).

(** An upstream with that one entry in every season, no sprint, and the
    given qualifying results. *)
Definition up_undated (qualifying : list dict) : upstream :=
  mkupstream 2024 [[("season", JStr "2021")]] [] [] []
             (fun _ => [race_undated]) (fun _ _ => qualifying) (fun _ _ => [])
             (fun _ => []).

(** A circuit whose latitude is not a number. *)
Definition circuit_bad_lat : dict :=
  [("circuitId", JStr "sakhir"); ("circuitName", JStr "Sakhir");
   ("Location", JObj [("lat", JStr "abc"); ("long", JStr "50.5106")])].

(** A driver whose permanent number is not a number. *)
Definition driver_bad_number : dict :=
  [("driverId", JStr "doe"); ("givenName", JStr "John");
   ("familyName", JStr "Doe"); ("permanentNumber", JStr "abc")].

(** A race whose embedded circuit has that latitude. *)
Definition race_bad_lat : dict :=
  [("round", JStr "1"); ("raceName", JStr "Sakhir Grand Prix");
   ("Circuit", JObj circuit_bad_lat)].

Definition up_bad_numbers : upstream :=
  mkupstream 2024 [[("season", JStr "2021")]] [circuit_bad_lat]
             [driver_bad_number] [] (fun _ => [race_bad_lat]) (fun _ _ => [])
             (fun _ _ => []) (fun _ => []).

(** A store holding the 2021 season and nothing else. *)
Definition db_2021 : db :=
  mkdb [mkrow 1 (SeasonCreate.mk 2021 None)] [] [] [] [] [] [].

(** A store holding the 2021 season, one circuit and the first round of
    2021, with no session yet. *)
Definition db_round : db :=
  mkdb [mkrow 1 (SeasonCreate.mk 2021 None)]
       [mkrow 1 (CircuitCreate.mk (Some "bahrain") "Bahrain International Circuit"
                                  None None None None None None None)]
       [] []
       [mkrow 1 (RoundCreate.mk (Some "2021-1") "Bahrain Grand Prix" 1 None None
                                None 1 1)]
       [] [].

(** The season list of the fixture: 2015 to 2022. *)
Definition seasons_2015_2022 : list dict :=
  map (fun y => [("season", JStr y);
                 ("url", JStr "https://en.wikipedia.org/wiki/Formula_One")])
      ["2015"; "2016"; "2017"; "2018"; "2019"; "2020"; "2021"; "2022"].

Definition up_2015_2022 : upstream :=
  mkupstream 2024 seasons_2015_2022 [] [] [] (fun _ => []) (fun _ _ => [])
             (fun _ _ => []) (fun _ => []).

(** A lookup that finds a row. *)
Definition found {A} (f : A -> bool) (t : list A) : Prop := find f t <> None.

(** The record of a season is settled in [d]: its year reads, and is out
    of range or held by the store. *)
Definition done_season (start_year end_year : Z) (s : dict) (d : db) : Prop :=
  exists y, (let? v := dict_index "season" s in py_int v) = Ok y /\
            (((y <? start_year) || (y >? end_year)) = true \/
             found (fun r => SeasonCreate.year (fields r) =? y) (seasons d)).

Definition done_circuit (c : dict) (d : db) : Prop :=
  exists reference,
    (let? v := dict_index "circuitId" c in bind_param v) = Ok reference /\
    found (fun r => ref_eqb reference (CircuitCreate.reference (fields r)))
          (circuits d).

Definition done_driver (c : dict) (d : db) : Prop :=
  exists reference,
    (let? v := dict_index "driverId" c in bind_param v) = Ok reference /\
    found (fun r => ref_eqb reference (DriverCreate.reference (fields r)))
          (drivers d).

Definition done_team (c : dict) (d : db) : Prop :=
  exists reference,
    (let? v := dict_index "constructorId" c in bind_param v) = Ok reference /\
    found (fun r => ref_eqb reference (TeamCreate.reference (fields r)))
          (teams d).

Definition done_round (season_year : Z) (race_data : dict) (d : db) : Prop :=
  exists circuit_data reference round,
    dict_get "Circuit" race_data = Some circuit_data /\
    (let? v := json_index "circuitId" circuit_data in bind_param v) = Ok reference /\
    found (fun r => ref_eqb reference (CircuitCreate.reference (fields r)))
          (circuits d) /\
    dict_get "round" race_data = Some round /\
    found (fun r => ref_eqb (str_of_int season_year ++ "-" ++ py_str round)%string
                            (RoundCreate.reference (fields r)))
          (rounds d).

(** An upstream with one record of every natural-key kind. *)
Definition up_full : upstream :=
  mkupstream 2024 seasons_2015_2022
    [[("circuitId", JStr "bahrain");
      ("circuitName", JStr "Bahrain International Circuit");
      ("Location", JObj [("lat", JStr "26.0325"); ("long", JStr "50.5106")])]]
    [[("driverId", JStr "hamilton"); ("givenName", JStr "Lewis");
      ("familyName", JStr "Hamilton"); ("permanentNumber", JStr "44");
      ("dateOfBirth", JStr "1985-01-07")]]
    [[("constructorId", JStr "mercedes"); ("name", JStr "Mercedes")]]
    (fun _ => [race_undated]) (fun _ _ => [[]]) (fun _ _ => [])
    (fun _ => [(JStr "hamilton", JStr "mercedes")]).

(** The same upstream with the races as Ergast serves them, dated. *)
Definition up_dated : upstream :=
  mkupstream 2024 seasons_2015_2022 (fetch_circuits up_full)
    (fetch_drivers up_full) (fetch_constructors up_full)
    (fun _ => [race_bahrain]) (fun _ _ => [[]]) (fun _ _ => [])
    (fun _ => [(JStr "hamilton", JStr "mercedes")]).

(** ** Guarded inserts: the vocabulary of the store invariants *)

Definition with_seasons (t : table SeasonCreate.t) (d : db) : db :=
  mkdb t (circuits d) (drivers d) (teams d) (rounds d) (sessions d) (team_drivers d).
Definition with_circuits (t : table CircuitCreate.t) (d : db) : db :=
  mkdb (seasons d) t (drivers d) (teams d) (rounds d) (sessions d) (team_drivers d).
Definition with_drivers (t : table DriverCreate.t) (d : db) : db :=
  mkdb (seasons d) (circuits d) t (teams d) (rounds d) (sessions d) (team_drivers d).
Definition with_teams (t : table TeamCreate.t) (d : db) : db :=
  mkdb (seasons d) (circuits d) (drivers d) t (rounds d) (sessions d) (team_drivers d).
Definition with_rounds (t : table RoundCreate.t) (d : db) : db :=
  mkdb (seasons d) (circuits d) (drivers d) (teams d) t (sessions d) (team_drivers d).
Definition with_sessions (t : table SessionCreate.t) (d : db) : db :=
  mkdb (seasons d) (circuits d) (drivers d) (teams d) (rounds d) t (team_drivers d).
Definition with_team_drivers (t : table TeamDriverCreate.t) (d : db) : db :=
  mkdb (seasons d) (circuits d) (drivers d) (teams d) (rounds d) (sessions d) t.

(** The surrogate keys of a table. *)
Definition ids {A} (t : table A) : list Z := map id t.

(** The values of a nullable unique column: NULLs do not take part in a
    unique constraint. *)
Definition refs (col : list (option string)) : list string :=
  flat_map (fun o => match o with Some s => [s] | None => [] end) col.

Definition circuit_refs (d : db) : list string :=
  refs (map (fun r => CircuitCreate.reference (fields r)) (circuits d)).
Definition driver_refs (d : db) : list string :=
  refs (map (fun r => DriverCreate.reference (fields r)) (drivers d)).
Definition team_refs (d : db) : list string :=
  refs (map (fun r => TeamCreate.reference (fields r)) (teams d)).
Definition round_refs (d : db) : list string :=
  refs (map (fun r => RoundCreate.reference (fields r)) (rounds d)).

(** The composite key of a team-driver pairing. *)
Definition team_driver_key (t : TeamDriverCreate.t) : Z * Z * Z :=
  (TeamDriverCreate.team_id t, TeamDriverCreate.driver_id t,
   TeamDriverCreate.season_year t).
Definition team_driver_keys (d : db) : list (Z * Z * Z) :=
  map (fun r => team_driver_key (fields r)) (team_drivers d).

(** One insert as the import routines make them: the row gets the next
    key of its table, its natural key is not in the table yet, and the rows
    its foreign keys name are in the store. *)
Inductive step : db -> db -> Prop :=
| step_season d s :
    ~ In (SeasonCreate.year s) (season_years (seasons d)) ->
    step d (with_seasons (seasons d ++ [mkrow (next_id (seasons d)) s]) d)
| step_circuit d c reference :
    CircuitCreate.reference c = Some reference ->
    ~ In reference (circuit_refs d) ->
    step d (with_circuits (circuits d ++ [mkrow (next_id (circuits d)) c]) d)
| step_driver d c reference :
    DriverCreate.reference c = Some reference ->
    ~ In reference (driver_refs d) ->
    step d (with_drivers (drivers d ++ [mkrow (next_id (drivers d)) c]) d)
| step_team d c reference :
    TeamCreate.reference c = Some reference ->
    ~ In reference (team_refs d) ->
    step d (with_teams (teams d ++ [mkrow (next_id (teams d)) c]) d)
| step_round d r reference :
    RoundCreate.reference r = Some reference ->
    ~ In reference (round_refs d) ->
    In (RoundCreate.season_id r) (ids (seasons d)) ->
    In (RoundCreate.circuit_id r) (ids (circuits d)) ->
    step d (with_rounds (rounds d ++ [mkrow (next_id (rounds d)) r]) d)
| step_session d s :
    In (SessionCreate.round_id s) (ids (rounds d)) ->
    step d (with_sessions (sessions d ++ [mkrow (next_id (sessions d)) s]) d)
| step_team_driver d t :
    ~ In (team_driver_key t) (team_driver_keys d) ->
    In (TeamDriverCreate.team_id t) (ids (teams d)) ->
    In (TeamDriverCreate.driver_id t) (ids (drivers d)) ->
    step d (with_team_drivers
              (team_drivers d ++ [mkrow (next_id (team_drivers d)) t]) d).

(** A run of guarded inserts. *)
Inductive steps : db -> db -> Prop :=
| steps_refl d : steps d d
| steps_step a b c : steps a b -> step b c -> steps a c.

(** Natural keys are unique: what the unique constraints of [models.py]
    demand of year and reference, and the pairing key the import checks. *)
Definition natural_keys_unique (d : db) : Prop :=
  NoDup (season_years (seasons d)) /\ NoDup (circuit_refs d) /\
  NoDup (driver_refs d) /\ NoDup (team_refs d) /\ NoDup (round_refs d) /\
  NoDup (team_driver_keys d).

(** Every foreign key names a row of the store. *)
Definition foreign_keys_resolve (d : db) : Prop :=
  (forall r, In r (rounds d) ->
             In (RoundCreate.season_id (fields r)) (ids (seasons d)) /\
             In (RoundCreate.circuit_id (fields r)) (ids (circuits d))) /\
  (forall s, In s (sessions d) ->
             In (SessionCreate.round_id (fields s)) (ids (rounds d))) /\
  (forall t, In t (team_drivers d) ->
             In (TeamDriverCreate.team_id (fields t)) (ids (teams d)) /\
             In (TeamDriverCreate.driver_id (fields t)) (ids (drivers d))).

(** The store [d'] is what a run of one of the import routines leaves when
    started on [d], whether the run returns or raises.  Session import
    takes the key of its round from its caller: the runs counted here are
    those where that round is in the store. *)
Inductive import_run (up : upstream) : db -> db -> Prop :=
| run_seasons start_year end_year d :
    import_run up d (fst (import_seasons up start_year end_year d))
| run_circuits d : import_run up d (fst (import_circuits up d))
| run_drivers d : import_run up d (fst (import_drivers up d))
| run_teams d : import_run up d (fst (import_teams up d))
| run_rounds season_year d :
    import_run up d (fst (import_rounds_for_season up season_year d))
| run_sessions season_year round_num round_id d :
    In round_id (ids (rounds d)) ->
    import_run up d (fst (import_sessions_for_round up season_year round_num
                                                    round_id d))
| run_team_drivers season_year d :
    import_run up d (fst (import_team_drivers_for_season up season_year d))
| run_all start_year end_year d :
    import_run up d (fst (import_all_f1_data up start_year end_year d)).

(** The store [d'] is [d] after rounds, sessions and pairings were
    imported: the seasons, drivers and teams are the same, the other tables
    have grown. *)
Definition later (d d' : db) : Prop :=
  seasons d' = seasons d /\ drivers d' = drivers d /\ teams d' = teams d /\
  extends d d'.

(** The pairing of a driver and a team is settled in [d]: both references
    bind, and the driver or the team is missing or the pairing is held. *)
Definition done_team_driver (season_year : Z) (p : json * json) (d : db) : Prop :=
  exists dr tr,
    bind_param (fst p) = Ok dr /\ bind_param (snd p) = Ok tr /\
    match find (fun r => ref_eqb dr (DriverCreate.reference (fields r))) (drivers d),
          find (fun r => ref_eqb tr (TeamCreate.reference (fields r))) (teams d)
    with
    | Some driver, Some team =>
        found (fun r => (TeamDriverCreate.team_id (fields r) =? id team)
                        && (TeamDriverCreate.driver_id (fields r) =? id driver)
                        && (TeamDriverCreate.season_year (fields r) =? season_year))
              (team_drivers d)
    | _, _ => True
    end.

(** The rounds of a year are settled in [d]: the season is missing, or
    every race of the year is settled. *)
Definition rounds_done (up : upstream) (season_year : Z) (d : db) : Prop :=
  match find (fun r => SeasonCreate.year (fields r) =? season_year) (seasons d) with
  | None => True
  | Some _ => Forall (fun race => done_round season_year race d)
                     (fetch_races up season_year)
  end.

(** The pairings of a year are settled in [d]. *)
Definition pairs_done (up : upstream) (season_year : Z) (d : db) : Prop :=
  Forall (fun p => done_team_driver season_year p d)
         (fetch_driver_constructor_by_season up season_year).

(** The counts of a run that created nothing. *)
Definition no_counts : counts := mkcounts 0 0 0 0 0 0.

(** The number of rows of a table. *)
Definition size {A} (t : table A) : Z := Z.of_nat (List.length t).

(** [f] reads in [d'] what it reads in [d]. *)
Definition same {A} (f : db -> A) (d d' : db) : Prop := f d' = f d.

(** What a loop body adds to its count. *)
Definition counted (created : bool) : Z := if created then 1 else 0.

(** The run from [d] to [d'] kept every row and gave no session to a round
    that [d] already held. *)
Definition round_safe (d d' : db) : Prop :=
  extends d d' /\
  forall round_id, In round_id (ids (rounds d)) ->
    get_sessions_by_round round_id d' = get_sessions_by_round round_id d.





(** The round row [r] is the round of one race of the year's list: it
    carries the reference and the number of the race, which gives no date
    that parses, and no date itself; it belongs to [season] and points to
    the circuit of [d] that the race names. *)
Definition round_of_race (up : upstream) (season_year : Z)
  (season : row SeasonCreate.t) (d : db) (r : row RoundCreate.t) : Prop :=
  exists race round cdata cref c,
    In race (fetch_races up season_year) /\
    dict_index "round" race = Ok round /\
    dict_index "Circuit" race = Ok cdata /\
    (let? v := json_index "circuitId" cdata in bind_param v) = Ok cref /\
    find (fun x => ref_eqb cref (CircuitCreate.reference (fields x))) (circuits d)
    = Some c /\
    RoundCreate.reference (fields r)
    = Some (str_of_int season_year ++ "-" ++ py_str round)%string /\
    py_int round = Ok (RoundCreate.round_number (fields r)) /\
    parse_date (dict_get "date" race) = Ok None /\
    RoundCreate.date (fields r) = None /\
    RoundCreate.season_id (fields r) = id season /\
    RoundCreate.circuit_id (fields r) = id c.

(** A run from [d] to [d'] that kept every row and created only rounds of
    the races of the year. *)
Definition links_rounds (up : upstream) (season_year : Z)
  (season : row SeasonCreate.t) (d d' : db) : Prop :=
  extends d d' /\
  Forall (round_of_race up season_year season d') (created (rounds d) (rounds d')).

(** The pairing row [t] links the driver and the team of [d] that one pair
    of the year's list names, for that year. *)
Definition pairing_of (up : upstream) (season_year : Z) (d : db)
  (t : row TeamDriverCreate.t) : Prop :=
  exists p dr tr driver team,
    In p (fetch_driver_constructor_by_season up season_year) /\
    bind_param (fst p) = Ok dr /\ bind_param (snd p) = Ok tr /\
    find (fun r => ref_eqb dr (DriverCreate.reference (fields r))) (drivers d)
    = Some driver /\
    find (fun r => ref_eqb tr (TeamCreate.reference (fields r))) (teams d)
    = Some team /\
    fields t = TeamDriverCreate.mk (id team) (id driver) season_year.

(** A run from [d] to [d'] that left seasons, drivers and teams alone and
    created only pairings of the year's list. *)
Definition links_pairs (up : upstream) (season_year : Z) (d d' : db) : Prop :=
  later d d' /\
  Forall (pairing_of up season_year d')
         (created (team_drivers d) (team_drivers d')).

(** The references the records of a list carry under [key], where they
    bind as a query parameter. *)
Fixpoint upstream_refs (key : string) (l : list dict) : list string :=
  match l with
  | [] => []
  | x :: r =>
      match (let? v := dict_index key x in bind_param v) with
      | Ok k => k :: upstream_refs key r
      | Raise _ => upstream_refs key r
      end
  end.

(** The rows [new] are one row for each reference of [l] that is not among
    [held], each carrying its reference in the column [col]. *)
Definition one_row_per_reference {A} (col : A -> option string)
  (held l : list string) (new : table A) : Prop :=
  exists ks,
    map (fun r => col (fields r)) new = map Some ks /\ NoDup ks /\
    forall k, In k ks <-> In k l /\ ~ In k held.

(** A computation that has counted [c] sessions and returns [c] plus the
    number of sessions it adds. *)
Definition tallies (c : Z) (m : M Z) : Prop :=
  forall d d' n,
    m d = (d', Ok n) -> size (sessions d') - size (sessions d) = n - c.

(** Every fetcher the import reads its records from returns the empty
    list, as the fetchers of [f1_api.py] do when a request fails. *)
Definition upstream_silent (up : upstream) : Prop :=
  fetch_seasons up = [] /\ fetch_circuits up = [] /\ fetch_drivers up = [] /\
  fetch_constructors up = [] /\ (forall y, fetch_races up y = []) /\
  (forall y, fetch_driver_constructor_by_season up y = []).

(** ** The fetchers ([f1_api.py]), from the reply of the API

    The extraction each fetcher runs on the document [fetch_data] hands it.
    A document is any JSON value: the subscripts, the membership test and
    the loops below behave as Python's do on each kind of value. *)

Module Api.

Inductive value : Type :=
| VNull
| VBool (b : bool)
| VNum (n : Z)
| VStr (s : string)
| VArr (l : list value)
| VObj (items : list (string * value)).

Inductive error : Type := KeyError | IndexError | TypeError | AttributeError.

Inductive outcome (A : Type) : Type :=
| Return (a : A)
| Throw (e : error).
Arguments Return {A} a.
Arguments Throw {A} e.

Definition and_then {A B} (m : outcome A) (k : A -> outcome B) : outcome B :=
  match m with
  | Return a => k a
  | Throw e => Throw e
  end.

Notation "'let!' x ':=' m 'in' k" := (and_then m (fun x => k))
  (at level 10, x name, m at level 100, k at level 200).

(** The value a dict holds for a key. *)
Fixpoint lookup (k : string) (items : list (string * value)) : option value :=
  match items with
  | [] => None
  | (k', v) :: r => if String.eqb k k' then Some v else lookup k r
  end.

(** [v[k]] for a string [k]: only a dict takes a string subscript. *)
Definition getitem (v : value) (k : string) : outcome value :=
  match v with
  | VObj items =>
      match lookup k items with
      | Some x => Return x
      | None => Throw KeyError
      end
  | _ => Throw TypeError
  end.

(** [v[0]]: the first element of a list, the first character of a string;
    a dict of string keys has no key [0]. *)
Definition getitem0 (v : value) : outcome value :=
  match v with
  | VArr [] => Throw IndexError
  | VArr (x :: _) => Return x
  | VStr EmptyString => Throw IndexError
  | VStr (String c _) => Return (VStr (String c EmptyString))
  | VObj _ => Throw KeyError
  | _ => Throw TypeError
  end.

(** [k in v] for a string [k]: a key of a dict, an element of a list, a
    substring of a string. *)
Definition contains (k : string) (v : value) : outcome bool :=
  match v with
  | VObj items =>
      Return (match lookup k items with Some _ => true | None => false end)
  | VArr l =>
      Return (existsb (fun x => match x with
                                | VStr s => String.eqb s k
                                | _ => false
                                end) l)
  | VStr s =>
      Return (match String.index 0 k s with Some _ => true | None => false end)
  | _ => Throw TypeError
  end.

(** [v.get(k, default)]: a method of dicts only. *)
Definition get_default (v : value) (k : string) (default : value)
  : outcome value :=
  match v with
  | VObj items =>
      Return (match lookup k items with Some x => x | None => default end)
  | _ => Throw AttributeError
  end.

(** Python truthiness. *)
Definition truthy (v : value) : bool :=
  match v with
  | VNull => false
  | VBool b => b
  | VNum n => negb (n =? 0)
  | VStr s => negb (String.eqb s "")
  | VArr l => match l with [] => false | _ :: _ => true end
  | VObj items => match items with [] => false | _ :: _ => true end
  end.

(** The values a [for] loop over [v] visits: the elements of a list, the
    keys of a dict, the characters of a string. *)
Definition iterate (v : value) : outcome (list value) :=
  match v with
  | VArr l => Return l
  | VObj items => Return (map (fun kv => VStr (fst kv)) items)
  | VStr s =>
      Return (map (fun c => VStr (String c EmptyString)) (list_ascii_of_string s))
  | _ => Throw TypeError
  end.

(** [try: ... except KeyError: return []]. *)
Definition except_key (m : outcome value) : outcome value :=
  match m with
  | Throw KeyError => Return (VArr [])
  | r => r
  end.

(** [try: ... except (KeyError, IndexError): return []]. *)
Definition except_key_index (m : outcome value) : outcome value :=
  match m with
  | Throw KeyError | Throw IndexError => Return (VArr [])
  | r => r
  end.

(** What the API answered to a request: no answer (the request or the
    decoding of the body raised, with its message), or a status and a
    decoded body. *)
Inductive reply : Type :=
| Failed (message : string)
| Answered (status : Z) (body : value).

Definition fetch_data (r : reply) : value :=
  match r with
  | Failed message => VObj [("error", VStr message)]
  | Answered status body =>
      if negb (status =? 200)
      then VObj [("error", VStr ("HTTP error " ++ str_of_int status))]
      else body
  end.

(** The fetchers that return the list under [data["MRData"][table][name]]. *)
Definition fetch_table (table name : string) (r : reply) : outcome value :=
  let data := fetch_data r in
  let! err := contains "error" data in
  if err then Return (VArr [])
  else except_key
         (let! a := getitem data "MRData" in
          let! b := getitem a table in
          getitem b name).

Definition fetch_seasons : reply -> outcome value :=
  fetch_table "SeasonTable" "Seasons".
Definition fetch_drivers : reply -> outcome value :=
  fetch_table "DriverTable" "Drivers".
Definition fetch_constructors : reply -> outcome value :=
  fetch_table "ConstructorTable" "Constructors".
Definition fetch_circuits : reply -> outcome value :=
  fetch_table "CircuitTable" "Circuits".
Definition fetch_races : reply -> outcome value :=
  fetch_table "RaceTable" "Races".

(** The fetchers that return [data["MRData"]["RaceTable"]["Races"][0][name]]. *)
Definition fetch_first_race (name : string) (r : reply) : outcome value :=
  let data := fetch_data r in
  let! err := contains "error" data in
  if err then Return (VArr [])
  else except_key_index
         (let! a := getitem data "MRData" in
          let! b := getitem a "RaceTable" in
          let! c := getitem b "Races" in
          let! d := getitem0 c in
          getitem d name).

Definition fetch_race_results : reply -> outcome value :=
  fetch_first_race "Results".
Definition fetch_qualifying_results : reply -> outcome value :=
  fetch_first_race "QualifyingResults".

Definition fetch_sprint_results (r : reply) : outcome value :=
  let data := fetch_data r in
  let! err := contains "error" data in
  if err then Return (VArr [])
  else except_key_index
         (let! a := getitem data "MRData" in
          let! b := getitem a "RaceTable" in
          let! races := get_default b "Races" (VArr []) in
          if negb (truthy races) then Return (VArr [])
          else
            let! d := getitem0 races in
            getitem d "SprintResults").

(** The fetchers that return
    [data["MRData"]["StandingsTable"]["StandingsLists"][0][name]]; the round
    number they take only changes the address of the request. *)
Definition fetch_standings (name : string) (r : reply) : outcome value :=
  let data := fetch_data r in
  let! err := contains "error" data in
  if err then Return (VArr [])
  else except_key_index
         (let! a := getitem data "MRData" in
          let! b := getitem a "StandingsTable" in
          let! c := getitem b "StandingsLists" in
          let! d := getitem0 c in
          getitem d name).

Definition fetch_driver_standings : reply -> outcome value :=
  fetch_standings "DriverStandings".
Definition fetch_constructor_standings : reply -> outcome value :=
  fetch_standings "ConstructorStandings".

(** The inner loop of [fetch_driver_constructor_by_season]: one dict is
    appended to [team_drivers] for each constructor. *)
Fixpoint each_constructor (driver_id : value) (season : Z)
  (constructors team_drivers : list value) : outcome (list value) :=
  match constructors with
  | [] => Return team_drivers
  | constructor :: rest =>
      let! constructor_id := getitem constructor "constructorId" in
      each_constructor driver_id season rest
        (team_drivers ++ [VObj [("driverId", driver_id);
                                ("constructorId", constructor_id);
                                ("season", VNum season)]])
  end.

(** The outer loop, over the driver standings. *)
Fixpoint each_standing (season : Z) (driver_standings team_drivers : list value)
  : outcome (list value) :=
  match driver_standings with
  | [] => Return team_drivers
  | driver_standing :: rest =>
      let! driver := getitem driver_standing "Driver" in
      let! driver_id := getitem driver "driverId" in
      let! constructors := getitem driver_standing "Constructors" in
      let! constructors := iterate constructors in
      let! team_drivers :=
        each_constructor driver_id season constructors team_drivers in
      each_standing season rest team_drivers
  end.

(** [data["MRData"]["StandingsTable"]["StandingsLists"][0]["DriverStandings"]]. *)
Definition driver_standings_of (data : value) : outcome value :=
  let! a := getitem data "MRData" in
  let! b := getitem a "StandingsTable" in
  let! c := getitem b "StandingsLists" in
  let! d := getitem0 c in
  getitem d "DriverStandings".

Definition fetch_driver_constructor_by_season (season : Z) (r : reply)
  : outcome value :=
  let data := fetch_data r in
  let! err := contains "error" data in
  if err then Return (VArr [])
  else except_key_index
         (let! driver_standings := driver_standings_of data in
          let! driver_standings := iterate driver_standings in
          let! team_drivers := each_standing season driver_standings [] in
          Return (VArr team_drivers)).

(** [f] applied to each value of a list in turn, up to the first exception. *)
Fixpoint collect {B} (f : value -> outcome B) (l : list value)
  : outcome (list B) :=
  match l with
  | [] => Return []
  | x :: r =>
      let! y := f x in
      let! ys := collect f r in
      Return (y :: ys)
  end.

(** The dict of one pairing. *)
Definition pairing (driver_id : value) (season : Z) (constructor_id : value)
  : value :=
  VObj [("driverId", driver_id); ("constructorId", constructor_id);
        ("season", VNum season)].

(** The pairings of one driver standing: the driver with each of the
    constructors, in order. *)
Definition standing_pairs (season : Z) (driver_standing : value)
  : outcome (list value) :=
  let! driver := getitem driver_standing "Driver" in
  let! driver_id := getitem driver "driverId" in
  let! constructors := getitem driver_standing "Constructors" in
  let! constructors := iterate constructors in
  let! ids := collect (fun c => getitem c "constructorId") constructors in
  Return (map (pairing driver_id season) ids).

(** A request that got no usable answer. *)
Definition request_failed (r : reply) : Prop :=
  match r with
  | Failed _ => True
  | Answered status _ => status <> 200
  end.

End Api.

(** The exceptions a computation of the fetchers can raise are among [S]. *)
Definition throws_in {A} (S : Api.error -> Prop) (m : Api.outcome A) : Prop :=
  forall e, m = Api.Throw e -> S e.

Definition key_or_type (e : Api.error) : Prop :=
  e = Api.KeyError \/ e = Api.TypeError.

(** The exceptions of a subscript chain that goes through a list. *)
Definition index_errors (e : Api.error) : Prop :=
  e = Api.KeyError \/ e = Api.IndexError \/ e = Api.TypeError.

(** The exceptions of a subscript chain that also calls [.get]. *)
Definition lookup_errors (e : Api.error) : Prop :=
  index_errors e \/ e = Api.AttributeError.

Definition not_caught (e : Api.error) : Prop :=
  e = Api.TypeError \/ e = Api.AttributeError.

(** * Properties *)

(** ** Relations every step of a run keeps *)

Section Keeps.
Variable R : db -> db -> Prop.
Hypothesis R_refl : forall d, R d d.
Hypothesis R_trans : forall a b c, R a b -> R b c -> R a c.

Lemma keeps_ret {A} (a : A) : keeps R (ret a).
Proof. intro d. apply R_refl. Qed.

Lemma keeps_lift {A} (r : result A) : keeps R (lift r).
Proof. intro d. apply R_refl. Qed.

Lemma keeps_bind {A B} (m : M A) (k : A -> M B) :
  keeps R m -> (forall a, keeps R (k a)) -> keeps R (bind m k).
Proof.
  intros Hm Hk d. unfold bind. specialize (Hm d).
  destruct (m d) as [d' [a | e]]; simpl in *.
  - eapply R_trans; [exact Hm | apply Hk].
  - exact Hm.
Qed.

Lemma keeps_for_each {X} (body : X -> M bool) (l : list X) :
  (forall x, keeps R (body x)) -> forall count, keeps R (for_each body l count).
Proof.
  intros Hbody. induction l as [| x r IH]; intro count; simpl.
  - apply keeps_ret.
  - apply keeps_bind; [apply Hbody | intro created; apply IH].
Qed.

Lemma keeps_read {A} (f : db -> A) : keeps R (fun d => (d, Ok (f d))).
Proof. intro d. apply R_refl. Qed.
End Keeps.

Lemma grows_refl {A} (l : list A) : grows l l.
Proof. exists []. now rewrite app_nil_r. Qed.

Lemma grows_trans {A} (a b c : list A) : grows a b -> grows b c -> grows a c.
Proof. intros [x ->] [y ->]. exists (x ++ y). now rewrite app_assoc. Qed.

Lemma grows_app {A} (l added : list A) : grows l (l ++ added).
Proof. now exists added. Qed.

Lemma extends_refl (d : db) : extends d d.
Proof. repeat split; apply grows_refl. Qed.

Lemma extends_trans (a b c : db) : extends a b -> extends b c -> extends a c.
Proof.
  unfold extends. intros (?&?&?&?&?&?&?) (?&?&?&?&?&?&?).
  repeat split; eapply grows_trans; eassumption.
Qed.

Lemma find_grows {A} (f : A -> bool) (l l' : list A) (x : A) :
  grows l l' -> find f l = Some x -> find f l' = Some x.
Proof.
  intros [added ->] H. induction l as [| a r IH]; simpl in *; [discriminate |].
  destruct (f a); [exact H | now apply IH].
Qed.

Lemma created_app {A} (t added : table A) : created t (t ++ added) = added.
Proof.
  unfold created. induction t as [| a r IH]; simpl; [reflexivity | exact IH].
Qed.

Ltac keeps_create :=
  intro d; unfold extends; cbn; repeat split;
  first [apply grows_refl | apply grows_app].

Lemma extends_create_season s : keeps extends (create_season s).
Proof. keeps_create. Qed.
Lemma extends_create_circuit s : keeps extends (create_circuit s).
Proof. keeps_create. Qed.
Lemma extends_create_driver s : keeps extends (create_driver s).
Proof. keeps_create. Qed.
Lemma extends_create_team s : keeps extends (create_team s).
Proof. keeps_create. Qed.
Lemma extends_create_round s : keeps extends (create_round s).
Proof. keeps_create. Qed.
Lemma extends_create_session s : keeps extends (create_session s).
Proof.
  intro d. unfold create_session.
  destruct (existsb _ _); [| apply extends_refl].
  unfold extends; cbn; repeat split; first [apply grows_refl | apply grows_app].
Qed.
Lemma extends_create_team_driver s : keeps extends (create_team_driver s).
Proof. keeps_create. Qed.

(** One step of a routine keeps [extends]: binds are split, reads and
    pure steps leave the store alone, creates append. *)
Ltac keeps_step :=
  first
    [ apply (keeps_ret extends extends_refl)
    | apply (keeps_lift extends extends_refl)
    | apply (keeps_read extends extends_refl)
    | apply extends_create_season | apply extends_create_circuit
    | apply extends_create_driver | apply extends_create_team
    | apply extends_create_round | apply extends_create_session
    | apply extends_create_team_driver
    | apply (keeps_bind extends extends_trans); [| intro]
    | match goal with
      | |- keeps _ (match ?x with _ => _ end) => destruct x
      | |- keeps _ (if ?x then _ else _) => destruct x
      end ].

Lemma extends_import_season sy ey s : keeps extends (import_season sy ey s).
Proof. unfold import_season, get_season_by_year. repeat keeps_step. Qed.

Lemma extends_import_circuit c : keeps extends (import_circuit c).
Proof. unfold import_circuit, get_circuit_by_reference. repeat keeps_step. Qed.

Lemma extends_import_driver c : keeps extends (import_driver c).
Proof. unfold import_driver, get_driver_by_reference. repeat keeps_step. Qed.

Lemma extends_import_team c : keeps extends (import_team c).
Proof. unfold import_team, get_team_by_reference. repeat keeps_step. Qed.

Lemma extends_import_sessions up y n i :
  keeps extends (import_sessions_for_round up y n i).
Proof. unfold import_sessions_for_round. repeat keeps_step. Qed.

Lemma extends_import_round up y s r : keeps extends (import_round up y s r).
Proof.
  unfold import_round, get_circuit_by_reference, get_round_by_reference.
  repeat first [apply extends_import_sessions | keeps_step].
Qed.

Lemma extends_import_team_driver y p : keeps extends (import_team_driver y p).
Proof.
  unfold import_team_driver, get_driver_by_reference, get_team_by_reference,
    query_team_driver.
  repeat keeps_step.
Qed.

Lemma extends_for_each {X} (body : X -> M bool) (l : list X) (count : Z) :
  (forall x, keeps extends (body x)) -> keeps extends (for_each body l count).
Proof.
  intro H. apply (keeps_for_each extends extends_refl extends_trans). exact H.
Qed.

Lemma extends_import_seasons up sy ey : keeps extends (import_seasons up sy ey).
Proof. apply extends_for_each. intro. apply extends_import_season. Qed.

Lemma extends_import_circuits up : keeps extends (import_circuits up).
Proof. apply extends_for_each. intro. apply extends_import_circuit. Qed.

Lemma extends_import_drivers up : keeps extends (import_drivers up).
Proof. apply extends_for_each. intro. apply extends_import_driver. Qed.

Lemma extends_import_teams up : keeps extends (import_teams up).
Proof. apply extends_for_each. intro. apply extends_import_team. Qed.

Lemma extends_import_rounds up y : keeps extends (import_rounds_for_season up y).
Proof.
  unfold import_rounds_for_season, get_season_by_year.
  repeat first [apply extends_for_each; intro; apply extends_import_round
               | keeps_step].
Qed.

Lemma extends_import_team_drivers up y :
  keeps extends (import_team_drivers_for_season up y).
Proof. apply extends_for_each. intro. apply extends_import_team_driver. Qed.

Lemma extends_import_years up years :
  forall r t, keeps extends (import_years up years r t).
Proof.
  induction years as [| y rest IH]; intros r t; simpl.
  - keeps_step.
  - repeat first [apply extends_import_rounds | apply extends_import_team_drivers
                 | apply IH | keeps_step].
Qed.

Lemma extends_import_all up sy ey : keeps extends (import_all_f1_data up sy ey).
Proof.
  unfold import_all_f1_data.
  repeat first [apply extends_import_seasons | apply extends_import_circuits
               | apply extends_import_drivers | apply extends_import_teams
               | apply extends_import_years | keeps_step].
Qed.

(** C6. No import routine modifies or deletes a persisted row: whatever a
    routine is given and whether it returns or raises, every table of the
    store it leaves is the table it found with rows added after it. *)
Theorem import_is_additive_only :
  forall (up : upstream) (d : db),
    (forall start_year end_year,
        extends d (fst (import_seasons up start_year end_year d))) /\
    extends d (fst (import_circuits up d)) /\
    extends d (fst (import_drivers up d)) /\
    extends d (fst (import_teams up d)) /\
    (forall season_year,
        extends d (fst (import_rounds_for_season up season_year d))) /\
    (forall season_year round_num round_id,
        extends d (fst (import_sessions_for_round up season_year round_num
                                                  round_id d))) /\
    (forall season_year,
        extends d (fst (import_team_drivers_for_season up season_year d))) /\
    (forall start_year end_year,
        extends d (fst (import_all_f1_data up start_year end_year d))).
Proof.
  intros up d.
  split; [intros; apply extends_import_seasons |].
  split; [apply extends_import_circuits |].
  split; [apply extends_import_drivers |].
  split; [apply extends_import_teams |].
  split; [intros; apply extends_import_rounds |].
  split; [intros; apply extends_import_sessions |].
  split; [intros; apply extends_import_team_drivers |].
  intros; apply extends_import_all.
Qed.

(** ** Session import commits the same sessions from every store that
    holds the round *)

Lemma add_sessions_app (l1 l2 : list SessionCreate.t) (d : db) :
  add_sessions (l1 ++ l2) d = add_sessions l2 (add_sessions l1 d).
Proof. revert d. induction l1 as [| s r IH]; intro d; simpl; [reflexivity | apply IH]. Qed.

Lemma add_sessions_spec (l : list SessionCreate.t) (d : db) :
  exists rows,
    sessions (add_sessions l d) = sessions d ++ rows /\ map fields rows = l /\
    seasons (add_sessions l d) = seasons d /\
    circuits (add_sessions l d) = circuits d /\
    drivers (add_sessions l d) = drivers d /\
    teams (add_sessions l d) = teams d /\
    rounds (add_sessions l d) = rounds d /\
    team_drivers (add_sessions l d) = team_drivers d.
Proof.
  revert d. induction l as [| s r IH]; intro d.
  - exists []. simpl. rewrite app_nil_r. repeat split.
  - destruct (IH (add_session s d)) as (rows & Hs & Hf & H1 & H2 & H3 & H4 & H5 & H6).
    exists (mkrow (next_id (sessions d)) s :: rows).
    change (add_sessions (s :: r) d) with (add_sessions r (add_session s d)).
    rewrite Hs, H1, H2, H3, H4, H5, H6. cbn. rewrite <- app_assoc. cbn.
    rewrite Hf. repeat split.
Qed.

Lemma add_sessions_rounds (l : list SessionCreate.t) (d : db) :
  rounds (add_sessions l d) = rounds d.
Proof. destruct (add_sessions_spec l d) as (rows & H). tauto. Qed.

Lemma round_stored_iff round_id (d : db) :
  existsb (Z.eqb round_id) (map id (rounds d)) = true <->
  In round_id (map id (rounds d)).
Proof.
  rewrite existsb_exists. split.
  - intros (x & Hin & Hx). apply Z.eqb_eq in Hx. now subst.
  - intro H. exists round_id. split; [exact H | apply Z.eqb_refl].
Qed.

(** The commit of a session whose round is stored. *)
Lemma create_session_stored s d :
  In (SessionCreate.round_id s) (map id (rounds d)) ->
  create_session s d = (add_session s d, Ok (mkrow (next_id (sessions d)) s)).
Proof.
  intro H. apply round_stored_iff in H. unfold create_session. now rewrite H.
Qed.

(** The commit of a session whose round is not stored. *)
Lemma create_session_rejected s d :
  ~ In (SessionCreate.round_id s) (map id (rounds d)) ->
  create_session s d = (d, Raise IntegrityError).
Proof.
  intro H. unfold create_session.
  destruct (existsb _ _) eqn:E; [| reflexivity].
  apply round_stored_iff in E. contradiction.
Qed.

Lemma plans_ret round_id P {A} (a : A) : plans round_id P (ret a).
Proof.
  exists [], (Ok a). split; [| constructor].
  split; [constructor | intros d _; reflexivity].
Qed.

Lemma plans_bind round_id P {A B} (m : M A) (k : A -> M B) :
  plans round_id P m -> (forall a, plans round_id P (k a)) ->
  plans round_id P (bind m k).
Proof.
  intros (l1 & r1 & [Hr1 Hm] & H1) Hk. destruct r1 as [a | e].
  - destruct (Hk a) as (l2 & r2 & [Hr2 Hk2] & H2).
    exists (l1 ++ l2), r2. split; [| now apply Forall_app].
    split; [now apply Forall_app |].
    intros d Hd. unfold bind. rewrite (Hm d Hd), Hk2, add_sessions_app;
      [reflexivity | now rewrite add_sessions_rounds].
  - exists l1, (Raise e). split; [| exact H1]. split; [exact Hr1 |].
    intros d Hd. unfold bind. now rewrite (Hm d Hd).
Qed.

Lemma plans_lift_bind round_id P {A B} (x : result A) (k : A -> M B) :
  (forall a, x = Ok a -> plans round_id P (k a)) ->
  plans round_id P (bind (lift x) k).
Proof.
  intro Hk. destruct x as [a | e].
  - destruct (Hk a eq_refl) as (l & r & [Hr Hc] & Hl). exists l, r.
    split; [| exact Hl]. split; [exact Hr |].
    intros d Hd. unfold bind, lift. now apply Hc.
  - exists [], (Raise e). split; [| constructor].
    split; [constructor | intros d _; reflexivity].
Qed.

Lemma plans_create round_id P {B} (s : SessionCreate.t) (k : M B) :
  SessionCreate.round_id s = round_id -> P s -> plans round_id P k ->
  plans round_id P (bind (create_session s) (fun _ => k)).
Proof.
  intros Hid Hs (l & r & [Hr Hc] & Hl). exists (s :: l), r.
  split; [| now constructor]. split; [now constructor |].
  intros d Hd. unfold bind. rewrite create_session_stored; [| now rewrite Hid].
  cbn [add_sessions]. apply Hc. exact Hd.
Qed.

Lemma race_session_create_fields race_info round_id s :
  race_session_create race_info round_id = Ok s ->
  SessionCreate.session_type s = "race" /\
  SessionCreate.status s = Some "completed" /\
  SessionCreate.round_id s = round_id.
Proof.
  unfold race_session_create, bindR. intro H.
  destruct (parse_date _); [| discriminate].
  destruct (valid_date_field _); [| discriminate].
  destruct (valid_opt_str _); [| discriminate].
  injection H as <-. repeat split.
Qed.

Lemma nested_session_create_fields ty key dd race_info round_id s :
  nested_session_create ty key dd race_info round_id = Ok s ->
  SessionCreate.session_type s = ty /\
  SessionCreate.status s = Some "completed" /\
  SessionCreate.round_id s = round_id.
Proof.
  unfold nested_session_create, bindR. intro H.
  destruct (json_get "date" _); [| discriminate].
  destruct (parse_date _); [| discriminate].
  destruct (json_get "time" _); [| discriminate].
  destruct (valid_date_field _); [| discriminate].
  destruct (valid_opt_str _); [| discriminate].
  injection H as <-. repeat split.
Qed.

Ltac round_id_tac :=
  match goal with
  | H : race_session_create _ _ = Ok ?s |- SessionCreate.round_id ?s = _ =>
      exact (proj2 (proj2 (race_session_create_fields _ _ _ H)))
  | H : nested_session_create _ _ _ _ _ = Ok ?s
    |- SessionCreate.round_id ?s = _ =>
      exact (proj2 (proj2 (nested_session_create_fields _ _ _ _ _ _ H)))
  end.

Ltac plans_step :=
  first
    [ apply plans_ret
    | apply plans_lift_bind; intros ? ?
    | apply plans_create; [round_id_tac | |]
    | apply plans_bind; [| intro]
    | match goal with
      | |- plans _ _ (match ?x with _ => _ end) => destruct x eqn:?
      | |- plans _ _ (if ?x then _ else _) => destruct x eqn:?
      end ].

Ltac session_ok_tac :=
  match goal with
  | H : race_session_create _ _ = Ok _ |- session_ok _ _ _ =>
      destruct (race_session_create_fields _ _ _ H) as (Ht & Hs & Hr);
      unfold session_ok; rewrite Ht, Hs, Hr; repeat split
  | H : nested_session_create _ _ _ _ _ = Ok ?s |- session_ok _ _ ?s =>
      destruct (nested_session_create_fields _ _ _ _ _ _ H) as (Ht & Hs & Hr);
      unfold session_ok; rewrite Ht, Hs, Hr; repeat split;
      try reflexivity; intro; lia
  end.

Lemma import_sessions_plans up season_year round_num round_id :
  plans round_id (session_ok season_year round_id)
        (import_sessions_for_round up season_year round_num round_id).
Proof.
  unfold import_sessions_for_round.
  repeat first [session_ok_tac | plans_step].
Qed.

(** Without the round in the store, session import stores nothing: it
    returns 0 with no entry for the round, and raises otherwise, at the
    latest when the store rejects the race session. *)
Lemma import_sessions_rejected up season_year round_num round_id d :
  ~ In round_id (map id (rounds d)) ->
  fst (import_sessions_for_round up season_year round_num round_id d) = d.
Proof.
  intro Hno. unfold import_sessions_for_round, bind at 1, lift at 1.
  destruct (find_race round_num (fetch_races up season_year))
    as [[[| item rest] |] | e]; try reflexivity.
  unfold bind at 1, lift at 1.
  destruct (race_session_create (item :: rest) round_id) as [s | e] eqn:Hs;
    [| reflexivity].
  unfold bind at 1. rewrite create_session_rejected; [reflexivity |].
  now rewrite (proj2 (proj2 (race_session_create_fields _ _ _ Hs))).
Qed.

Lemma Forall_fields {A} (P : A -> Prop) (rows : table A) :
  Forall P (map fields rows) -> Forall (fun r => P (fields r)) rows.
Proof.
  induction rows as [| r rest IH]; simpl; intro H; [constructor |].
  inversion H; subst. constructor; [assumption | now apply IH].
Qed.

(** The sessions a run of [import_sessions_for_round] adds, whatever it
    returns or raises. *)
Lemma import_sessions_created up season_year round_num round_id d :
  exists rows,
    sessions (fst (import_sessions_for_round up season_year round_num round_id d))
    = sessions d ++ rows /\
    Forall (fun r => session_ok season_year round_id (fields r)) rows.
Proof.
  destruct (in_dec Z.eq_dec round_id (map id (rounds d))) as [Hin | Hno].
  - destruct (import_sessions_plans up season_year round_num round_id)
      as (l & r & [_ Hc] & Hl).
    rewrite (Hc d Hin). cbn [fst].
    destruct (add_sessions_spec l d) as (rows & Hs & Hf & _).
    exists rows. split; [exact Hs |].
    apply Forall_fields. rewrite Hf. exact Hl.
  - rewrite (import_sessions_rejected _ _ _ _ _ Hno).
    exists []. split; [now rewrite app_nil_r | constructor].
Qed.

(** C10. Every Session row [import_sessions_for_round] creates, of any
    kind and for any input, has the status "completed". *)
Theorem created_sessions_are_completed :
  forall (up : upstream) (season_year round_num round_id : Z) (d : db),
    let d' := fst (import_sessions_for_round up season_year round_num round_id d) in
    grows (sessions d) (sessions d') /\
    Forall (fun r => SessionCreate.status (fields r) = Some "completed")
           (created (sessions d) (sessions d')).
Proof.
  intros up season_year round_num round_id d d'. subst d'.
  destruct (import_sessions_created up season_year round_num round_id d)
    as (rows & Hs & Hok).
  rewrite Hs, created_app. split; [apply grows_app |].
  eapply Forall_impl; [| exact Hok]. intros r (H & _). exact H.
Qed.

Lemma filter_round_all round_id (rows : table SessionCreate.t) :
  Forall (fun s => SessionCreate.round_id s = round_id) (map fields rows) ->
  filter (fun r => SessionCreate.round_id (fields r) =? round_id) rows = rows.
Proof.
  induction rows as [| x xs IH]; intro H; [reflexivity |].
  cbn [map] in H. apply Forall_cons_iff in H as [Hx Hxs]. cbn [filter].
  rewrite Hx, Z.eqb_refl, IH; [reflexivity | exact Hxs].
Qed.

(** C5. Session import is not idempotent: when a first run of
    [import_sessions_for_round] has imported sessions for a round that held
    none, a second run on the same upstream data creates rows again, with
    the same columns as the rows of the first run, and the round, which
    held at least one session after the first run, holds twice as many
    after the second. *)
Theorem reimport_duplicates_sessions :
  forall (up : upstream) (season_year round_num round_id : Z) (d : db),
    let d1 := fst (import_sessions_for_round up season_year round_num round_id d) in
    let d2 := fst (import_sessions_for_round up season_year round_num round_id d1) in
    get_sessions_by_round round_id d = [] ->
    created (sessions d) (sessions d1) <> [] ->
    created (sessions d1) (sessions d2) <> [] /\
    map fields (created (sessions d1) (sessions d2))
    = map fields (created (sessions d) (sessions d1)) /\
    (1 <= List.length (get_sessions_by_round round_id d1))%nat /\
    List.length (get_sessions_by_round round_id d2)
    = (2 * List.length (get_sessions_by_round round_id d1))%nat.
Proof.
  intros up season_year round_num round_id d d1 d2 Hnone Hsome. subst d1 d2.
  destruct (in_dec Z.eq_dec round_id (map id (rounds d))) as [Hin | Hno].
  - destruct (import_sessions_plans up season_year round_num round_id)
      as (l & r & [Hr Hc] & Hl).
    revert Hsome. rewrite (Hc d Hin). cbn [fst].
    rewrite (Hc (add_sessions l d)) by (now rewrite add_sessions_rounds).
    cbn [fst].
    destruct (add_sessions_spec l d) as (rows1 & Hs1 & Hf1 & _).
    destruct (add_sessions_spec l (add_sessions l d)) as (rows2 & Hs2 & Hf2 & _).
    unfold get_sessions_by_round in *.
    rewrite Hs2, Hs1, !created_app, Hf1, Hf2. intro Hsome.
    rewrite !filter_app, Hnone.
    rewrite (filter_round_all round_id rows1) by (now rewrite Hf1).
    rewrite (filter_round_all round_id rows2) by (now rewrite Hf2).
    cbn [app]. rewrite length_app.
    assert (Hlen : List.length rows2 = List.length rows1)
      by (now rewrite <- (length_map fields rows1), <- (length_map fields rows2),
                      Hf1, Hf2).
    repeat split.
    + destruct rows2; [| discriminate]. destruct rows1; [congruence | discriminate].
    + destruct rows1; [congruence | cbn [List.length]; lia].
    + lia.
  - exfalso. apply Hsome.
    rewrite (import_sessions_rejected _ _ _ _ _ Hno).
    rewrite <- (app_nil_r (sessions d)) at 2. apply created_app.
Qed.

(** ** The race session *)

Lemma plans_after_lift_ok round_id s Q {A B} (a : A) (k : A -> M B) :
  plans_after round_id s Q (k a) ->
  plans_after round_id s Q (bind (lift (Ok a)) k).
Proof.
  intros (l & r & [Hr Hc] & Hl). exists l, r. split; [| exact Hl].
  split; [exact Hr |]. intros d Hd. unfold bind, lift. now apply Hc.
Qed.

Lemma plans_after_create round_id s Q {B} (k : M B) :
  SessionCreate.round_id s = round_id -> plans round_id Q k ->
  plans_after round_id s Q (bind (create_session s) (fun _ => k)).
Proof.
  intros Hid (l & r & [Hr Hc] & Hl). exists l, r. split; [| exact Hl].
  split; [now constructor |].
  intros d Hd. unfold bind. rewrite create_session_stored; [| now rewrite Hid].
  cbn [add_sessions]. now apply Hc.
Qed.

Lemma find_race_some round_num races race_info :
  find_race round_num races = Ok (Some race_info) ->
  exists v, dict_get "round" race_info = Some v /\ py_int v = Ok round_num.
Proof.
  induction races as [| race rest IH]; simpl; [discriminate |].
  unfold bindR, dict_index.
  destruct (dict_get "round" race) as [v |] eqn:Hv; [| discriminate].
  destruct (py_int v) as [n |] eqn:Hn; [| discriminate].
  destruct (n =? round_num) eqn:Hq; [| exact IH].
  intro H. injection H as <-. exists v. split; [exact Hv |].
  apply Z.eqb_eq in Hq. now subst.
Qed.

Ltac not_race_tac :=
  match goal with
  | H : nested_session_create _ _ _ _ _ = Ok ?s |- not_race ?s =>
      destruct (nested_session_create_fields _ _ _ _ _ _ H) as (Ht & _);
      unfold not_race; rewrite Ht; reflexivity
  end.

Lemma import_sessions_race_first up season_year round_num round_id race_info s :
  find_race round_num (fetch_races up season_year) = Ok (Some race_info) ->
  race_session_create race_info round_id = Ok s ->
  plans_after round_id s not_race
    (import_sessions_for_round up season_year round_num round_id).
Proof.
  intros Hfind Hrace. unfold import_sessions_for_round.
  destruct (find_race_some _ _ _ Hfind) as (v & Hv & _).
  rewrite Hfind. apply plans_after_lift_ok.
  destruct race_info as [| item rest]; [discriminate |].
  rewrite Hrace. apply plans_after_lift_ok. apply plans_after_create.
  - exact (proj2 (proj2 (race_session_create_fields _ _ _ Hrace))).
  - repeat first [not_race_tac | plans_step].
Qed.

Lemma sessions_of_race_none round_id (rows : table SessionCreate.t) :
  Forall not_race (map fields rows) -> sessions_of "race" round_id rows = [].
Proof.
  induction rows as [| r rest IH]; simpl; intro H; [reflexivity |].
  inversion H as [| ? ? Hr Hrest]; subst. unfold not_race in Hr.
  rewrite Hr. simpl. now apply IH.
Qed.

(** Without an entry for the round the routine returns 0 and leaves the
    store as it is. *)
Lemma import_sessions_without_entry up season_year round_num round_id d :
  find_race round_num (fetch_races up season_year) = Ok None ->
  import_sessions_for_round up season_year round_num round_id d = (d, Ok 0).
Proof.
  intro Hfind. unfold import_sessions_for_round. rewrite Hfind. reflexivity.
Qed.

(** With an entry whose date or time the session record rejects, the
    routine raises before it stores anything. *)
Lemma import_sessions_with_rejected_entry up season_year round_num round_id d
      race_info e :
  find_race round_num (fetch_races up season_year) = Ok (Some race_info) ->
  race_session_create race_info round_id = Raise e ->
  import_sessions_for_round up season_year round_num round_id d = (d, Raise e).
Proof.
  intros Hfind Hrace. unfold import_sessions_for_round.
  destruct (find_race_some _ _ _ Hfind) as (v & Hv & _).
  rewrite Hfind. destruct race_info as [| item rest]; [discriminate |].
  unfold bind at 1, lift at 1. unfold bind at 1, lift at 1.
  now rewrite Hrace.
Qed.

(** C2, counterexample. Three invocations that create no race session.
    When the race list has no entry for the round (here the list is
    empty), the routine returns 0 and the store is as before.  When the
    entry carries a date that parses, as every entry of the API does, the
    session record rejects it, its [date] field admitting no value but
    None: the routine raises ValidationError and the store is as before.
    When no Round of the given id is stored, the store rejects the race
    session and the routine raises. *)
Lemma no_race_session_without_race_entry :
  (import_sessions_for_round up_empty 2021 1 1 db_round = (db_round, Ok 0) /\
   ~ creates_one_race_session up_empty 2021 1 1 db_round) /\
  (find_race 1 (fetch_races (up_bahrain []) 2021) = Ok (Some race_bahrain) /\
   race_session_create race_bahrain 1 = Raise ValidationError /\
   import_sessions_for_round (up_bahrain []) 2021 1 1 db_round
   = (db_round, Raise ValidationError) /\
   ~ creates_one_race_session (up_bahrain []) 2021 1 1 db_round) /\
  (import_sessions_for_round (up_undated []) 2021 1 1 empty_db
   = (empty_db, Raise IntegrityError) /\
   ~ creates_one_race_session (up_undated []) 2021 1 1 empty_db).
Proof.
  unfold creates_one_race_session.
  repeat split; try reflexivity; cbn; discriminate.
Qed.

(** C2, amended. When the scan of the race list finds no entry for the
    round, [import_sessions_for_round] returns 0 and leaves the store as
    it is.  When it finds the entry, the session record accepts the
    entry's date and time, and the Round of the given id is stored, it
    creates exactly one race session for the round, whatever else it
    creates and whether it later raises; that session is the first row it
    adds. *)
Theorem race_session_created_once :
  forall (up : upstream) (season_year round_num round_id : Z) (d : db),
    (find_race round_num (fetch_races up season_year) = Ok None ->
     import_sessions_for_round up season_year round_num round_id d = (d, Ok 0)) /\
    (forall (race_info : dict) (s : SessionCreate.t),
        find_race round_num (fetch_races up season_year) = Ok (Some race_info) ->
        race_session_create race_info round_id = Ok s ->
        In round_id (map id (rounds d)) ->
        creates_one_race_session up season_year round_num round_id d /\
        exists rest,
          map fields
              (created (sessions d)
                 (sessions (fst (import_sessions_for_round up season_year round_num
                                                           round_id d))))
          = s :: rest).
Proof.
  intros up season_year round_num round_id d.
  split; [apply import_sessions_without_entry |].
  intros race_info s Hfind Hrace Hin.
  destruct (import_sessions_race_first _ _ _ _ _ _ Hfind Hrace)
    as (l & r & [_ Hc] & Hl).
  unfold creates_one_race_session. rewrite (Hc d Hin). cbn [fst].
  destruct (add_sessions_spec (s :: l) d) as (rows & Hs & Hf & _).
  rewrite Hs, created_app.
  destruct rows as [| r0 rows]; [discriminate |].
  simpl in Hf. injection Hf as Hr0 Hrows.
  destruct (race_session_create_fields _ _ _ Hrace) as (Ht & _ & Hr).
  destruct r0 as [id0 f0]. simpl in Hr0. subst f0.
  split.
  - change (sessions_of "race" round_id (mkrow id0 s :: rows))
      with (if String.eqb (SessionCreate.session_type s) "race"
               && (SessionCreate.round_id s =? round_id)
            then mkrow id0 s :: sessions_of "race" round_id rows
            else sessions_of "race" round_id rows).
    rewrite Ht, Hr, Z.eqb_refl. simpl.
    rewrite sessions_of_race_none; [reflexivity | now rewrite Hrows].
  - exists l. simpl. now rewrite Hrows.
Qed.

(** ** Era-conditional sessions *)

(** A run that found the entry and returned had the round in the store. *)
Lemma import_sessions_returned_stored up season_year round_num round_id d
      race_info d' count :
  find_race round_num (fetch_races up season_year) = Ok (Some race_info) ->
  import_sessions_for_round up season_year round_num round_id d = (d', Ok count) ->
  In round_id (map id (rounds d)).
Proof.
  intros Hfind Hrun.
  destruct (in_dec Z.eq_dec round_id (map id (rounds d))) as [Hin | Hno];
    [exact Hin | exfalso].
  destruct (find_race_some _ _ _ Hfind) as (v & Hv & _).
  unfold import_sessions_for_round in Hrun. rewrite Hfind in Hrun.
  destruct race_info as [| item rest]; [discriminate |].
  unfold bind at 1, lift at 1 in Hrun. unfold bind at 1, lift at 1 in Hrun.
  destruct (race_session_create (item :: rest) round_id) as [s | e] eqn:Hs;
    [| discriminate].
  unfold bind at 1 in Hrun. rewrite create_session_rejected in Hrun;
    [discriminate |].
  now rewrite (proj2 (proj2 (race_session_create_fields _ _ _ Hs))).
Qed.

Ltac stored_tac Hin :=
  cbn [rounds add_session];
  match goal with
  | H : race_session_create _ _ = Ok ?s
    |- In (SessionCreate.round_id ?s) _ =>
      rewrite (proj2 (proj2 (race_session_create_fields _ _ _ H))); exact Hin
  | H : nested_session_create _ _ _ _ _ = Ok ?s
    |- In (SessionCreate.round_id ?s) _ =>
      rewrite (proj2 (proj2 (nested_session_create_fields _ _ _ _ _ _ H)));
      exact Hin
  end.

Lemma modern_sessions_created up season_year round_num round_id d race_info d' count :
  2000 <= season_year ->
  fetch_sprint_results up season_year round_num = [] ->
  find_race round_num (fetch_races up season_year) = Ok (Some race_info) ->
  dict_in "ThirdPractice" race_info = true ->
  import_sessions_for_round up season_year round_num round_id d = (d', Ok count) ->
  session_types (created (sessions d) (sessions d'))
  = modern_session_types (nonempty (fetch_qualifying_results up season_year round_num))
  /\ count = Z.of_nat (List.length (created (sessions d) (sessions d'))).
Proof.
  intros Hy Hsprint Hfind Hp3 Hrun.
  pose proof (import_sessions_returned_stored _ _ _ _ _ _ _ _ Hfind Hrun) as Hin.
  unfold import_sessions_for_round in Hrun.
  rewrite Hfind, Hsprint in Hrun.
  assert (Hge : (season_year >=? 2000) = true) by lia. rewrite Hge in Hrun.
  destruct race_info as [| item rest]; [discriminate |].
  unfold bind, lift, ret in Hrun.
  cbv beta iota zeta in Hrun. rewrite Hp3 in Hrun.
  cbn [nonempty negb andb] in Hrun.
  repeat match type of Hrun with
         | context [create_session ?s ?dd] =>
             rewrite (create_session_stored s dd) in Hrun by stored_tac Hin
         | context [match ?x with Ok _ => _ | Raise _ => _ end] =>
             destruct x eqn:?; cbv beta iota zeta in Hrun; try discriminate
         | context [if nonempty ?x then _ else _] =>
             destruct (nonempty x) eqn:?; cbv beta iota zeta in Hrun
         end;
    inversion Hrun; subst; cbn [sessions add_session];
    repeat rewrite <- app_assoc; rewrite created_app; cbn [app];
    repeat match goal with
           | H : race_session_create _ _ = Ok _ |- _ =>
               destruct (race_session_create_fields _ _ _ H) as (Ht & _ & _);
               revert Ht; clear H
           | H : nested_session_create _ _ _ _ _ = Ok _ |- _ =>
               destruct (nested_session_create_fields _ _ _ _ _ _ H) as (Ht & _ & _);
               revert Ht; clear H
           end;
    intros; unfold session_types; cbn [map fields List.length];
    repeat match goal with H : SessionCreate.session_type _ = _ |- _ =>
                             rewrite H; clear H end;
    split; reflexivity.
Qed.

(** C3, counterexample. A 2021 round with no sprint results, a
    "ThirdPractice" key in the payload and an empty qualifying fetch gets
    four sessions, not five: the routine returns 4 and the round, stored
    without sessions, holds the race and the three practice sessions.  With
    qualifying results and a third practice that gives its date, the
    routine raises when the session record rejects that date, and the
    round holds four sessions too: the race, qualifying and two
    practices. *)
Lemma four_sessions_without_qualifying :
  (2000 <= 2021 /\
   fetch_sprint_results (up_undated []) 2021 1 = [] /\
   dict_in "ThirdPractice" race_undated = true /\
   snd (import_sessions_for_round (up_undated []) 2021 1 1 db_round) = Ok 4 /\
   session_types
     (sessions (fst (import_sessions_for_round (up_undated []) 2021 1 1 db_round)))
   = ["race"; "practice1"; "practice2"; "practice3"] /\
   ~ creates_five_sessions (up_undated []) 2021 1 1 db_round) /\
  (fetch_sprint_results up_practice_dated 2021 1 = [] /\
   dict_in "ThirdPractice" race_practice_dated = true /\
   snd (import_sessions_for_round up_practice_dated 2021 1 1 db_round)
   = Raise ValidationError /\
   session_types
     (sessions (fst (import_sessions_for_round up_practice_dated 2021 1 1
                                               db_round)))
   = ["race"; "qualifying"; "practice1"; "practice2"] /\
   ~ creates_five_sessions up_practice_dated 2021 1 1 db_round).
Proof.
  unfold creates_five_sessions.
  repeat split; try reflexivity; try lia; cbn; discriminate.
Qed.

(** C3, amended. For a season year of 2000 or later, an empty sprint fetch
    and a race entry that has a "ThirdPractice" key, a run of
    [import_sessions_for_round] that returns has created, in this order,
    the race session, the qualifying session if the qualifying fetch is
    not empty, and practice 1, 2 and 3: five sessions with qualifying,
    four without, and it returns their number.  For a season year before
    2000 no run creates a practice session, whatever the payload holds. *)
Theorem era_conditional_sessions :
  forall (up : upstream) (season_year round_num round_id : Z) (d : db),
    (2000 <= season_year ->
     fetch_sprint_results up season_year round_num = [] ->
     forall race_info d' count,
       find_race round_num (fetch_races up season_year) = Ok (Some race_info) ->
       dict_in "ThirdPractice" race_info = true ->
       import_sessions_for_round up season_year round_num round_id d
       = (d', Ok count) ->
       session_types (created (sessions d) (sessions d'))
       = modern_session_types
           (nonempty (fetch_qualifying_results up season_year round_num)) /\
       count = Z.of_nat (List.length (created (sessions d) (sessions d')))) /\
    (season_year < 2000 ->
     Forall (fun r => is_practice (SessionCreate.session_type (fields r)) = false)
            (created (sessions d)
               (sessions (fst (import_sessions_for_round up season_year round_num
                                                         round_id d))))).
Proof.
  intros up season_year round_num round_id d. split.
  - intros Hy Hsprint race_info d' count Hfind Hp3 Hrun.
    eapply modern_sessions_created; eassumption.
  - intro Hy.
    destruct (import_sessions_created up season_year round_num round_id d)
      as (rows & Hs & Hok).
    rewrite Hs, created_app.
    eapply Forall_impl; [| exact Hok]. intros r (_ & _ & H). now apply H.
Qed.

(** C3, witness: the stored 2021 round, whose entry has qualifying
    results, gets its five sessions, and the same round in 1999 gets no
    practice session. *)
Lemma era_conditional_sessions_witness :
  (session_types
     (created (sessions db_round)
        (sessions (fst (import_sessions_for_round (up_undated [[]]) 2021 1 1
                                                  db_round))))
   = ["race"; "qualifying"; "practice1"; "practice2"; "practice3"] /\
   5 = Z.of_nat
         (List.length
            (created (sessions db_round)
               (sessions (fst (import_sessions_for_round (up_undated [[]]) 2021 1 1
                                                         db_round)))))) /\
  Forall (fun r => is_practice (SessionCreate.session_type (fields r)) = false)
         (created (sessions db_round)
            (sessions (fst (import_sessions_for_round (up_undated [[]]) 1999 1 1
                                                      db_round)))).
Proof.
  split.
  - apply (proj1 (era_conditional_sessions (up_undated [[]]) 2021 1 1 db_round)
             ltac:(lia) eq_refl race_undated
             (fst (import_sessions_for_round (up_undated [[]]) 2021 1 1 db_round))
             5 eq_refl eq_refl).
    vm_compute. reflexivity.
  - apply (proj2 (era_conditional_sessions (up_undated [[]]) 1999 1 1 db_round)).
    lia.
Defined.

(** C2, witness: the stored round of 2021, with an entry that gives no
    date, and the same round with an empty race list. *)
Lemma race_session_created_once_witness :
  (find_race 1 (fetch_races (up_undated [[]]) 2021) = Ok (Some race_undated) /\
   race_session_create race_undated 1
   = Ok (SessionCreate.mk "race" None (Some "15:00:00Z") (Some "completed") 1) /\
   In 1 (map id (rounds db_round)) /\
   creates_one_race_session (up_undated [[]]) 2021 1 1 db_round) /\
  (find_race 1 (fetch_races up_empty 2021) = Ok None /\
   import_sessions_for_round up_empty 2021 1 1 db_round = (db_round, Ok 0)).
Proof.
  split.
  - split; [reflexivity |]. split; [reflexivity |].
    split; [left; reflexivity |].
    exact (proj1 (proj2 (race_session_created_once (up_undated [[]]) 2021 1 1
                           db_round)
                    race_undated _ eq_refl eq_refl (or_introl eq_refl))).
  - split; [reflexivity |].
    exact (proj1 (race_session_created_once up_empty 2021 1 1 db_round) eq_refl).
Defined.

(** C5, witness: the stored round of 2021 imported twice: five sessions
    after the first run, ten after the second. *)
Lemma reimport_duplicates_sessions_witness :
  (get_sessions_by_round 1 db_round = [] /\
   List.length
     (created (sessions db_round)
        (sessions (fst (import_sessions_for_round (up_undated [[]]) 2021 1 1
                                                  db_round)))) = 5%nat) /\
  List.length
    (get_sessions_by_round 1
       (fst (import_sessions_for_round (up_undated [[]]) 2021 1 1
               (fst (import_sessions_for_round (up_undated [[]]) 2021 1 1
                                               db_round)))))
  = (2 * List.length
           (get_sessions_by_round 1
              (fst (import_sessions_for_round (up_undated [[]]) 2021 1 1
                                              db_round))))%nat.
Proof.
  split; [split; reflexivity |].
  refine (proj2 (proj2 (proj2 (reimport_duplicates_sessions
                                 (up_undated [[]]) 2021 1 1 db_round
                                 eq_refl _)))).
  vm_compute. discriminate.
Defined.

(** ** Dependency gating *)

Lemma find_none_iff {A} (f : A -> bool) (l : list A) :
  (forall x, In x l -> f x = false) -> find f l = None.
Proof.
  induction l as [| a r IH]; simpl; intro H; [reflexivity |].
  rewrite (H a (or_introl eq_refl)). apply IH. intros x Hx. apply H. now right.
Qed.

(** C7. For a year with no Season row in the store,
    [import_rounds_for_season] returns 0 and leaves the store as it found
    it: no Round, no Circuit and no Session is created, and nothing is
    raised. *)
Theorem rounds_import_needs_season :
  forall (up : upstream) (season_year : Z) (d : db),
    (forall r, In r (seasons d) -> SeasonCreate.year (fields r) <> season_year) ->
    import_rounds_for_season up season_year d = (d, Ok 0).
Proof.
  intros up season_year d Hnone.
  unfold import_rounds_for_season, bind, get_season_by_year.
  rewrite find_none_iff; [reflexivity |].
  intros r Hr. apply Z.eqb_neq. now apply Hnone.
Qed.

(** C7, witness: year 1899 against an empty store, with races upstream. *)
Lemma rounds_import_needs_season_witness :
  (forall r, In r (seasons empty_db) -> SeasonCreate.year (fields r) <> 1899) /\
  import_rounds_for_season (up_bahrain [[]]) 1899 empty_db = (empty_db, Ok 0).
Proof.
  assert (H : forall r, In r (seasons empty_db) ->
                        SeasonCreate.year (fields r) <> 1899)
    by (intros r []).
  split; [exact H |].
  exact (rounds_import_needs_season (up_bahrain [[]]) 1899 empty_db H).
Defined.

(** ** Unparseable numbers *)

(** C4, the code at the failing inputs. A latitude or a permanent number
    that is present and is not a number makes the routine raise
    [ValueError] from [float] or [int]; no row is stored.  [parse_date]
    catches the same error for dates. *)
Theorem unparseable_number_raises :
  import_circuits up_bad_numbers empty_db = (empty_db, Raise ValueError) /\
  import_drivers up_bad_numbers empty_db = (empty_db, Raise ValueError) /\
  import_rounds_for_season up_bad_numbers 2021 db_2021
  = (db_2021, Raise ValueError) /\
  parse_date (Some (JStr "abc")) = Ok None.
Proof. repeat split. Qed.

(** ** Range filtering of seasons *)

Lemma find_season_none y (t : table SeasonCreate.t) :
  find (fun r => SeasonCreate.year (fields r) =? y) t = None ->
  ~ In y (season_years t).
Proof.
  intros Hnone Hin. unfold season_years in Hin. apply in_map_iff in Hin.
  destruct Hin as (r & Hy & Hr).
  apply (find_none _ _ Hnone) in Hr. apply Z.eqb_neq in Hr. congruence.
Qed.

Lemma find_season_some y (t : table SeasonCreate.t) r :
  find (fun r => SeasonCreate.year (fields r) =? y) t = Some r ->
  In y (season_years t).
Proof.
  intro Hsome. apply find_some in Hsome. destruct Hsome as (Hr & Hy).
  apply Z.eqb_eq in Hy. unfold season_years. apply in_map_iff. now exists r.
Qed.

Lemma season_years_app (a b : table SeasonCreate.t) :
  season_years (a ++ b) = season_years a ++ season_years b.
Proof. apply map_app. Qed.

(** The loop of [import_seasons], from any store and any count. *)
Lemma import_seasons_loop start_year end_year (l : list dict) :
  forall d count d' n,
    for_each (import_season start_year end_year) l count d = (d', Ok n) ->
    exists new,
      seasons d' = seasons d ++ new /\
      n = count + Z.of_nat (List.length new) /\
      NoDup (season_years new) /\
      forall y, In y (season_years new) <->
                In y (upstream_years l) /\ start_year <= y <= end_year /\
                ~ In y (season_years (seasons d)).
Proof.
  induction l as [| s rest IH]; intros d count d' n Hrun.
  - injection Hrun as <- <-. exists []. rewrite app_nil_r. simpl.
    split; [reflexivity |]. split; [lia |]. split; [constructor |].
    intro y. tauto.
  - cbn [for_each upstream_years] in *.
    unfold bind at 1, import_season at 1, bind at 1, lift at 1 in Hrun.
    destruct (let? v := dict_index "season" s in py_int v) as [y0 |];
      [| discriminate].
    destruct ((y0 <? start_year) || (y0 >? end_year)) eqn:Hout.
    + unfold ret in Hrun. apply IH in Hrun.
      destruct Hrun as (new & Hs & Hn & Hnd & Hiff). exists new.
      split; [exact Hs |]. split; [exact Hn |]. split; [exact Hnd |].
      intro y. rewrite Hiff. split.
      * intros (Hu & Hr & Hd). split; [now right | tauto].
      * intros ([-> | Hin] & Hr & Hd); [lia | tauto].
    + unfold bind at 1, get_season_by_year at 1 in Hrun.
      destruct (find _ (seasons d)) as [r |] eqn:Hfind.
      * unfold ret in Hrun. apply IH in Hrun.
        destruct Hrun as (new & Hs & Hn & Hnd & Hiff). exists new.
        split; [exact Hs |]. split; [exact Hn |]. split; [exact Hnd |].
        intro y. rewrite Hiff. split.
        -- intros (Hu & Hr & Hd). split; [now right | tauto].
        -- intros ([-> | Hin] & Hr & Hd); [| tauto].
           exfalso. apply Hd. eapply find_season_some. eassumption.
      * unfold bind at 1, lift at 1 in Hrun.
        destruct (let? w := valid_opt_str (dict_get "url" s) in _) as [sc |] eqn:Hsc;
          [| discriminate].
        assert (Hy : SeasonCreate.year sc = y0).
        { unfold bindR in Hsc. destruct (valid_opt_str _); [| discriminate].
          now injection Hsc as <-. }
        unfold bind at 1, create_season at 1, insert in Hrun.
        cbv beta iota zeta in Hrun. unfold ret at 1 in Hrun.
        apply IH in Hrun. cbn [seasons] in Hrun.
        destruct Hrun as (new & Hs & Hn & Hnd & Hiff).
        apply find_season_none in Hfind.
        exists (mkrow (next_id (seasons d)) sc :: new).
        rewrite Hs, <- app_assoc. split; [reflexivity |].
        split; [cbn [List.length]; lia |].
        cbn [season_years map fields]. rewrite Hy.
        assert (Hnew : ~ In y0 (season_years new)).
        { intro Hin. apply Hiff in Hin. destruct Hin as (_ & _ & Hd). apply Hd.
          rewrite season_years_app. apply in_or_app. right. simpl. now left. }
        split; [now constructor |].
        intro y. split.
        -- intros [<- | Hin].
           ++ split; [now left |]. split; [lia | exact Hfind].
           ++ apply Hiff in Hin. destruct Hin as (Hu & Hr & Hd).
              split; [now right |]. split; [exact Hr |].
              intro Hd'. apply Hd. rewrite season_years_app. apply in_or_app.
              now left.
        -- intros ([-> | Hin] & Hr & Hd); [now left |].
           destruct (Z.eq_dec y0 y) as [-> | Hne]; [now left |]. right.
           apply Hiff. split; [exact Hin |]. split; [exact Hr |].
           rewrite season_years_app. intro Hd'. apply in_app_or in Hd'.
           destruct Hd' as [Hd' | [Hd' | []]]; [now apply Hd | cbn in Hd'; congruence].
Qed.

(** C9. A run of [import_seasons start_year end_year] that returns has
    added one Season row for each year that an upstream season carries,
    that lies in [start_year, end_year] and that the store did not hold,
    and nothing else; it returns the number of rows added.  On the fixture
    of seasons 2015 to 2022, [import_seasons 2018 2020] into an empty store
    creates the three rows 2018, 2019, 2020. *)
Theorem import_seasons_range :
  (forall (up : upstream) (start_year end_year : Z) (d d' : db) (n : Z),
      end_year <> 0 ->
      import_seasons up start_year (Some end_year) d = (d', Ok n) ->
      exists new,
        seasons d' = seasons d ++ new /\
        n = Z.of_nat (List.length new) /\
        NoDup (season_years new) /\
        forall y, In y (season_years new) <->
                  In y (upstream_years (fetch_seasons up)) /\
                  start_year <= y <= end_year /\
                  ~ In y (season_years (seasons d))) /\
  (season_years (seasons (fst (import_seasons up_2015_2022 2018 (Some 2020)
                                              empty_db)))
   = [2018; 2019; 2020] /\
   snd (import_seasons up_2015_2022 2018 (Some 2020) empty_db) = Ok 3).
Proof.
  split; [| split; reflexivity].
  intros up start_year end_year d d' n Hend Hrun.
  unfold import_seasons, default_end_year in Hrun.
  destruct (end_year =? 0) eqn:H0; [apply Z.eqb_eq in H0; contradiction |].
  apply import_seasons_loop in Hrun.
  destruct Hrun as (new & Hs & Hn & Hnd & Hiff).
  exists new. split; [exact Hs |]. split; [lia |]. split; [exact Hnd |].
  exact Hiff.
Qed.

(** C9, witness: the fixture of seasons 2015 to 2022, range 2018 to 2020. *)
Lemma import_seasons_range_witness :
  2020 <> 0 /\
  exists new,
    seasons (fst (import_seasons up_2015_2022 2018 (Some 2020) empty_db))
    = seasons empty_db ++ new /\
    3 = Z.of_nat (List.length new) /\
    NoDup (season_years new) /\
    forall y, In y (season_years new) <->
              In y (upstream_years (fetch_seasons up_2015_2022)) /\
              2018 <= y <= 2020 /\
              ~ In y (season_years (seasons empty_db)).
Proof.
  split; [discriminate |].
  apply (proj1 import_seasons_range up_2015_2022 2018 2020 empty_db _ 3).
  - discriminate.
  - reflexivity.
Defined.

(** ** Cascading creation of the circuit *)

Lemma import_sessions_frame up season_year round_num round_id d :
  circuits (fst (import_sessions_for_round up season_year round_num round_id d))
  = circuits d /\
  rounds (fst (import_sessions_for_round up season_year round_num round_id d))
  = rounds d /\
  seasons (fst (import_sessions_for_round up season_year round_num round_id d))
  = seasons d.
Proof.
  destruct (in_dec Z.eq_dec round_id (map id (rounds d))) as [Hin | Hno].
  - destruct (import_sessions_plans up season_year round_num round_id)
      as (l & r & [_ Hc] & _).
    rewrite (Hc d Hin). cbn [fst].
    destruct (add_sessions_spec l d) as (rows & _ & _ & H1 & H2 & _ & _ & H5 & _).
    now rewrite H1, H2, H5.
  - rewrite (import_sessions_rejected _ _ _ _ _ Hno). repeat split.
Qed.

Lemma next_id_fresh {A} (t : table A) (r : row A) : In r t -> id r < next_id t.
Proof.
  unfold next_id. induction t as [| a rest IH]; cbn [fold_right In]; [intros [] |].
  intros [-> | Hin]; [lia |]. specialize (IH Hin). lia.
Qed.





(** ** Idempotence of the natural-key imports *)

Section Rerun.
Context {X : Type} (body : X -> M bool) (done : X -> db -> Prop).
Hypothesis done_skips : forall x d, done x d -> body x d = (d, Ok false).
Hypothesis done_after : forall x d d' b, body x d = (d', Ok b) -> done x d'.
Hypothesis done_stays : forall x d d', done x d -> extends d d' -> done x d'.
Hypothesis body_extends : forall x, keeps extends (body x).

Lemma for_each_all_done (l : list X) :
  forall count d d' n,
    for_each body l count d = (d', Ok n) -> Forall (fun x => done x d') l.
Proof.
  induction l as [| x rest IH]; intros count d d' n Hrun; [constructor |].
  cbn [for_each] in Hrun. unfold bind at 1 in Hrun.
  destruct (body x d) as [d1 [b |]] eqn:Hbody; [| discriminate].
  constructor.
  - apply (done_stays x d1); [eapply done_after; eassumption |].
    pose proof (extends_for_each body rest (if b then count + 1 else count)
                  body_extends d1) as H.
    now rewrite Hrun in H.
  - eapply IH. eassumption.
Qed.

Lemma for_each_skips (l : list X) :
  forall count d,
    Forall (fun x => done x d) l -> for_each body l count d = (d, Ok count).
Proof.
  induction l as [| x rest IH]; intros count d Hall; [reflexivity |].
  inversion Hall as [| ? ? Hx Hrest]; subst.
  cbn [for_each]. unfold bind at 1. rewrite (done_skips x d Hx). now apply IH.
Qed.

Lemma for_each_rerun (l : list X) :
  forall count d d' n,
    for_each body l count d = (d', Ok n) ->
    for_each body l 0 d' = (d', Ok 0).
Proof.
  intros count d d' n Hrun. apply for_each_skips.
  eapply for_each_all_done. eassumption.
Qed.
End Rerun.

Lemma found_grows {A} (f : A -> bool) (t t' : list A) :
  grows t t' -> found f t -> found f t'.
Proof.
  unfold found. intros Hg H. destruct (find f t) as [x |] eqn:Hx; [| congruence].
  rewrite (find_grows f t t' x Hg Hx). discriminate.
Qed.

Lemma found_last {A} (f : A -> bool) (t : list A) (r : A) :
  f r = true -> found f (t ++ [r]).
Proof.
  unfold found. intro Hr. induction t as [| a rest IH]; simpl.
  - rewrite Hr. discriminate.
  - destruct (f a); [discriminate | exact IH].
Qed.

Lemma ref_eqb_refl s : ref_eqb s (Some s) = true.
Proof. unfold ref_eqb. apply String.eqb_refl. Qed.

Lemma done_season_skips sy ey s d :
  done_season sy ey s d -> import_season sy ey s d = (d, Ok false).
Proof.
  intros (y & Hy & H). unfold import_season, bind, lift. rewrite Hy.
  destruct ((y <? sy) || (y >? ey)); [reflexivity |].
  destruct H as [H | H]; [discriminate |].
  unfold get_season_by_year, found in *.
  destruct (find _ (seasons d)); [reflexivity | congruence].
Qed.

Lemma done_season_after sy ey s d d' b :
  import_season sy ey s d = (d', Ok b) -> done_season sy ey s d'.
Proof.
  unfold import_season, bind, lift, get_season_by_year. intro Hrun.
  destruct (let? v := dict_index "season" s in py_int v) as [y |] eqn:Hy;
    [| discriminate].
  exists y. split; [exact Hy |].
  destruct ((y <? sy) || (y >? ey)); [now left | right].
  destruct (find _ (seasons d)) as [r |] eqn:Hfind.
  - unfold ret in Hrun. injection Hrun as <- _. unfold found. congruence.
  - destruct (let? w := valid_opt_str (dict_get "url" s) in _) as [sc |] eqn:Hsc;
      [| discriminate].
    unfold create_season, insert, ret in Hrun. injection Hrun as <- _.
    cbn [seasons]. apply found_last. cbn [fields].
    unfold bindR in Hsc. destruct (valid_opt_str _); [| discriminate].
    injection Hsc as <-. apply Z.eqb_refl.
Qed.

Lemma done_season_stays sy ey s d d' :
  done_season sy ey s d -> extends d d' -> done_season sy ey s d'.
Proof.
  intros (y & Hy & H) Hext. exists y. split; [exact Hy |].
  destruct H as [H | H]; [now left | right].
  eapply found_grows; [apply Hext | exact H].
Qed.

Lemma import_seasons_rerun up sy ey d d' n :
  import_seasons up sy ey d = (d', Ok n) ->
  import_seasons up sy ey d' = (d', Ok 0).
Proof.
  unfold import_seasons.
  apply (for_each_rerun _ (done_season sy (default_end_year up ey))).
  - apply done_season_skips.
  - apply done_season_after.
  - apply done_season_stays.
  - intro. apply extends_import_season.
Qed.

Ltac bindR_ok H :=
  unfold bindR in H;
  repeat match type of H with
         | context [match ?x with Ok _ => _ | Raise _ => _ end] =>
             destruct x; [| discriminate]
         end;
  injection H as <-.

Lemma build_circuit_create_reference reference c cc :
  build_circuit_create reference c = Ok cc ->
  CircuitCreate.reference cc = Some reference.
Proof. unfold build_circuit_create. intro H. bindR_ok H. reflexivity. Qed.

Lemma build_driver_create_reference reference c cc :
  build_driver_create reference c = Ok cc ->
  DriverCreate.reference cc = Some reference.
Proof.
  unfold build_driver_create. intro H.
  destruct (dict_get "permanentNumber" c); bindR_ok H; reflexivity.
Qed.

Lemma build_team_create_reference reference c cc :
  build_team_create reference c = Ok cc ->
  TeamCreate.reference cc = Some reference.
Proof. unfold build_team_create. intro H. bindR_ok H. reflexivity. Qed.

Lemma import_circuits_rerun up d d' n :
  import_circuits up d = (d', Ok n) -> import_circuits up d' = (d', Ok 0).
Proof.
  unfold import_circuits. apply (for_each_rerun _ done_circuit).
  - intros c d0 (reference & Href & H).
    unfold import_circuit, bind, lift, get_circuit_by_reference, found in *.
    rewrite Href. destruct (find _ (circuits d0)); [reflexivity | congruence].
  - intros c d0 d1 b Hrun.
    unfold import_circuit, bind, lift, get_circuit_by_reference in Hrun.
    destruct (let? v := dict_index "circuitId" c in bind_param v)
      as [reference |] eqn:Href; [| discriminate].
    exists reference. split; [exact Href |].
    destruct (find _ (circuits d0)) as [r |] eqn:Hfind.
    + unfold ret in Hrun. injection Hrun as <- _. unfold found. congruence.
    + destruct (build_circuit_create reference c) as [cc |] eqn:Hcc;
        [| discriminate].
      unfold create_circuit, insert, ret in Hrun. injection Hrun as <- _.
      cbn [circuits]. apply found_last. cbn [fields].
      rewrite (build_circuit_create_reference _ _ _ Hcc). apply ref_eqb_refl.
  - intros c d0 d1 (reference & Href & H) Hext. exists reference.
    split; [exact Href |]. eapply found_grows; [apply Hext | exact H].
  - intro. apply extends_import_circuit.
Qed.

Lemma import_drivers_rerun up d d' n :
  import_drivers up d = (d', Ok n) -> import_drivers up d' = (d', Ok 0).
Proof.
  unfold import_drivers. apply (for_each_rerun _ done_driver).
  - intros c d0 (reference & Href & H).
    unfold import_driver, bind, lift, get_driver_by_reference, found in *.
    rewrite Href. destruct (find _ (drivers d0)); [reflexivity | congruence].
  - intros c d0 d1 b Hrun.
    unfold import_driver, bind, lift, get_driver_by_reference in Hrun.
    destruct (let? v := dict_index "driverId" c in bind_param v)
      as [reference |] eqn:Href; [| discriminate].
    exists reference. split; [exact Href |].
    destruct (find _ (drivers d0)) as [r |] eqn:Hfind.
    + unfold ret in Hrun. injection Hrun as <- _. unfold found. congruence.
    + destruct (build_driver_create reference c) as [cc |] eqn:Hcc;
        [| discriminate].
      unfold create_driver, insert, ret in Hrun. injection Hrun as <- _.
      cbn [drivers]. apply found_last. cbn [fields].
      rewrite (build_driver_create_reference _ _ _ Hcc). apply ref_eqb_refl.
  - intros c d0 d1 (reference & Href & H) Hext. exists reference.
    split; [exact Href |]. eapply found_grows; [apply Hext | exact H].
  - intro. apply extends_import_driver.
Qed.

Lemma import_teams_rerun up d d' n :
  import_teams up d = (d', Ok n) -> import_teams up d' = (d', Ok 0).
Proof.
  unfold import_teams. apply (for_each_rerun _ done_team).
  - intros c d0 (reference & Href & H).
    unfold import_team, bind, lift, get_team_by_reference, found in *.
    rewrite Href. destruct (find _ (teams d0)); [reflexivity | congruence].
  - intros c d0 d1 b Hrun.
    unfold import_team, bind, lift, get_team_by_reference in Hrun.
    destruct (let? v := dict_index "constructorId" c in bind_param v)
      as [reference |] eqn:Href; [| discriminate].
    exists reference. split; [exact Href |].
    destruct (find _ (teams d0)) as [r |] eqn:Hfind.
    + unfold ret in Hrun. injection Hrun as <- _. unfold found. congruence.
    + destruct (build_team_create reference c) as [cc |] eqn:Hcc;
        [| discriminate].
      unfold create_team, insert, ret in Hrun. injection Hrun as <- _.
      cbn [teams]. apply found_last. cbn [fields].
      rewrite (build_team_create_reference _ _ _ Hcc). apply ref_eqb_refl.
  - intros c d0 d1 (reference & Href & H) Hext. exists reference.
    split; [exact Href |]. eapply found_grows; [apply Hext | exact H].
  - intro. apply extends_import_team.
Qed.

Lemma done_round_skips up y season race d :
  done_round y race d -> import_round up y season race d = (d, Ok false).
Proof.
  intros (cj & reference & round & Hc & Href & Hfc & Hr & Hfr).
  unfold import_round, dict_index. rewrite Hc, Hr.
  unfold bind at 1, lift at 1. rewrite Href.
  unfold bind at 1, lift at 1.
  unfold bind at 1, get_circuit_by_reference at 1.
  unfold found in Hfc, Hfr.
  destruct (find _ (circuits d)) as [c |]; [| congruence].
  unfold bind at 1, ret at 1. unfold bind at 1, lift at 1.
  unfold bind at 1, get_round_by_reference at 1.
  destruct (find _ (rounds d)) as [r |]; [reflexivity | congruence].
Qed.

Lemma done_round_stays y race d d' :
  done_round y race d -> extends d d' -> done_round y race d'.
Proof.
  intros (cj & reference & round & Hc & Href & Hfc & Hr & Hfr) Hext.
  exists cj, reference, round. repeat split; try assumption.
  - eapply found_grows; [apply Hext | exact Hfc].
  - eapply found_grows; [apply Hext | exact Hfr].
Qed.

Lemma done_round_after up y season race d d' b :
  import_round up y season race d = (d', Ok b) -> done_round y race d'.
Proof.
  intro Hrun. unfold import_round in Hrun.
  match type of Hrun with
  | context [bind (match _ with Some c0 => ret c0 | None => _ end) ?K] =>
      set (k := K) in Hrun
  end.
  unfold dict_index at 1 in Hrun.
  destruct (dict_get "Circuit" race) as [cj |] eqn:Hc; [| discriminate].
  unfold bind at 1, lift at 1 in Hrun.
  destruct (let? v := json_index "circuitId" cj in bind_param v)
    as [reference |] eqn:Href; [| discriminate].
  unfold bind at 1, lift at 1 in Hrun.
  unfold bind at 1, get_circuit_by_reference at 1 in Hrun.
  (* the circuit, found or created, is in the store [d1] that follows *)
  assert (Hcircuit :
            exists d1 (c : row CircuitCreate.t),
              k c d1 = (d', Ok b) /\
              found (fun r => ref_eqb reference (CircuitCreate.reference (fields r)))
                    (circuits d1) /\
              rounds d1 = rounds d).
  { destruct (find _ (circuits d)) as [c |] eqn:Hfind.
    - unfold bind at 1, ret at 1 in Hrun.
      exists d, c. split; [exact Hrun |].
      split; [unfold found; congruence | reflexivity].
    - unfold bind at 1, bind at 1, lift at 1 in Hrun.
      destruct (match cj with
                | JStr _ => Raise TypeError
                | JObj cd => build_circuit_create reference cd
                end) as [cc |] eqn:Hcc; [| discriminate].
      unfold create_circuit at 1, insert in Hrun. cbv beta iota zeta in Hrun.
      eexists _, _. split; [exact Hrun |]. cbn [circuits rounds].
      split; [| reflexivity].
      apply found_last. cbn [fields].
      destruct cj as [| cd]; [discriminate |].
      rewrite (build_circuit_create_reference _ _ _ Hcc). apply ref_eqb_refl. }
  clear Hrun. destruct Hcircuit as (d1 & c & Hrun & Hfc & Hrounds).
  subst k. cbv beta in Hrun.
  unfold bind at 1, lift at 1, dict_index in Hrun.
  destruct (dict_get "round" race) as [round |] eqn:Hr; [| discriminate].
  exists cj, reference, round.
  split; [exact Hc |]. split; [exact Href |].
  unfold bind at 1, get_round_by_reference at 1 in Hrun.
  destruct (find _ (rounds d1)) as [r |] eqn:Hfind.
  - unfold ret in Hrun. injection Hrun as <- _.
    split; [exact Hfc |]. split; [exact Hr |]. unfold found. congruence.
  - unfold bind at 1, lift at 1 in Hrun.
    match type of Hrun with
    | context [match ?x with Ok _ => _ | Raise _ => _ end] =>
        destruct x as [rc |] eqn:Hrc; [| discriminate]
    end.
    unfold bind at 1, create_round at 1, insert in Hrun.
    cbv beta iota zeta in Hrun.
    unfold bind at 1, lift at 1 in Hrun.
    destruct (py_int round) as [round_num |]; [| discriminate].
    unfold bind at 1 in Hrun.
    match type of Hrun with
    | context [import_sessions_for_round ?u ?yy ?n ?i ?st] =>
        pose proof (import_sessions_frame u yy n i st) as (Hc' & Hr' & _);
        destruct (import_sessions_for_round u yy n i st) as [d2 [cnt | e]];
        [| discriminate]
    end.
    unfold ret in Hrun. injection Hrun as <- _.
    cbn [fst circuits rounds] in Hc', Hr'. rewrite Hc', Hr'.
    split; [exact Hfc |]. split; [exact Hr |].
    apply found_last. cbn [fields].
    bindR_ok Hrc. cbn. apply String.eqb_refl.
Qed.

Lemma import_rounds_rerun up y d d' n :
  import_rounds_for_season up y d = (d', Ok n) ->
  import_rounds_for_season up y d' = (d', Ok 0).
Proof.
  intro Hrun.
  pose proof (extends_import_rounds up y d) as Hext. rewrite Hrun in Hext.
  cbn [fst] in Hext.
  unfold import_rounds_for_season, bind, get_season_by_year in *.
  destruct (find _ (seasons d)) as [season |] eqn:Hfind.
  - rewrite (find_grows _ _ _ season (proj1 Hext) Hfind).
    revert Hrun. apply (for_each_rerun _ (done_round y)).
    + intros. now apply done_round_skips.
    + intros. eapply done_round_after. eassumption.
    + apply done_round_stays.
    + intro. apply extends_import_round.
  - unfold ret in Hrun. injection Hrun as <- _. now rewrite Hfind.
Qed.

(** C1. For every entity kind with a natural key, a run of its import
    routine that returns, followed by a second run with the same scope on
    the same upstream data, leaves the store the first run produced, and
    the second run returns a created-count of zero. *)
Theorem natural_key_imports_are_idempotent :
  forall (up : upstream) (d d' : db) (n : Z),
    (forall start_year end_year,
        import_seasons up start_year end_year d = (d', Ok n) ->
        import_seasons up start_year end_year d' = (d', Ok 0)) /\
    (import_circuits up d = (d', Ok n) ->
     import_circuits up d' = (d', Ok 0)) /\
    (import_drivers up d = (d', Ok n) ->
     import_drivers up d' = (d', Ok 0)) /\
    (import_teams up d = (d', Ok n) ->
     import_teams up d' = (d', Ok 0)) /\
    (forall season_year,
        import_rounds_for_season up season_year d = (d', Ok n) ->
        import_rounds_for_season up season_year d' = (d', Ok 0)).
Proof.
  intros up d d' n.
  split; [intros; eapply import_seasons_rerun; eassumption |].
  split; [apply import_circuits_rerun |].
  split; [apply import_drivers_rerun |].
  split; [apply import_teams_rerun |].
  intros; eapply import_rounds_rerun; eassumption.
Qed.

(** C1, witness: each routine run twice on that upstream; the rounds are
    imported into a store that holds the 2021 season. *)
Lemma natural_key_imports_are_idempotent_witness :
  import_seasons up_full 2018 (Some 2020)
    (fst (import_seasons up_full 2018 (Some 2020) empty_db))
  = (fst (import_seasons up_full 2018 (Some 2020) empty_db), Ok 0) /\
  import_circuits up_full (fst (import_circuits up_full empty_db))
  = (fst (import_circuits up_full empty_db), Ok 0) /\
  import_drivers up_full (fst (import_drivers up_full empty_db))
  = (fst (import_drivers up_full empty_db), Ok 0) /\
  import_teams up_full (fst (import_teams up_full empty_db))
  = (fst (import_teams up_full empty_db), Ok 0) /\
  import_rounds_for_season up_full 2021
    (fst (import_rounds_for_season up_full 2021 db_2021))
  = (fst (import_rounds_for_season up_full 2021 db_2021), Ok 0).
Proof.
  split; [| split; [| split; [| split]]].
  - apply (proj1 (natural_key_imports_are_idempotent up_full empty_db
                    (fst (import_seasons up_full 2018 (Some 2020) empty_db)) 3)
             2018 (Some 2020)).
    vm_compute. reflexivity.
  - apply (proj1 (proj2 (natural_key_imports_are_idempotent up_full empty_db
                           (fst (import_circuits up_full empty_db)) 1))).
    vm_compute. reflexivity.
  - apply (proj1 (proj2 (proj2 (natural_key_imports_are_idempotent up_full empty_db
                                  (fst (import_drivers up_full empty_db)) 1)))).
    vm_compute. reflexivity.
  - apply (proj1 (proj2 (proj2 (proj2
             (natural_key_imports_are_idempotent up_full empty_db
                (fst (import_teams up_full empty_db)) 1))))).
    vm_compute. reflexivity.
  - apply (proj2 (proj2 (proj2 (proj2
             (natural_key_imports_are_idempotent up_full db_2021
                (fst (import_rounds_for_season up_full 2021 db_2021)) 1)))) 2021).
    vm_compute. reflexivity.
Defined.

(** ** Every import run is a run of guarded inserts *)

Lemma steps_trans a b c : steps a b -> steps b c -> steps a c.
Proof.
  intros Hab Hbc. induction Hbc as [| b c c' _ IH Hstep]; [exact Hab |].
  eapply steps_step; [apply IH; exact Hab | exact Hstep].
Qed.

Lemma steps_one a b : step a b -> steps a b.
Proof. intro H. eapply steps_step; [apply steps_refl | exact H]. Qed.

Lemma step_extends a b : step a b -> extends a b.
Proof.
  intro H. destruct H; unfold extends; cbn; repeat split;
    first [apply grows_refl | apply grows_app].
Qed.

Lemma steps_extends a b : steps a b -> extends a b.
Proof.
  induction 1 as [| a b c _ IH Hstep]; [apply extends_refl |].
  eapply extends_trans; [exact IH | now apply step_extends].
Qed.

Lemma ids_grows {A} (t t' : table A) x : grows t t' -> In x (ids t) -> In x (ids t').
Proof.
  intros [added ->] H. unfold ids. rewrite map_app. apply in_or_app. now left.
Qed.

Lemma next_id_not_used {A} (t : table A) : ~ In (next_id t) (ids t).
Proof.
  unfold ids. intro H. apply in_map_iff in H. destruct H as (r & Hid & Hr).
  apply next_id_fresh in Hr. lia.
Qed.

Lemma NoDup_snoc {A} (l : list A) (x : A) : NoDup l -> ~ In x l -> NoDup (l ++ [x]).
Proof.
  intros Hl Hx. apply NoDup_app; [exact Hl | repeat constructor; intros [] | ].
  intros y Hy [<- | []]. contradiction.
Qed.

Lemma refs_snoc_some (col : list (option string)) s :
  refs (col ++ [Some s]) = refs col ++ [s].
Proof. unfold refs. rewrite flat_map_app. reflexivity. Qed.

Lemma step_natural_keys_unique a b :
  step a b -> natural_keys_unique a -> natural_keys_unique b.
Proof.
  intros H (H1 & H2 & H3 & H4 & H5 & H6).
  destruct H as [d s Hs | d c reference Hc Hn | d c reference Hc Hn
                 | d c reference Hc Hn | d r reference Hc Hn Hfs Hfc
                 | d s Hs | d t Hn Ht Hd];
    unfold natural_keys_unique, circuit_refs, driver_refs, team_refs, round_refs,
      team_driver_keys, season_years in *;
    cbn [seasons circuits drivers teams rounds sessions team_drivers
         with_seasons with_circuits with_drivers with_teams with_rounds
         with_sessions with_team_drivers];
    repeat split; try assumption;
    rewrite map_app; cbn [map fields];
    try (rewrite Hc, refs_snoc_some); now apply NoDup_snoc.
Qed.

Lemma in_ids_snoc {A} (t : table A) (r : row A) x : In x (ids t) -> In x (ids (t ++ [r])).
Proof. apply ids_grows. apply grows_app. Qed.

Lemma in_ids_last {A} (t : table A) (r : row A) : In (id r) (ids (t ++ [r])).
Proof. unfold ids. rewrite map_app. apply in_or_app. right. now left. Qed.

Lemma step_foreign_keys a b :
  step a b -> foreign_keys_resolve a -> foreign_keys_resolve b.
Proof.
  intros H (Hr & Hs & Ht).
  destruct H as [d s Hn | d c reference Hc Hn | d c reference Hc Hn
                 | d c reference Hc Hn | d r reference Hc Hn Hfs Hfc
                 | d s Hfk | d t Hn Hft Hfd];
    unfold foreign_keys_resolve;
    cbn [seasons circuits drivers teams rounds sessions team_drivers
         with_seasons with_circuits with_drivers with_teams with_rounds
         with_sessions with_team_drivers].
  - split; [| split; assumption]. intros r Hin. destruct (Hr r Hin).
    split; [now apply in_ids_snoc | assumption].
  - split; [| split; assumption]. intros r Hin. destruct (Hr r Hin).
    split; [assumption | now apply in_ids_snoc].
  - split; [assumption |]. split; [assumption |].
    intros t Hin. destruct (Ht t Hin). split; [assumption | now apply in_ids_snoc].
  - split; [assumption |]. split; [assumption |].
    intros t Hin. destruct (Ht t Hin). split; [now apply in_ids_snoc | assumption].
  - split; [| split; [| assumption]].
    + intros r0 Hin. apply in_app_or in Hin. destruct Hin as [Hin | [<- | []]].
      * now apply Hr.
      * cbn [fields]. now split.
    + intros s Hin. apply in_ids_snoc. now apply Hs.
  - split; [assumption |]. split; [| assumption].
    intros s0 Hin. apply in_app_or in Hin. destruct Hin as [Hin | [<- | []]].
    + now apply Hs.
    + exact Hfk.
  - split; [assumption |]. split; [assumption |].
    intros t0 Hin. apply in_app_or in Hin. destruct Hin as [Hin | [<- | []]].
    + now apply Ht.
    + cbn [fields]. now split.
Qed.

Lemma steps_preserve (P : db -> Prop) :
  (forall a b, step a b -> P a -> P b) -> forall a b, steps a b -> P a -> P b.
Proof.
  intros Hstep a b H. induction H as [| a b c _ IH Hs]; [tauto |].
  intro Ha. eapply Hstep; [exact Hs | now apply IH].
Qed.

Lemma in_refs (col : list (option string)) s : In s (refs col) <-> In (Some s) col.
Proof.
  unfold refs. rewrite in_flat_map. split.
  - intros ([x |] & Hin & Hs); [| destruct Hs].
    destruct Hs as [<- | []]. exact Hin.
  - intro Hin. exists (Some s). split; [exact Hin | now left].
Qed.

Lemma find_ref_none {A} (col : A -> option string) (t : list A) reference :
  find (fun r => ref_eqb reference (col r)) t = None ->
  ~ In reference (refs (map col t)).
Proof.
  intros Hnone Hin. apply in_refs in Hin. apply in_map_iff in Hin.
  destruct Hin as (r & Hcol & Hr). apply (find_none _ _ Hnone) in Hr.
  rewrite Hcol in Hr. rewrite ref_eqb_refl in Hr. discriminate.
Qed.

Lemma find_in_ids {A} (f : row A -> bool) (t : table A) r :
  find f t = Some r -> In (id r) (ids t).
Proof.
  intro H. apply find_some in H. destruct H as (H & _).
  unfold ids. apply in_map_iff. now exists r.
Qed.

Lemma steps_for_each {X} (P : db -> Prop) (body : X -> M bool) (l : list X) :
  (forall x d, P d -> steps d (fst (body x d))) ->
  (forall d d', P d -> steps d d' -> P d') ->
  forall count d, P d -> steps d (fst (for_each body l count d)).
Proof.
  intros Hbody HP. induction l as [| x rest IH]; intros count d Hd.
  - apply steps_refl.
  - cbn [for_each]. unfold bind. specialize (Hbody x d Hd).
    destruct (body x d) as [d1 [b | e]]; cbn [fst] in *; [| exact Hbody].
    eapply steps_trans; [exact Hbody |]. apply IH. eapply HP; eassumption.
Qed.

Lemma import_season_steps sy ey s d : steps d (fst (import_season sy ey s d)).
Proof.
  unfold import_season, bind, lift, get_season_by_year.
  destruct (let? v := dict_index "season" s in py_int v) as [y |];
    [| apply steps_refl].
  destruct ((y <? sy) || (y >? ey)); [apply steps_refl |].
  destruct (find _ (seasons d)) as [r |] eqn:Hfind; [apply steps_refl |].
  destruct (let? w := valid_opt_str (dict_get "url" s) in _) as [sc |] eqn:Hsc;
    [| apply steps_refl].
  cbn. apply steps_one. apply step_season.
  bindR_ok Hsc. cbn. now apply find_season_none.
Qed.

Lemma import_circuit_steps c d : steps d (fst (import_circuit c d)).
Proof.
  unfold import_circuit, bind, lift, get_circuit_by_reference.
  destruct (let? v := dict_index "circuitId" c in bind_param v) as [reference |];
    [| apply steps_refl].
  destruct (find _ (circuits d)) as [r |] eqn:Hfind; [apply steps_refl |].
  destruct (build_circuit_create reference c) as [cc |] eqn:Hcc;
    [| apply steps_refl].
  cbn. apply steps_one. apply (step_circuit d cc reference).
  - now apply build_circuit_create_reference with (c := c).
  - unfold circuit_refs.
    now apply (find_ref_none (fun r => CircuitCreate.reference (fields r))).
Qed.

Lemma import_driver_steps c d : steps d (fst (import_driver c d)).
Proof.
  unfold import_driver, bind, lift, get_driver_by_reference.
  destruct (let? v := dict_index "driverId" c in bind_param v) as [reference |];
    [| apply steps_refl].
  destruct (find _ (drivers d)) as [r |] eqn:Hfind; [apply steps_refl |].
  destruct (build_driver_create reference c) as [cc |] eqn:Hcc;
    [| apply steps_refl].
  cbn. apply steps_one. apply (step_driver d cc reference).
  - now apply build_driver_create_reference with (c := c).
  - unfold driver_refs.
    now apply (find_ref_none (fun r => DriverCreate.reference (fields r))).
Qed.

Lemma import_team_steps c d : steps d (fst (import_team c d)).
Proof.
  unfold import_team, bind, lift, get_team_by_reference.
  destruct (let? v := dict_index "constructorId" c in bind_param v) as [reference |];
    [| apply steps_refl].
  destruct (find _ (teams d)) as [r |] eqn:Hfind; [apply steps_refl |].
  destruct (build_team_create reference c) as [cc |] eqn:Hcc;
    [| apply steps_refl].
  cbn. apply steps_one. apply (step_team d cc reference).
  - now apply build_team_create_reference with (c := c).
  - unfold team_refs.
    now apply (find_ref_none (fun r => TeamCreate.reference (fields r))).
Qed.

Lemma import_team_driver_steps y p d : steps d (fst (import_team_driver y p d)).
Proof.
  unfold import_team_driver. destruct p as [dref tref].
  unfold bind, lift, get_driver_by_reference, get_team_by_reference,
    query_team_driver.
  destruct (bind_param dref) as [dr |]; [| apply steps_refl].
  cbv beta iota.
  destruct (bind_param tref) as [tr |]; [| apply steps_refl].
  cbv beta iota.
  destruct (find _ (drivers d)) as [driver |] eqn:Hd; cbv beta iota;
    [| apply steps_refl].
  destruct (find _ (teams d)) as [team |] eqn:Ht; [| apply steps_refl].
  destruct (find _ (team_drivers d)) as [r |] eqn:Hfind; [apply steps_refl |].
  cbn. apply steps_one. apply step_team_driver; cbn.
  - unfold team_driver_keys. intro Hin. apply in_map_iff in Hin.
    destruct Hin as (r & Hkey & Hr). apply (find_none _ _ Hfind) in Hr.
    unfold team_driver_key in Hkey. injection Hkey as H1 H2 H3.
    rewrite H1, H2, H3, !Z.eqb_refl in Hr. discriminate.
  - eapply find_in_ids. eassumption.
  - eapply find_in_ids. eassumption.
Qed.

Lemma add_sessions_steps (l : list SessionCreate.t) round_id :
  Forall (fun s => SessionCreate.round_id s = round_id) l ->
  forall d, In round_id (ids (rounds d)) -> steps d (add_sessions l d).
Proof.
  induction 1 as [| s rest Hs _ IH]; intros d Hin; [apply steps_refl |].
  cbn [add_sessions]. eapply steps_trans; [| apply IH; exact Hin].
  apply steps_one. cbn. apply step_session. now rewrite Hs.
Qed.

Lemma import_sessions_steps up y n round_id d :
  In round_id (ids (rounds d)) ->
  steps d (fst (import_sessions_for_round up y n round_id d)).
Proof.
  intro Hin.
  destruct (import_sessions_plans up y n round_id) as (l & r & [Hr Hc] & Hl).
  rewrite (Hc d Hin). cbn [fst].
  apply add_sessions_steps with (round_id := round_id); [exact Hr | exact Hin].
Qed.

Lemma import_round_steps up y season race d :
  In (id season) (ids (seasons d)) ->
  steps d (fst (import_round up y season race d)).
Proof.
  intro Hseason.
  destruct (import_round up y season race d) as [d' res] eqn:Hrun. cbn [fst].
  unfold import_round in Hrun.
  match type of Hrun with
  | context [bind (match _ with Some c0 => ret c0 | None => _ end) ?K] =>
      set (k := K) in Hrun
  end.
  unfold dict_index at 1 in Hrun.
  destruct (dict_get "Circuit" race) as [cj |] eqn:Hc;
    [| injection Hrun as <- _; apply steps_refl].
  unfold bind at 1, lift at 1 in Hrun.
  destruct (let? v := json_index "circuitId" cj in bind_param v)
    as [reference |] eqn:Href; [| injection Hrun as <- _; apply steps_refl].
  unfold bind at 1, lift at 1 in Hrun.
  unfold bind at 1, get_circuit_by_reference at 1 in Hrun.
  (* the circuit, found or created, is in the store [d1] that follows *)
  assert (Hcircuit :
            steps d d' \/
            exists d1 (c : row CircuitCreate.t),
              k c d1 = (d', res) /\ steps d d1 /\
              In (id c) (ids (circuits d1)) /\ seasons d1 = seasons d).
  { destruct (find _ (circuits d)) as [c |] eqn:Hfind.
    - unfold bind at 1, ret at 1 in Hrun. right.
      exists d, c. split; [exact Hrun |]. split; [apply steps_refl |].
      split; [eapply find_in_ids; eassumption | reflexivity].
    - unfold bind at 1, bind at 1, lift at 1 in Hrun.
      destruct (match cj with
                | JStr _ => Raise TypeError
                | JObj cd => build_circuit_create reference cd
                end) as [cc |] eqn:Hcc;
        [| injection Hrun as <- _; left; apply steps_refl].
      unfold create_circuit at 1, insert in Hrun. cbv beta iota zeta in Hrun.
      right. eexists _, _. split; [exact Hrun |].
      destruct cj as [| cd]; [discriminate |].
      split; [| split; [apply in_ids_last | reflexivity]].
      apply steps_one. apply (step_circuit d cc reference).
      + now apply build_circuit_create_reference with (c := cd).
      + unfold circuit_refs.
        now apply (find_ref_none (fun r => CircuitCreate.reference (fields r))). }
  clear Hrun. destruct Hcircuit as [Hdone | (d1 & c & Hrun & Hsteps & Hcin & Hs1)];
    [exact Hdone |].
  eapply steps_trans; [exact Hsteps |]. clear Hsteps.
  rewrite <- Hs1 in Hseason. clear Hs1 d.
  subst k. cbv beta in Hrun.
  unfold bind at 1, lift at 1, dict_index in Hrun.
  destruct (dict_get "round" race) as [round |] eqn:Hr;
    [| injection Hrun as <- _; apply steps_refl].
  unfold bind at 1, get_round_by_reference at 1 in Hrun.
  destruct (find _ (rounds d1)) as [r |] eqn:Hfind;
    [unfold ret in Hrun; injection Hrun as <- _; apply steps_refl |].
  unfold bind at 1, lift at 1 in Hrun.
  match type of Hrun with
  | context [match ?x with Ok _ => _ | Raise _ => _ end] =>
      destruct x as [rc |] eqn:Hrc; [| injection Hrun as <- _; apply steps_refl]
  end.
  unfold bind at 1, create_round at 1, insert in Hrun.
  cbv beta iota zeta in Hrun.
  assert (Hstep : step d1 (with_rounds (rounds d1 ++ [mkrow (next_id (rounds d1)) rc])
                                       d1)).
  { bindR_ok Hrc.
    eapply step_round; cbn; [reflexivity | | exact Hseason | exact Hcin].
    unfold round_refs.
    now apply (find_ref_none (fun r => RoundCreate.reference (fields r))). }
  eapply steps_trans; [apply steps_one; exact Hstep |].
  unfold bind at 1, lift at 1 in Hrun.
  destruct (py_int round) as [round_num |];
    [| injection Hrun as <- _; apply steps_refl].
  unfold bind at 1 in Hrun.
  match type of Hrun with
  | context [import_sessions_for_round ?u ?yy ?n ?i ?st] =>
      pose proof (import_sessions_steps u yy n i st) as Hsess;
      destruct (import_sessions_for_round u yy n i st) as [d2 [cnt | e]]
  end.
  - unfold ret in Hrun. injection Hrun as <- _. apply Hsess.
    cbn [rounds id].
    apply (in_ids_last (rounds d1) (mkrow (next_id (rounds d1)) rc)).
  - injection Hrun as <- _. apply Hsess.
    cbn [rounds id].
    apply (in_ids_last (rounds d1) (mkrow (next_id (rounds d1)) rc)).
Qed.

Lemma steps_seasons_in a b x :
  steps a b -> In x (ids (seasons a)) -> In x (ids (seasons b)).
Proof. intros H. apply ids_grows. apply (steps_extends a b H). Qed.

Lemma import_seasons_steps up sy ey d : steps d (fst (import_seasons up sy ey d)).
Proof.
  unfold import_seasons.
  apply (steps_for_each (fun _ => True)); auto. intros. apply import_season_steps.
Qed.

Lemma import_circuits_steps up d : steps d (fst (import_circuits up d)).
Proof.
  unfold import_circuits.
  apply (steps_for_each (fun _ => True)); auto. intros. apply import_circuit_steps.
Qed.

Lemma import_drivers_steps up d : steps d (fst (import_drivers up d)).
Proof.
  unfold import_drivers.
  apply (steps_for_each (fun _ => True)); auto. intros. apply import_driver_steps.
Qed.

Lemma import_teams_steps up d : steps d (fst (import_teams up d)).
Proof.
  unfold import_teams.
  apply (steps_for_each (fun _ => True)); auto. intros. apply import_team_steps.
Qed.

Lemma import_team_drivers_steps up y d :
  steps d (fst (import_team_drivers_for_season up y d)).
Proof.
  unfold import_team_drivers_for_season.
  apply (steps_for_each (fun _ => True)); auto.
  intros. apply import_team_driver_steps.
Qed.

Lemma import_rounds_steps up y d :
  steps d (fst (import_rounds_for_season up y d)).
Proof.
  unfold import_rounds_for_season, bind, get_season_by_year.
  destruct (find _ (seasons d)) as [season |] eqn:Hfind; [| apply steps_refl].
  apply (steps_for_each (fun d0 => In (id season) (ids (seasons d0)))).
  - intros. now apply import_round_steps.
  - intros d0 d1 Hin Hst. eapply steps_seasons_in; eassumption.
  - eapply find_in_ids. eassumption.
Qed.

Lemma import_years_steps up years :
  forall r t d, steps d (fst (import_years up years r t d)).
Proof.
  induction years as [| y rest IH]; intros r t d; [apply steps_refl |].
  cbn [import_years]. unfold bind.
  pose proof (import_rounds_steps up y d) as H1.
  destruct (import_rounds_for_season up y d) as [d1 [n1 | e]]; cbn [fst] in *;
    [| exact H1].
  pose proof (import_team_drivers_steps up y d1) as H2.
  destruct (import_team_drivers_for_season up y d1) as [d2 [n2 | e]];
    cbn [fst] in *; [| eapply steps_trans; eassumption].
  eapply steps_trans; [exact H1 |]. eapply steps_trans; [exact H2 |]. apply IH.
Qed.

Lemma import_all_steps up sy ey d : steps d (fst (import_all_f1_data up sy ey d)).
Proof.
  unfold import_all_f1_data, bind.
  pose proof (import_seasons_steps up sy (Some (default_end_year up ey)) d) as H1.
  destruct (import_seasons up sy (Some (default_end_year up ey)) d)
    as [d1 [n1 | e]]; cbn [fst] in *; [| exact H1].
  eapply steps_trans; [exact H1 |]. clear H1.
  pose proof (import_circuits_steps up d1) as H1.
  destruct (import_circuits up d1) as [d2 [n2 | e]]; cbn [fst] in *; [| exact H1].
  eapply steps_trans; [exact H1 |]. clear H1.
  pose proof (import_drivers_steps up d2) as H1.
  destruct (import_drivers up d2) as [d3 [n3 | e]]; cbn [fst] in *; [| exact H1].
  eapply steps_trans; [exact H1 |]. clear H1.
  pose proof (import_teams_steps up d3) as H1.
  destruct (import_teams up d3) as [d4 [n4 | e]]; cbn [fst] in *; [| exact H1].
  eapply steps_trans; [exact H1 |]. clear H1.
  pose proof (import_years_steps up (year_range sy (default_end_year up ey)) 0 0 d4)
    as H1.
  destruct (import_years up (year_range sy (default_end_year up ey)) 0 0 d4)
    as [d5 [n5 | e]]; cbn [fst] in *; exact H1.
Qed.

Lemma import_run_steps up d d' : import_run up d d' -> steps d d'.
Proof.
  intro H. destruct H.
  - apply import_seasons_steps.
  - apply import_circuits_steps.
  - apply import_drivers_steps.
  - apply import_teams_steps.
  - apply import_rounds_steps.
  - now apply import_sessions_steps.
  - apply import_team_drivers_steps.
  - apply import_all_steps.
Qed.

(** ** Store invariants kept by every import run *)

(** X2. Natural keys stay unique: a run of any import routine never adds a
    Season whose year, a Circuit, Driver, Team or Round whose reference, or
    a team-driver pairing whose (team, driver, year) the store already
    holds, so the unique constraints on year and reference cannot fire. *)
Theorem import_keeps_natural_keys_unique :
  forall (up : upstream) (d d' : db),
    import_run up d d' -> natural_keys_unique d -> natural_keys_unique d'.
Proof.
  intros up d d' Hrun.
  apply (steps_preserve natural_keys_unique step_natural_keys_unique).
  now apply import_run_steps with (up := up).
Qed.

(** X3. Foreign keys stay resolvable: if every Round names a Season and a
    Circuit of the store, every Session a Round and every pairing a Team
    and a Driver, the same holds after a run of any import routine; a Round
    is only inserted after its Circuit, a Session after its Round. *)
Theorem import_keeps_foreign_keys :
  forall (up : upstream) (d d' : db),
    import_run up d d' -> foreign_keys_resolve d -> foreign_keys_resolve d'.
Proof.
  intros up d d' Hrun.
  apply (steps_preserve foreign_keys_resolve step_foreign_keys).
  now apply import_run_steps with (up := up).
Qed.

Lemma empty_db_natural_keys_unique : natural_keys_unique empty_db.
Proof. repeat split; constructor. Qed.

Lemma empty_db_foreign_keys : foreign_keys_resolve empty_db.
Proof. split; [| split]; intros r []. Qed.

(** X2, witness: the whole import into an empty store. *)
Lemma import_keeps_natural_keys_unique_witness :
  natural_keys_unique (fst (import_all_f1_data up_full 2021 (Some 2021) empty_db)).
Proof.
  apply (import_keeps_natural_keys_unique up_full empty_db).
  - apply run_all.
  - apply empty_db_natural_keys_unique.
Defined.

(** X3, witness: the whole import into an empty store. *)
Lemma import_keeps_foreign_keys_witness :
  foreign_keys_resolve (fst (import_all_f1_data up_full 2021 (Some 2021) empty_db)).
Proof.
  apply (import_keeps_foreign_keys up_full empty_db).
  - apply run_all.
  - apply empty_db_foreign_keys.
Defined.

(** ** Idempotence of the pairings and of the whole import *)

Lemma later_refl d : later d d.
Proof. repeat split; try reflexivity; apply grows_refl. Qed.

Lemma later_trans a b c : later a b -> later b c -> later a c.
Proof.
  intros (H1 & H2 & H3 & H4) (K1 & K2 & K3 & K4).
  split; [congruence |]. split; [congruence |]. split; [congruence |].
  eapply extends_trans; eassumption.
Qed.

Ltac later_create :=
  intro d; unfold later, extends; cbn; repeat split;
  first [apply grows_refl | apply grows_app].

Lemma later_create_circuit s : keeps later (create_circuit s).
Proof. later_create. Qed.
Lemma later_create_round s : keeps later (create_round s).
Proof. later_create. Qed.
Lemma later_create_session s : keeps later (create_session s).
Proof.
  intro d. unfold create_session.
  destruct (existsb _ _); [| apply later_refl].
  unfold later, extends; cbn; repeat split;
    first [apply grows_refl | apply grows_app].
Qed.
Lemma later_create_team_driver s : keeps later (create_team_driver s).
Proof. later_create. Qed.

Ltac later_step :=
  first
    [ apply (keeps_ret later later_refl)
    | apply (keeps_lift later later_refl)
    | apply (keeps_read later later_refl)
    | apply later_create_circuit | apply later_create_round
    | apply later_create_session | apply later_create_team_driver
    | apply (keeps_bind later later_trans); [| intro]
    | match goal with
      | |- keeps _ (match ?x with _ => _ end) => destruct x
      | |- keeps _ (if ?x then _ else _) => destruct x
      end ].

Lemma later_import_sessions up y n i :
  keeps later (import_sessions_for_round up y n i).
Proof. unfold import_sessions_for_round. repeat later_step. Qed.

Lemma later_import_round up y s r : keeps later (import_round up y s r).
Proof.
  unfold import_round, get_circuit_by_reference, get_round_by_reference.
  repeat first [apply later_import_sessions | later_step].
Qed.

Lemma later_import_team_driver y p : keeps later (import_team_driver y p).
Proof.
  unfold import_team_driver, get_driver_by_reference, get_team_by_reference,
    query_team_driver.
  repeat later_step.
Qed.

Lemma later_for_each {X} (body : X -> M bool) (l : list X) (count : Z) :
  (forall x, keeps later (body x)) -> keeps later (for_each body l count).
Proof. intro H. apply (keeps_for_each later later_refl later_trans). exact H. Qed.

Lemma later_import_rounds up y : keeps later (import_rounds_for_season up y).
Proof.
  unfold import_rounds_for_season, get_season_by_year.
  repeat first [apply later_for_each; intro; apply later_import_round
               | later_step].
Qed.

Lemma later_import_team_drivers up y :
  keeps later (import_team_drivers_for_season up y).
Proof. apply later_for_each. intro. apply later_import_team_driver. Qed.

Lemma later_import_years up years :
  forall r t, keeps later (import_years up years r t).
Proof.
  induction years as [| y rest IH]; intros r t; simpl.
  - later_step.
  - repeat first [apply later_import_rounds | apply later_import_team_drivers
                 | apply IH | later_step].
Qed.

(** The loop lemmas of [Rerun], for a relation other than [extends]. *)
Section RerunIn.
Context {X : Type} (R : db -> db -> Prop) (body : X -> M bool)
        (done : X -> db -> Prop).
Hypothesis R_refl : forall d, R d d.
Hypothesis R_trans : forall a b c, R a b -> R b c -> R a c.
Hypothesis done_skips : forall x d, done x d -> body x d = (d, Ok false).
Hypothesis done_after : forall x d d' b, body x d = (d', Ok b) -> done x d'.
Hypothesis done_stays : forall x d d', done x d -> R d d' -> done x d'.
Hypothesis body_keeps : forall x, keeps R (body x).

Lemma for_each_all_done_in (l : list X) :
  forall count d d' n,
    for_each body l count d = (d', Ok n) -> Forall (fun x => done x d') l.
Proof.
  induction l as [| x rest IH]; intros count d d' n Hrun; [constructor |].
  cbn [for_each] in Hrun. unfold bind at 1 in Hrun.
  destruct (body x d) as [d1 [b |]] eqn:Hbody; [| discriminate].
  constructor.
  - apply (done_stays x d1); [eapply done_after; eassumption |].
    pose proof (keeps_for_each R R_refl R_trans body rest body_keeps
                  (if b then count + 1 else count) d1) as H.
    now rewrite Hrun in H.
  - eapply IH. eassumption.
Qed.

Lemma for_each_skips_in (l : list X) :
  forall count d,
    Forall (fun x => done x d) l -> for_each body l count d = (d, Ok count).
Proof.
  induction l as [| x rest IH]; intros count d Hall; [reflexivity |].
  inversion Hall as [| ? ? Hx Hrest]; subst.
  cbn [for_each]. unfold bind at 1. rewrite (done_skips x d Hx). now apply IH.
Qed.
End RerunIn.

Lemma done_team_driver_skips y p d :
  done_team_driver y p d -> import_team_driver y p d = (d, Ok false).
Proof.
  destruct p as [dref tref]. intros (dr & tr & Hdr & Htr & H). cbn [fst snd] in *.
  unfold import_team_driver, bind, lift, get_driver_by_reference,
    get_team_by_reference, query_team_driver.
  rewrite Hdr, Htr.
  destruct (find _ (drivers d)) as [driver |]; [| reflexivity].
  destruct (find _ (teams d)) as [team |]; [| reflexivity].
  unfold found in H. destruct (find _ (team_drivers d)); [reflexivity | congruence].
Qed.

Lemma done_team_driver_after y p d d' b :
  import_team_driver y p d = (d', Ok b) -> done_team_driver y p d'.
Proof.
  destruct p as [dref tref]. intro Hrun.
  unfold import_team_driver, bind, lift, get_driver_by_reference,
    get_team_by_reference, query_team_driver in Hrun.
  destruct (bind_param dref) as [dr |] eqn:Hdr; [| discriminate].
  cbv beta iota in Hrun.
  destruct (bind_param tref) as [tr |] eqn:Htr; [| discriminate].
  cbv beta iota in Hrun.
  exists dr, tr. cbn [fst snd]. split; [exact Hdr |]. split; [exact Htr |].
  destruct (find _ (drivers d)) as [driver |] eqn:Hd; cbv beta iota in Hrun.
  - destruct (find _ (teams d)) as [team |] eqn:Ht.
    + destruct (find _ (team_drivers d)) as [r |] eqn:Hfind.
      * unfold ret in Hrun. injection Hrun as <- _. rewrite Hd, Ht.
        unfold found. congruence.
      * unfold create_team_driver, insert, ret in Hrun. injection Hrun as <- _.
        cbn [drivers teams team_drivers]. rewrite Hd, Ht.
        apply found_last. cbn [fields TeamDriverCreate.team_id
                                 TeamDriverCreate.driver_id
                                 TeamDriverCreate.season_year].
        now rewrite !Z.eqb_refl.
    + unfold ret in Hrun. injection Hrun as <- _. now rewrite Hd, Ht.
  - unfold ret in Hrun. injection Hrun as <- _. now rewrite Hd.
Qed.

Lemma done_team_driver_stays y p d d' :
  done_team_driver y p d -> later d d' -> done_team_driver y p d'.
Proof.
  intros (dr & tr & Hdr & Htr & H) (_ & Hd & Ht & Hext).
  exists dr, tr. split; [exact Hdr |]. split; [exact Htr |].
  rewrite Hd, Ht.
  destruct (find _ (drivers d)) as [driver |]; [| exact I].
  destruct (find _ (teams d)) as [team |]; [| exact I].
  eapply found_grows; [apply Hext | exact H].
Qed.

Lemma import_team_drivers_done up y d d' n :
  import_team_drivers_for_season up y d = (d', Ok n) -> pairs_done up y d'.
Proof.
  unfold import_team_drivers_for_season, pairs_done.
  apply (for_each_all_done_in later _ (done_team_driver y) later_refl later_trans).
  - apply done_team_driver_after.
  - apply done_team_driver_stays.
  - apply later_import_team_driver.
Qed.

Lemma pairs_done_skips up y d :
  pairs_done up y d -> import_team_drivers_for_season up y d = (d, Ok 0).
Proof.
  unfold import_team_drivers_for_season, pairs_done.
  apply (for_each_skips_in _ (done_team_driver y)).
  apply done_team_driver_skips.
Qed.

Lemma pairs_done_stays up y d d' : pairs_done up y d -> later d d' -> pairs_done up y d'.
Proof.
  unfold pairs_done. intros H Hl. revert H. apply Forall_impl.
  intros p Hp. eapply done_team_driver_stays; eassumption.
Qed.

(** X4. The pairing import is idempotent: if a run of
    [import_team_drivers_for_season] returns, the same run on the store it
    left returns 0 and leaves that store as it is. *)
Theorem team_drivers_import_is_idempotent :
  forall (up : upstream) (season_year : Z) (d d' : db) (n : Z),
    import_team_drivers_for_season up season_year d = (d', Ok n) ->
    import_team_drivers_for_season up season_year d' = (d', Ok 0).
Proof.
  intros up season_year d d' n Hrun. apply pairs_done_skips.
  eapply import_team_drivers_done. eassumption.
Qed.

Lemma done_circuit_skips c d : done_circuit c d -> import_circuit c d = (d, Ok false).
Proof.
  intros (reference & Href & H).
  unfold import_circuit, bind, lift, get_circuit_by_reference, found in *.
  rewrite Href. destruct (find _ (circuits d)); [reflexivity | congruence].
Qed.

Lemma done_circuit_after c d d' b :
  import_circuit c d = (d', Ok b) -> done_circuit c d'.
Proof.
  intro Hrun.
  unfold import_circuit, bind, lift, get_circuit_by_reference in Hrun.
  destruct (let? v := dict_index "circuitId" c in bind_param v)
    as [reference |] eqn:Href; [| discriminate].
  exists reference. split; [exact Href |].
  destruct (find _ (circuits d)) as [r |] eqn:Hfind.
  - unfold ret in Hrun. injection Hrun as <- _. unfold found. congruence.
  - destruct (build_circuit_create reference c) as [cc |] eqn:Hcc;
      [| discriminate].
    unfold create_circuit, insert, ret in Hrun. injection Hrun as <- _.
    cbn [circuits]. apply found_last. cbn [fields].
    rewrite (build_circuit_create_reference _ _ _ Hcc). apply ref_eqb_refl.
Qed.

Lemma done_circuit_stays c d d' : done_circuit c d -> extends d d' -> done_circuit c d'.
Proof.
  intros (reference & Href & H) Hext. exists reference.
  split; [exact Href |]. eapply found_grows; [apply Hext | exact H].
Qed.

Lemma done_driver_skips c d : done_driver c d -> import_driver c d = (d, Ok false).
Proof.
  intros (reference & Href & H).
  unfold import_driver, bind, lift, get_driver_by_reference, found in *.
  rewrite Href. destruct (find _ (drivers d)); [reflexivity | congruence].
Qed.

Lemma done_driver_after c d d' b :
  import_driver c d = (d', Ok b) -> done_driver c d'.
Proof.
  intro Hrun.
  unfold import_driver, bind, lift, get_driver_by_reference in Hrun.
  destruct (let? v := dict_index "driverId" c in bind_param v)
    as [reference |] eqn:Href; [| discriminate].
  exists reference. split; [exact Href |].
  destruct (find _ (drivers d)) as [r |] eqn:Hfind.
  - unfold ret in Hrun. injection Hrun as <- _. unfold found. congruence.
  - destruct (build_driver_create reference c) as [cc |] eqn:Hcc;
      [| discriminate].
    unfold create_driver, insert, ret in Hrun. injection Hrun as <- _.
    cbn [drivers]. apply found_last. cbn [fields].
    rewrite (build_driver_create_reference _ _ _ Hcc). apply ref_eqb_refl.
Qed.

Lemma done_driver_stays c d d' : done_driver c d -> extends d d' -> done_driver c d'.
Proof.
  intros (reference & Href & H) Hext. exists reference.
  split; [exact Href |]. eapply found_grows; [apply Hext | exact H].
Qed.

Lemma done_team_skips c d : done_team c d -> import_team c d = (d, Ok false).
Proof.
  intros (reference & Href & H).
  unfold import_team, bind, lift, get_team_by_reference, found in *.
  rewrite Href. destruct (find _ (teams d)); [reflexivity | congruence].
Qed.

Lemma done_team_after c d d' b :
  import_team c d = (d', Ok b) -> done_team c d'.
Proof.
  intro Hrun.
  unfold import_team, bind, lift, get_team_by_reference in Hrun.
  destruct (let? v := dict_index "constructorId" c in bind_param v)
    as [reference |] eqn:Href; [| discriminate].
  exists reference. split; [exact Href |].
  destruct (find _ (teams d)) as [r |] eqn:Hfind.
  - unfold ret in Hrun. injection Hrun as <- _. unfold found. congruence.
  - destruct (build_team_create reference c) as [cc |] eqn:Hcc;
      [| discriminate].
    unfold create_team, insert, ret in Hrun. injection Hrun as <- _.
    cbn [teams]. apply found_last. cbn [fields].
    rewrite (build_team_create_reference _ _ _ Hcc). apply ref_eqb_refl.
Qed.

Lemma done_team_stays c d d' : done_team c d -> extends d d' -> done_team c d'.
Proof.
  intros (reference & Href & H) Hext. exists reference.
  split; [exact Href |]. eapply found_grows; [apply Hext | exact H].
Qed.

(** A loop that returned skips every record on any store that extends the
    one it left. *)
Section SkipLater.
Context {X : Type} (body : X -> M bool) (done : X -> db -> Prop).
Hypothesis done_skips : forall x d, done x d -> body x d = (d, Ok false).
Hypothesis done_after : forall x d d' b, body x d = (d', Ok b) -> done x d'.
Hypothesis done_stays : forall x d d', done x d -> extends d d' -> done x d'.
Hypothesis body_extends : forall x, keeps extends (body x).

Lemma for_each_skips_later (l : list X) count d d1 n d' :
  for_each body l count d = (d1, Ok n) -> extends d1 d' ->
  for_each body l 0 d' = (d', Ok 0).
Proof.
  intros Hrun Hext.
  apply (for_each_skips body done done_skips).
  pose proof (for_each_all_done body done done_after done_stays body_extends
                l count d d1 n Hrun) as Hall.
  revert Hall. apply Forall_impl. intros x Hx. eapply done_stays; eassumption.
Qed.
End SkipLater.

Lemma rounds_done_after up y d d' n :
  import_rounds_for_season up y d = (d', Ok n) -> rounds_done up y d'.
Proof.
  intro Hrun.
  pose proof (extends_import_rounds up y d) as Hext. rewrite Hrun in Hext.
  cbn [fst] in Hext.
  unfold import_rounds_for_season, bind, get_season_by_year in Hrun.
  unfold rounds_done.
  destruct (find _ (seasons d)) as [season |] eqn:Hfind.
  - rewrite (find_grows _ _ _ season (proj1 Hext) Hfind).
    revert Hrun.
    apply (for_each_all_done _ (done_round y)).
    + intros. eapply done_round_after. eassumption.
    + apply done_round_stays.
    + intro. apply extends_import_round.
  - unfold ret in Hrun. injection Hrun as <- _. now rewrite Hfind.
Qed.

Lemma rounds_done_skips up y d :
  rounds_done up y d -> import_rounds_for_season up y d = (d, Ok 0).
Proof.
  unfold rounds_done, import_rounds_for_season, bind, get_season_by_year.
  destruct (find _ (seasons d)) as [season |]; [| reflexivity].
  apply (for_each_skips _ (done_round y)).
  intros. now apply done_round_skips.
Qed.

Lemma rounds_done_stays up y d d' :
  rounds_done up y d -> later d d' -> rounds_done up y d'.
Proof.
  unfold rounds_done. intros H (Hs & _ & _ & Hext). rewrite Hs.
  destruct (find _ (seasons d)); [| exact I].
  revert H. apply Forall_impl. intros race Hr.
  eapply done_round_stays; eassumption.
Qed.

Lemma import_years_done up years :
  forall r t d d' res,
    import_years up years r t d = (d', Ok res) ->
    Forall (fun y => rounds_done up y d' /\ pairs_done up y d') years.
Proof.
  induction years as [| y rest IH]; intros r t d d' res Hrun; [constructor |].
  cbn [import_years] in Hrun. unfold bind at 1 in Hrun.
  destruct (import_rounds_for_season up y d) as [d1 [nr |]] eqn:Hr;
    [| discriminate].
  unfold bind at 1 in Hrun.
  destruct (import_team_drivers_for_season up y d1) as [d2 [nt |]] eqn:Ht;
    [| discriminate].
  pose proof (later_import_team_drivers up y d1) as L12. rewrite Ht in L12.
  pose proof (later_import_years up rest (r + nr) (t + nt) d2) as L2.
  rewrite Hrun in L2. cbn [fst] in L12, L2.
  constructor.
  - split.
    + apply (rounds_done_stays up y d1).
      * eapply rounds_done_after. eassumption.
      * eapply later_trans; eassumption.
    + apply (pairs_done_stays up y d2); [| exact L2].
      eapply import_team_drivers_done. eassumption.
  - eapply IH. eassumption.
Qed.

Lemma import_years_skips up years :
  forall r t d,
    Forall (fun y => rounds_done up y d /\ pairs_done up y d) years ->
    import_years up years r t d = (d, Ok (r, t)).
Proof.
  induction years as [| y rest IH]; intros r t d Hall; [reflexivity |].
  inversion Hall as [| ? ? [Hr Hp] Hrest]; subst.
  cbn [import_years]. unfold bind at 1. rewrite (rounds_done_skips up y d Hr).
  unfold bind at 1. rewrite (pairs_done_skips up y d Hp).
  rewrite !Z.add_0_r. now apply IH.
Qed.

(** X5. The whole import is idempotent: if [import_all_f1_data] returns, the
    same call on the store it left creates nothing, returns a count of zero
    for every entity and leaves that store as it is. *)
Theorem full_import_is_idempotent :
  forall (up : upstream) (start_year : Z) (end_year : option Z) (d d' : db)
         (n : counts),
    import_all_f1_data up start_year end_year d = (d', Ok n) ->
    import_all_f1_data up start_year end_year d' = (d', Ok no_counts).
Proof.
  intros up sy ey d d' n Hrun.
  unfold import_all_f1_data in *.
  set (e := default_end_year up ey) in *.
  unfold bind at 1 in Hrun.
  destruct (import_seasons up sy (Some e) d) as [d1 [n1 |]] eqn:H1;
    [| discriminate].
  unfold bind at 1 in Hrun.
  destruct (import_circuits up d1) as [d2 [n2 |]] eqn:H2; [| discriminate].
  unfold bind at 1 in Hrun.
  destruct (import_drivers up d2) as [d3 [n3 |]] eqn:H3; [| discriminate].
  unfold bind at 1 in Hrun.
  destruct (import_teams up d3) as [d4 [n4 |]] eqn:H4; [| discriminate].
  unfold bind at 1 in Hrun.
  destruct (import_years up (year_range sy e) 0 0 d4) as [d5 [rt |]] eqn:H5;
    [| discriminate].
  unfold ret in Hrun. injection Hrun as <- _.
  pose proof (extends_import_circuits up d1) as E12. rewrite H2 in E12.
  pose proof (extends_import_drivers up d2) as E23. rewrite H3 in E23.
  pose proof (extends_import_teams up d3) as E34. rewrite H4 in E34.
  pose proof (extends_import_years up (year_range sy e) 0 0 d4) as E45.
  rewrite H5 in E45. cbn [fst] in E12, E23, E34, E45.
  assert (E35 : extends d3 d5) by (eapply extends_trans; eassumption).
  assert (E25 : extends d2 d5) by (eapply extends_trans; eassumption).
  assert (E15 : extends d1 d5) by (eapply extends_trans; eassumption).
  assert (S1 : import_seasons up sy (Some e) d5 = (d5, Ok 0)).
  { unfold import_seasons in *.
    apply (for_each_skips_later _ (done_season sy (default_end_year up (Some e)))
             (done_season_skips _ _) (done_season_after _ _)
             (done_season_stays _ _) (extends_import_season _ _)
             _ _ _ _ _ _ H1 E15). }
  assert (S2 : import_circuits up d5 = (d5, Ok 0)).
  { unfold import_circuits in *.
    apply (for_each_skips_later _ done_circuit done_circuit_skips
             done_circuit_after done_circuit_stays extends_import_circuit
             _ _ _ _ _ _ H2 E25). }
  assert (S3 : import_drivers up d5 = (d5, Ok 0)).
  { unfold import_drivers in *.
    apply (for_each_skips_later _ done_driver done_driver_skips
             done_driver_after done_driver_stays extends_import_driver
             _ _ _ _ _ _ H3 E35). }
  assert (S4 : import_teams up d5 = (d5, Ok 0)).
  { unfold import_teams in *.
    apply (for_each_skips_later _ done_team done_team_skips
             done_team_after done_team_stays extends_import_team
             _ _ _ _ _ _ H4 E45). }
  assert (S5 : import_years up (year_range sy e) 0 0 d5 = (d5, Ok (0, 0))).
  { apply import_years_skips. eapply import_years_done. eassumption. }
  unfold bind. rewrite S1, S2, S3, S4, S5. reflexivity.
Qed.

(** X4, witness: the pairings of 2021, imported after the drivers and the
    teams, and imported again. *)
Lemma team_drivers_import_is_idempotent_witness :
  import_team_drivers_for_season up_full 2021
    (fst (import_team_drivers_for_season up_full 2021
            (fst (import_teams up_full (fst (import_drivers up_full empty_db))))))
  = (fst (import_team_drivers_for_season up_full 2021
            (fst (import_teams up_full (fst (import_drivers up_full empty_db))))),
     Ok 0).
Proof.
  apply (team_drivers_import_is_idempotent up_full 2021
           (fst (import_teams up_full (fst (import_drivers up_full empty_db))))
           _ 1).
  vm_compute. reflexivity.
Defined.

(** X5, witness: the import of 2021 into the empty store, and again. *)
Lemma full_import_is_idempotent_witness :
  import_all_f1_data up_full 2021 (Some 2021)
    (fst (import_all_f1_data up_full 2021 (Some 2021) empty_db))
  = (fst (import_all_f1_data up_full 2021 (Some 2021) empty_db), Ok no_counts).
Proof.
  apply (full_import_is_idempotent up_full 2021 (Some 2021) empty_db _
           (mkcounts 1 1 1 1 1 1)).
  vm_compute. reflexivity.
Defined.

(** ** The counts a run returns *)

Lemma same_refl {A} (f : db -> A) d : same f d d.
Proof. reflexivity. Qed.

Lemma same_trans {A} (f : db -> A) a b c : same f a b -> same f b c -> same f a c.
Proof. unfold same. congruence. Qed.

Ltac same_step :=
  first
    [ apply (keeps_ret (same _) (same_refl _))
    | apply (keeps_lift (same _) (same_refl _))
    | apply (keeps_read (same _) (same_refl _))
    | apply (keeps_bind (same _) (same_trans _)); [| intro]
    | apply (keeps_for_each (same _) (same_refl _) (same_trans _)); intro
    | match goal with
      | |- keeps _ (match ?x with _ => _ end) => destruct x
      | |- keeps _ (if ?x then _ else _) => destruct x
      end
    | (intro; reflexivity)
    | (intro; unfold create_session; destruct (existsb _ _); reflexivity) ].

Ltac same_run :=
  unfold import_seasons, import_season, import_circuits, import_circuit,
    import_drivers, import_driver, import_teams, import_team,
    import_rounds_for_season, import_round, import_sessions_for_round,
    import_team_drivers_for_season, import_team_driver,
    get_season_by_year, get_circuit_by_reference, get_driver_by_reference,
    get_team_by_reference, get_round_by_reference, query_team_driver;
  repeat same_step.

Lemma same_import_seasons up sy ey :
  keeps (same (fun d => (circuits d, drivers d, teams d, rounds d, team_drivers d)))
        (import_seasons up sy ey).
Proof. same_run. Qed.

Lemma same_import_circuits up :
  keeps (same (fun d => (seasons d, drivers d, teams d, rounds d, team_drivers d)))
        (import_circuits up).
Proof. same_run. Qed.

Lemma same_import_drivers up :
  keeps (same (fun d => (seasons d, circuits d, teams d, rounds d, team_drivers d)))
        (import_drivers up).
Proof. same_run. Qed.

Lemma same_import_teams up :
  keeps (same (fun d => (seasons d, circuits d, drivers d, rounds d, team_drivers d)))
        (import_teams up).
Proof. same_run. Qed.

Lemma same_create_circuit c : keeps (same rounds) (create_circuit c).
Proof. intro. reflexivity. Qed.

Lemma same_import_sessions up y n i :
  keeps (same rounds) (import_sessions_for_round up y n i).
Proof. same_run. Qed.

Lemma same_import_rounds up y :
  keeps (same team_drivers) (import_rounds_for_season up y).
Proof. same_run. Qed.

Lemma same_import_team_drivers up y :
  keeps (same rounds) (import_team_drivers_for_season up y).
Proof. same_run. Qed.

Lemma size_snoc {A} (t : table A) (r : row A) : size (t ++ [r]) = size t + 1.
Proof. unfold size. rewrite length_app. cbn [List.length]. lia. Qed.

Lemma size_created {A} (t t' : table A) :
  grows t t' -> size (created t t') = size t' - size t.
Proof.
  intros [added ->]. rewrite created_app. unfold size. rewrite length_app. lia.
Qed.

Lemma bind_ok {A B} (m : M A) (k : A -> M B) d d' b :
  bind m k d = (d', Ok b) ->
  exists d1 a, m d = (d1, Ok a) /\ k a d1 = (d', Ok b).
Proof.
  unfold bind. destruct (m d) as [d1 [a |]]; [| discriminate].
  intro H. now exists d1, a.
Qed.

(** A loop returns the count it was given plus the rows its bodies added. *)
Section Counting.
Context {X : Type} (sz : db -> Z) (body : X -> M bool).
Hypothesis body_counts :
  forall x d d' b, body x d = (d', Ok b) -> sz d' = sz d + counted b.

Lemma for_each_counts (l : list X) :
  forall count d d' n,
    for_each body l count d = (d', Ok n) -> sz d' + count = sz d + n.
Proof.
  induction l as [| x rest IH]; intros count d d' n Hrun.
  - cbn in Hrun. unfold ret in Hrun. injection Hrun as <- <-. reflexivity.
  - cbn [for_each] in Hrun. apply bind_ok in Hrun.
    destruct Hrun as (d1 & b & Hb & Hrest).
    apply body_counts in Hb. apply IH in Hrest.
    unfold counted in Hb. destruct b; lia.
Qed.
End Counting.

Lemma import_season_counts sy ey s d d' b :
  import_season sy ey s d = (d', Ok b) ->
  size (seasons d') = size (seasons d) + counted b.
Proof.
  unfold import_season, bind, lift, get_season_by_year. intro Hrun.
  destruct (let? v := dict_index "season" s in py_int v) as [y |];
    [| discriminate].
  cbv beta iota in Hrun.
  destruct ((y <? sy) || (y >? ey)).
  { unfold ret in Hrun. injection Hrun as <- <-. cbn. lia. }
  destruct (find _ (seasons d)).
  { unfold ret in Hrun. injection Hrun as <- <-. cbn. lia. }
  destruct (let? w := valid_opt_str (dict_get "url" s) in _) as [sc |];
    [| discriminate].
  unfold create_season, insert, ret in Hrun. injection Hrun as <- <-.
  cbn [seasons counted]. apply size_snoc.
Qed.

Lemma import_circuit_counts c d d' b :
  import_circuit c d = (d', Ok b) ->
  size (circuits d') = size (circuits d) + counted b.
Proof.
  unfold import_circuit, bind, lift, get_circuit_by_reference. intro Hrun.
  destruct (let? v := dict_index "circuitId" c in bind_param v)
    as [reference |]; [| discriminate].
  cbv beta iota in Hrun.
  destruct (find _ (circuits d)).
  { unfold ret in Hrun. injection Hrun as <- <-. cbn. lia. }
  destruct (build_circuit_create reference c); [| discriminate].
  unfold create_circuit, insert, ret in Hrun. injection Hrun as <- <-.
  cbn [circuits counted]. apply size_snoc.
Qed.

Lemma import_driver_counts c d d' b :
  import_driver c d = (d', Ok b) ->
  size (drivers d') = size (drivers d) + counted b.
Proof.
  unfold import_driver, bind, lift, get_driver_by_reference. intro Hrun.
  destruct (let? v := dict_index "driverId" c in bind_param v)
    as [reference |]; [| discriminate].
  cbv beta iota in Hrun.
  destruct (find _ (drivers d)).
  { unfold ret in Hrun. injection Hrun as <- <-. cbn. lia. }
  destruct (build_driver_create reference c); [| discriminate].
  unfold create_driver, insert, ret in Hrun. injection Hrun as <- <-.
  cbn [drivers counted]. apply size_snoc.
Qed.

Lemma import_team_counts c d d' b :
  import_team c d = (d', Ok b) ->
  size (teams d') = size (teams d) + counted b.
Proof.
  unfold import_team, bind, lift, get_team_by_reference. intro Hrun.
  destruct (let? v := dict_index "constructorId" c in bind_param v)
    as [reference |]; [| discriminate].
  cbv beta iota in Hrun.
  destruct (find _ (teams d)).
  { unfold ret in Hrun. injection Hrun as <- <-. cbn. lia. }
  destruct (build_team_create reference c); [| discriminate].
  unfold create_team, insert, ret in Hrun. injection Hrun as <- <-.
  cbn [teams counted]. apply size_snoc.
Qed.

Lemma import_team_driver_counts y p d d' b :
  import_team_driver y p d = (d', Ok b) ->
  size (team_drivers d') = size (team_drivers d) + counted b.
Proof.
  destruct p as [dref tref].
  unfold import_team_driver, bind, lift, get_driver_by_reference,
    get_team_by_reference, query_team_driver. intro Hrun.
  destruct (bind_param dref); [| discriminate]. cbv beta iota in Hrun.
  destruct (bind_param tref); [| discriminate]. cbv beta iota in Hrun.
  destruct (find _ (drivers d)); cbv beta iota in Hrun;
    [| unfold ret in Hrun; injection Hrun as <- <-; cbn; lia].
  destruct (find _ (teams d));
    [| unfold ret in Hrun; injection Hrun as <- <-; cbn; lia].
  destruct (find _ (team_drivers d)).
  { unfold ret in Hrun. injection Hrun as <- <-. cbn. lia. }
  unfold create_team_driver, insert, ret in Hrun. injection Hrun as <- <-.
  cbn [team_drivers counted]. apply size_snoc.
Qed.

Lemma import_round_counts up y season race d d' b :
  import_round up y season race d = (d', Ok b) ->
  size (rounds d') = size (rounds d) + counted b.
Proof.
  unfold import_round. intro Hrun.
  apply bind_ok in Hrun. destruct Hrun as (d1 & circuit_data & H1 & Hrun).
  unfold lift in H1. destruct (dict_index "Circuit" race) as [cdata |]; [| discriminate].
  injection H1 as <- <-.
  apply bind_ok in Hrun. destruct Hrun as (d1 & reference & H1 & Hrun).
  unfold lift in H1.
  destruct (let? v := json_index "circuitId" cdata in bind_param v)
    as [cref |]; [| discriminate].
  injection H1 as <- <-.
  apply bind_ok in Hrun. destruct Hrun as (d1 & found_circuit & H1 & Hrun).
  unfold get_circuit_by_reference in H1. injection H1 as <- <-.
  apply bind_ok in Hrun. destruct Hrun as (d1 & circuit & H1 & Hrun).
  assert (S1 : rounds d1 = rounds d).
  { assert (K : keeps (same rounds)
                  (match find (fun r => ref_eqb cref (CircuitCreate.reference (fields r)))
                           (circuits d) with
                   | Some c => ret c
                   | None =>
                       bind (lift (match cdata with
                                   | JObj cd => build_circuit_create cref cd
                                   | JStr _ => Raise TypeError
                                   end))
                            (fun circuit_create => create_circuit circuit_create)
                   end)) by repeat same_step.
    specialize (K d). rewrite H1 in K. exact K. }
  clear H1.
  apply bind_ok in Hrun. destruct Hrun as (d2 & round & H1 & Hrun).
  unfold lift in H1. destruct (dict_index "round" race) as [rnd |]; [| discriminate].
  injection H1 as <- <-.
  apply bind_ok in Hrun. destruct Hrun as (d2 & existing & H1 & Hrun).
  unfold get_round_by_reference in H1. injection H1 as <- <-.
  destruct (find _ (rounds d1)).
  { unfold ret in Hrun. injection Hrun as <- <-. rewrite S1. cbn. lia. }
  apply bind_ok in Hrun. destruct Hrun as (d2 & round_create & H1 & Hrun).
  unfold lift in H1.
  destruct (let? name := dict_index "raceName" race in _) as [rc |];
    [| discriminate].
  injection H1 as <- <-.
  apply bind_ok in Hrun. destruct Hrun as (d2 & round_obj & H1 & Hrun).
  unfold create_round, insert in H1. injection H1 as <- <-.
  apply bind_ok in Hrun. destruct Hrun as (d3 & round_num & H1 & Hrun).
  unfold lift in H1. destruct (py_int rnd) as [rnum |]; [| discriminate].
  injection H1 as <- <-.
  apply bind_ok in Hrun. destruct Hrun as (d3 & n & H1 & Hrun).
  unfold ret in Hrun. injection Hrun as <- <-.
  pose proof (same_import_sessions up y rnum
                (next_id (rounds d1))
                (mkdb (seasons d1) (circuits d1) (drivers d1) (teams d1)
                      (rounds d1 ++ [mkrow (next_id (rounds d1)) rc])
                      (sessions d1) (team_drivers d1))) as K.
  cbn [id] in H1. rewrite H1 in K. unfold same in K. cbn [fst rounds] in K.
  rewrite K, size_snoc, S1. reflexivity.
Qed.

Lemma import_rounds_counts up y d d' n :
  import_rounds_for_season up y d = (d', Ok n) ->
  size (rounds d') = size (rounds d) + n.
Proof.
  unfold import_rounds_for_season, bind, get_season_by_year. intro Hrun.
  destruct (find _ (seasons d)) as [season |].
  - apply (for_each_counts (fun d => size (rounds d))) in Hrun; [lia |].
    intros race. apply import_round_counts.
  - unfold ret in Hrun. injection Hrun as <- <-. lia.
Qed.

Lemma import_team_drivers_counts up y d d' n :
  import_team_drivers_for_season up y d = (d', Ok n) ->
  size (team_drivers d') = size (team_drivers d) + n.
Proof.
  unfold import_team_drivers_for_season. intro Hrun.
  apply (for_each_counts (fun d => size (team_drivers d))) in Hrun; [lia |].
  apply import_team_driver_counts.
Qed.

Lemma import_years_counts up years :
  forall r t d d' res,
    import_years up years r t d = (d', Ok res) ->
    size (rounds d') + r = size (rounds d) + fst res /\
    size (team_drivers d') + t = size (team_drivers d) + snd res.
Proof.
  induction years as [| y rest IH]; intros r t d d' res Hrun.
  - cbn in Hrun. unfold ret in Hrun. injection Hrun as <- <-. cbn. lia.
  - cbn [import_years] in Hrun.
    apply bind_ok in Hrun. destruct Hrun as (d1 & nr & Hr & Hrun).
    apply bind_ok in Hrun. destruct Hrun as (d2 & nt & Ht & Hrun).
    pose proof (same_import_rounds up y d) as S1. rewrite Hr in S1.
    pose proof (same_import_team_drivers up y d1) as S2. rewrite Ht in S2.
    unfold same in S1, S2. cbn [fst] in S1, S2.
    apply import_rounds_counts in Hr. apply import_team_drivers_counts in Ht.
    apply IH in Hrun. rewrite S1 in Ht. rewrite S2 in Hrun. lia.
Qed.

(** X6. The counts [import_all_f1_data] returns are the rows the run
    created: for seasons, drivers, teams, rounds and pairings the count is
    the number of rows added to the table; for circuits it is at most that
    number, since a circuit created while importing a round is not counted. *)
Theorem returned_counts_are_rows_created :
  forall (up : upstream) (start_year : Z) (end_year : option Z) (d d' : db)
         (n : counts),
    import_all_f1_data up start_year end_year d = (d', Ok n) ->
    n_seasons n = size (created (seasons d) (seasons d')) /\
    n_circuits n <= size (created (circuits d) (circuits d')) /\
    n_drivers n = size (created (drivers d) (drivers d')) /\
    n_teams n = size (created (teams d) (teams d')) /\
    n_rounds n = size (created (rounds d) (rounds d')) /\
    n_team_drivers n = size (created (team_drivers d) (team_drivers d')).
Proof.
  intros up sy ey d d' n Hrun.
  pose proof (extends_import_all up sy ey d) as Hext. rewrite Hrun in Hext.
  cbn [fst] in Hext.
  destruct Hext as (G1 & G2 & G3 & G4 & G5 & _ & G7).
  rewrite (size_created _ _ G1), (size_created _ _ G2), (size_created _ _ G3),
    (size_created _ _ G4), (size_created _ _ G5), (size_created _ _ G7).
  clear G1 G2 G3 G4 G5 G7.
  unfold import_all_f1_data in Hrun.
  set (e := default_end_year up ey) in *.
  apply bind_ok in Hrun. destruct Hrun as (d1 & n1 & H1 & Hrun).
  apply bind_ok in Hrun. destruct Hrun as (d2 & n2 & H2 & Hrun).
  apply bind_ok in Hrun. destruct Hrun as (d3 & n3 & H3 & Hrun).
  apply bind_ok in Hrun. destruct Hrun as (d4 & n4 & H4 & Hrun).
  apply bind_ok in Hrun. destruct Hrun as (d5 & rt & H5 & Hrun).
  unfold ret in Hrun. injection Hrun as <- <-.
  cbn [n_seasons n_circuits n_drivers n_teams n_rounds n_team_drivers].
  pose proof (same_import_seasons up sy (Some e) d) as S1. rewrite H1 in S1.
  pose proof (same_import_circuits up d1) as S2. rewrite H2 in S2.
  pose proof (same_import_drivers up d2) as S3. rewrite H3 in S3.
  pose proof (same_import_teams up d3) as S4. rewrite H4 in S4.
  pose proof (later_import_years up (year_range sy e) 0 0 d4) as S5.
  rewrite H5 in S5.
  unfold same in S1, S2, S3, S4. cbn [fst] in S1, S2, S3, S4, S5.
  destruct S5 as (L1 & L3 & L4 & _ & [added L2] & _).
  apply (f_equal size) in L2. unfold size at 2 in L2.
  rewrite length_app, Nat2Z.inj_add in L2. fold (size (circuits d4)) in L2.
  injection S1 as A2 A3 A4 A5 A7. injection S2 as B1 B3 B4 B5 B7.
  injection S3 as C1 C2 C4 C5 C7. injection S4 as D1 D2 D3 D5 D7.
  unfold import_seasons in H1. unfold import_circuits in H2.
  unfold import_drivers in H3. unfold import_teams in H4.
  apply (for_each_counts (fun d => size (seasons d)) _
           (import_season_counts sy _)) in H1.
  apply (for_each_counts (fun d => size (circuits d)) _
           import_circuit_counts) in H2.
  apply (for_each_counts (fun d => size (drivers d)) _
           import_driver_counts) in H3.
  apply (for_each_counts (fun d => size (teams d)) _
           import_team_counts) in H4.
  apply import_years_counts in H5. destruct H5 as [H5 H6].
  apply (f_equal size) in A2, A3, A4, A5, A7, B1, B3, B4, B5, B7, C1, C2, C4,
    C5, C7, D1, D2, D3, D5, D7, L1, L3, L4.
  lia.
Qed.

(** X6, witness: the import of 2021 into the empty store. *)
Lemma returned_counts_are_rows_created_witness :
  let d' := fst (import_all_f1_data up_full 2021 (Some 2021) empty_db) in
  1 = size (created (seasons empty_db) (seasons d')) /\
  1 <= size (created (circuits empty_db) (circuits d')) /\
  1 = size (created (drivers empty_db) (drivers d')) /\
  1 = size (created (teams empty_db) (teams d')) /\
  1 = size (created (rounds empty_db) (rounds d')) /\
  1 = size (created (team_drivers empty_db) (team_drivers d')).
Proof.
  apply (returned_counts_are_rows_created up_full 2021 (Some 2021) empty_db _
           (mkcounts 1 1 1 1 1 1)).
  vm_compute. reflexivity.
Defined.


(** ** Sessions are created for new rounds only *)

Lemma round_safe_refl d : round_safe d d.
Proof. split; [apply extends_refl | reflexivity]. Qed.

Lemma round_safe_trans a b c : round_safe a b -> round_safe b c -> round_safe a c.
Proof.
  intros [E1 U1] [E2 U2]. split; [eapply extends_trans; eassumption |].
  intros i Hi. rewrite U2, U1; [reflexivity | exact Hi |].
  destruct E1 as (_ & _ & _ & _ & [added ->] & _).
  unfold ids in *. rewrite map_app. apply in_or_app. now left.
Qed.

Ltac safe_create lem :=
  intro d; split; [apply lem | intros i _; reflexivity].

Lemma round_safe_create_season s : keeps round_safe (create_season s).
Proof. safe_create (extends_create_season s). Qed.
Lemma round_safe_create_circuit s : keeps round_safe (create_circuit s).
Proof. safe_create (extends_create_circuit s). Qed.
Lemma round_safe_create_driver s : keeps round_safe (create_driver s).
Proof. safe_create (extends_create_driver s). Qed.
Lemma round_safe_create_team s : keeps round_safe (create_team s).
Proof. safe_create (extends_create_team s). Qed.
Lemma round_safe_create_team_driver s : keeps round_safe (create_team_driver s).
Proof. safe_create (extends_create_team_driver s). Qed.

Lemma filter_none {A} (f : A -> bool) (l : list A) :
  Forall (fun x => f x = false) l -> filter f l = [].
Proof. induction 1 as [| x r Hx _ IH]; cbn; [reflexivity | now rewrite Hx]. Qed.

(** The round is created, then its sessions: the sessions all go to the key
    the new round was given, which no stored round has. *)
Lemma round_safe_create_round up y rc (num : result Z) :
  keeps round_safe
    (bind (create_round rc) (fun round_obj =>
     bind (lift num) (fun round_num =>
     bind (import_sessions_for_round up y round_num (id round_obj)) (fun _ =>
     ret true)))).
Proof.
  intro d. cbv beta iota zeta delta [bind create_round insert]. cbn [id].
  set (d2 := mkdb (seasons d) (circuits d) (drivers d) (teams d)
                  (rounds d ++ [mkrow (next_id (rounds d)) rc])
                  (sessions d) (team_drivers d)).
  assert (S2 : round_safe d d2).
  { split; [apply (extends_create_round rc d) | intros i _; reflexivity]. }
  unfold lift. destruct num as [round_num | e]; [| exact S2].
  unfold ret.
  assert (Hd2 : sessions d2 = sessions d) by reflexivity.
  pose proof (extends_import_sessions up y round_num (next_id (rounds d)) d2) as E.
  destruct (import_sessions_created up y round_num (next_id (rounds d)) d2)
    as (rows & Hs & Hrows).
  clearbody d2.
  destruct (import_sessions_for_round up y round_num (next_id (rounds d)) d2)
    as [d3 [n | e]]; cbn [fst] in *.
  all: split; [eapply extends_trans; [apply S2 | exact E] |].
  all: intros i Hi; unfold get_sessions_by_round; rewrite Hs, Hd2, filter_app.
  all: rewrite (filter_none _ rows); [apply app_nil_r |].
  all: revert Hrows; apply Forall_impl; intros r (_ & -> & _).
  all: apply Z.eqb_neq; intro Heq; rewrite <- Heq in Hi.
  all: exact (next_id_not_used (rounds d) Hi).
Qed.

Ltac safe_step :=
  first
    [ apply (keeps_ret round_safe round_safe_refl)
    | apply (keeps_lift round_safe round_safe_refl)
    | apply (keeps_read round_safe round_safe_refl)
    | apply round_safe_create_season | apply round_safe_create_circuit
    | apply round_safe_create_driver | apply round_safe_create_team
    | apply round_safe_create_team_driver
    | apply round_safe_create_round
    | apply (keeps_for_each round_safe round_safe_refl round_safe_trans); intro
    | apply (keeps_bind round_safe round_safe_trans); [| intro]
    | match goal with
      | |- keeps _ (match ?x with _ => _ end) => destruct x
      | |- keeps _ (if ?x then _ else _) => destruct x
      end ].

Lemma round_safe_import_rounds up y :
  keeps round_safe (import_rounds_for_season up y).
Proof.
  unfold import_rounds_for_season, import_round, get_season_by_year,
    get_circuit_by_reference, get_round_by_reference.
  repeat safe_step.
Qed.

Lemma round_safe_import_team_drivers up y :
  keeps round_safe (import_team_drivers_for_season up y).
Proof.
  unfold import_team_drivers_for_season, import_team_driver,
    get_driver_by_reference, get_team_by_reference, query_team_driver.
  repeat safe_step.
Qed.

Lemma round_safe_import_years up years :
  forall r t, keeps round_safe (import_years up years r t).
Proof.
  induction years as [| y rest IH]; intros r t; cbn [import_years].
  - safe_step.
  - repeat first [apply round_safe_import_rounds
                 | apply round_safe_import_team_drivers | apply IH | safe_step].
Qed.

Lemma round_safe_import_all up sy ey : keeps round_safe (import_all_f1_data up sy ey).
Proof.
  unfold import_all_f1_data, import_seasons, import_season, import_circuits,
    import_circuit, import_drivers, import_driver, import_teams, import_team,
    get_season_by_year, get_circuit_by_reference, get_driver_by_reference,
    get_team_by_reference.
  repeat first [apply round_safe_import_years | safe_step].
Qed.

(** X8. Sessions are created for new rounds only: a run of
    [import_rounds_for_season] or of [import_all_f1_data], whether it returns
    or raises, leaves the sessions of every round the store already held as
    they were. *)
Theorem stored_rounds_get_no_sessions :
  forall (up : upstream) (d : db) (round_id : Z),
    In round_id (ids (rounds d)) ->
    (forall season_year,
        get_sessions_by_round round_id
          (fst (import_rounds_for_season up season_year d))
        = get_sessions_by_round round_id d) /\
    (forall start_year end_year,
        get_sessions_by_round round_id
          (fst (import_all_f1_data up start_year end_year d))
        = get_sessions_by_round round_id d).
Proof.
  intros up d round_id Hin. split.
  - intro y. now apply (round_safe_import_rounds up y d).
  - intros sy ey. now apply (round_safe_import_all up sy ey d).
Qed.

(** X8, witness: 2022 imported into the store that holds the first round of
    2021. *)
Lemma stored_rounds_get_no_sessions_witness :
  snd (import_all_f1_data up_full 2022 (Some 2022)
         (fst (import_all_f1_data up_full 2021 (Some 2021) empty_db)))
  = Ok (mkcounts 1 0 0 0 1 1) /\
  get_sessions_by_round 1
    (fst (import_all_f1_data up_full 2022 (Some 2022)
            (fst (import_all_f1_data up_full 2021 (Some 2021) empty_db))))
  = get_sessions_by_round 1
      (fst (import_all_f1_data up_full 2021 (Some 2021) empty_db)).
Proof.
  split; [vm_compute; reflexivity |].
  refine (proj2 (stored_rounds_get_no_sessions up_full
                   (fst (import_all_f1_data up_full 2021 (Some 2021) empty_db))
                   1 _) 2022 (Some 2022)).
  vm_compute. left. reflexivity.
Defined.

(** ** Every created round gets its race session *)

Section Returns.
Variable R : db -> db -> Prop.
Hypothesis R_refl : forall d, R d d.
Hypothesis R_trans : forall a b c, R a b -> R b c -> R a c.



End Returns.

Lemma created_refl {A} (t : table A) : created t t = [].
Proof. rewrite <- (app_nil_r t) at 2. apply created_app. Qed.

Lemma created_trans {A} (a b c : table A) :
  grows a b -> grows b c -> created a c = created a b ++ created b c.
Proof.
  intros [x ->] [y ->].
  rewrite (created_app (a ++ x) y), (created_app a x), <- app_assoc.
  apply created_app.
Qed.












Lemma same_sessions_import_circuits up :
  keeps (same (fun d => (rounds d, sessions d))) (import_circuits up).
Proof. same_run. Qed.
Lemma same_sessions_import_drivers up :
  keeps (same (fun d => (rounds d, sessions d))) (import_drivers up).
Proof. same_run. Qed.
Lemma same_sessions_import_teams up :
  keeps (same (fun d => (rounds d, sessions d))) (import_teams up).
Proof. same_run. Qed.






(** ** Created rounds are linked to their season and circuit *)

Lemma round_of_race_grows up y season d d' r :
  round_of_race up y season d r -> extends d d' -> round_of_race up y season d' r.
Proof.
  intros (race & round & cdata & cref & c & H1 & H2 & H3 & H4 & H5 & H) E.
  exists race, round, cdata, cref, c.
  repeat (split; [assumption |]). split; [| exact H].
  eapply find_grows; [apply E | exact H5].
Qed.

Lemma links_rounds_refl up y season d : links_rounds up y season d d.
Proof. split; [apply extends_refl |]. rewrite created_refl. constructor. Qed.

Lemma links_rounds_trans up y season a b c :
  links_rounds up y season a b -> links_rounds up y season b c ->
  links_rounds up y season a c.
Proof.
  intros [E1 F1] [E2 F2]. split; [eapply extends_trans; eassumption |].
  rewrite (created_trans (rounds a) (rounds b) (rounds c));
    [| apply E1 | apply E2].
  apply Forall_app. split; [| exact F2].
  revert F1. apply Forall_impl. intros r Hr.
  eapply round_of_race_grows; eassumption.
Qed.

Lemma find_snoc {A} (f : A -> bool) (t : list A) (r : A) :
  find f t = None -> f r = true -> find f (t ++ [r]) = Some r.
Proof.
  intros Hn Hr. induction t as [| a rest IH]; cbn [app find] in *.
  - now rewrite Hr.
  - destruct (f a); [discriminate | now apply IH].
Qed.

Lemma round_create_fields race round reference sid cid rc :
  (let? name := dict_index "raceName" race in
   let? round_number := py_int round in
   let? date := parse_date (dict_get "date" race) in
   let? name := valid_str name in
   let? date := valid_date_field date in
   let? time := valid_opt_str (dict_get "time" race) in
   let? wikipedia := valid_opt_str (dict_get "url" race) in
   Ok (RoundCreate.mk (Some reference) name round_number date time wikipedia
                      sid cid)) = Ok rc ->
  RoundCreate.reference rc = Some reference /\
  py_int round = Ok (RoundCreate.round_number rc) /\
  parse_date (dict_get "date" race) = Ok None /\
  RoundCreate.date rc = None /\
  RoundCreate.season_id rc = sid /\ RoundCreate.circuit_id rc = cid.
Proof.
  unfold bindR. intro H.
  destruct (dict_index "raceName" race); [| discriminate].
  destruct (py_int round); [| discriminate].
  destruct (parse_date (dict_get "date" race)) as [date |]; [| discriminate].
  destruct (valid_str _); [| discriminate].
  destruct date as [date |]; [discriminate |]. cbn [valid_date_field] in H.
  destruct (valid_opt_str (dict_get "time" race)); [| discriminate].
  destruct (valid_opt_str (dict_get "url" race)); [| discriminate].
  injection H as <-. cbn. repeat split.
Qed.

Lemma import_round_links up y season race d :
  In race (fetch_races up y) ->
  links_rounds up y season d (fst (import_round up y season race d)).
Proof.
  intro Hin. split; [apply extends_import_round |].
  destruct (import_round up y season race d) as [d' res] eqn:Hrun. cbn [fst].
  unfold import_round in Hrun.
  match type of Hrun with
  | context [bind (match _ with Some c0 => ret c0 | None => _ end) ?K] =>
      set (k := K) in Hrun
  end.
  destruct (dict_index "Circuit" race) as [cdata |] eqn:Hc;
    [| injection Hrun as <- _; rewrite created_refl; constructor].
  unfold bind at 1, lift at 1 in Hrun.
  destruct (let? v := json_index "circuitId" cdata in bind_param v)
    as [cref |] eqn:Href;
    [| injection Hrun as <- _; rewrite created_refl; constructor].
  unfold bind at 1, lift at 1 in Hrun.
  unfold bind at 1, get_circuit_by_reference at 1 in Hrun.
  (* the circuit, found or created, is the one the store [d1] finds *)
  assert (Hcircuit :
            rounds d' = rounds d \/
            exists d1 (c : row CircuitCreate.t),
              k c d1 = (d', res) /\ rounds d1 = rounds d /\
              find (fun x => ref_eqb cref (CircuitCreate.reference (fields x)))
                   (circuits d1) = Some c).
  { destruct (find _ (circuits d)) as [c |] eqn:Hfind.
    - unfold bind at 1, ret at 1 in Hrun. right.
      exists d, c. split; [exact Hrun |]. split; [reflexivity | exact Hfind].
    - unfold bind at 1, bind at 1, lift at 1 in Hrun.
      destruct (match cdata with
                | JStr _ => Raise TypeError
                | JObj cd => build_circuit_create cref cd
                end) as [cc |] eqn:Hcc;
        [| injection Hrun as <- _; now left].
      unfold create_circuit at 1, insert in Hrun. cbv beta iota zeta in Hrun.
      right. eexists _, _. split; [exact Hrun |]. split; [reflexivity |].
      cbn [circuits]. apply find_snoc; [exact Hfind |]. cbn [fields].
      destruct cdata as [| cd]; [discriminate |].
      rewrite (build_circuit_create_reference _ _ _ Hcc). apply ref_eqb_refl. }
  clear Hrun.
  destruct Hcircuit as [Hsame | (d1 & c & Hrun & Hr1 & Hfc)];
    [rewrite Hsame, created_refl; constructor |].
  rewrite <- Hr1. clear Hr1 d.
  subst k. cbv beta in Hrun.
  unfold bind at 1, lift at 1 in Hrun.
  destruct (dict_index "round" race) as [round |] eqn:Hr;
    [| injection Hrun as <- _; rewrite created_refl; constructor].
  unfold bind at 1, get_round_by_reference at 1 in Hrun.
  destruct (find _ (rounds d1)) as [r |] eqn:Hfind;
    [unfold ret in Hrun; injection Hrun as <- _; rewrite created_refl;
     constructor |].
  unfold bind at 1, lift at 1 in Hrun.
  match type of Hrun with
  | context [match ?x with Ok _ => _ | Raise _ => _ end] =>
      destruct x as [rc |] eqn:Hrc;
        [| injection Hrun as <- _; rewrite created_refl; constructor]
  end.
  apply round_create_fields in Hrc.
  destruct Hrc as (F1 & F2 & F3 & F4 & F5).
  unfold bind at 1, create_round at 1, insert in Hrun.
  cbv beta iota zeta in Hrun.
  assert (Hrow : forall d2, rounds d2 = rounds d1 ++ [mkrow (next_id (rounds d1)) rc] ->
                            circuits d2 = circuits d1 ->
                            Forall (round_of_race up y season d2)
                                   (created (rounds d1) (rounds d2))).
  { intros d2 H2 C2. rewrite H2, created_app. constructor; [| constructor].
    exists race, round, cdata, cref, c. cbn [fields]. rewrite C2.
    repeat (split; [assumption |]). assumption. }
  unfold bind at 1, lift at 1 in Hrun.
  destruct (py_int round) as [round_num |];
    [| injection Hrun as <- _; now apply Hrow].
  unfold bind at 1 in Hrun.
  match type of Hrun with
  | context [import_sessions_for_round ?u ?yy ?n ?i ?st] =>
      pose proof (import_sessions_frame u yy n i st) as (Hfc' & Hfr & _);
      destruct (import_sessions_for_round u yy n i st) as [d2 [cnt | e]]
  end; cbn [fst] in *.
  - unfold ret in Hrun. injection Hrun as <- _. now apply Hrow.
  - injection Hrun as <- _. now apply Hrow.
Qed.

Section KeepsIn.
Context (R : db -> db -> Prop) {X : Type} (body : X -> M bool).
Hypothesis R_refl : forall d, R d d.
Hypothesis R_trans : forall a b c, R a b -> R b c -> R a c.

Lemma keeps_for_each_in (l : list X) :
  (forall x, In x l -> keeps R (body x)) ->
  forall count, keeps R (for_each body l count).
Proof.
  induction l as [| x rest IH]; intros Hbody count; cbn [for_each].
  - apply (keeps_ret R R_refl).
  - apply (keeps_bind R R_trans); [apply Hbody; now left |].
    intro b. apply IH. intros z Hz. apply Hbody. now right.
Qed.
End KeepsIn.

(** X10. Created rounds are linked to their season and circuit: whether
    [import_rounds_for_season] returns or raises, each round it created
    carries the reference and the number of one race of the year's list, a
    race that gives no date that parses, and so no date; it has the id of
    the year's Season row as season_id, and as circuit_id the id of the
    Circuit row that the store finds for the circuitId of that race. *)
Theorem created_rounds_are_linked :
  forall (up : upstream) (season_year : Z) (d : db) (season : row SeasonCreate.t),
    find (fun r => SeasonCreate.year (fields r) =? season_year) (seasons d)
    = Some season ->
    let d' := fst (import_rounds_for_season up season_year d) in
    Forall (round_of_race up season_year season d')
           (created (rounds d) (rounds d')).
Proof.
  intros up y d season Hfind d'. subst d'.
  unfold import_rounds_for_season, bind, get_season_by_year. rewrite Hfind.
  apply (keeps_for_each_in (links_rounds up y season) _
           (links_rounds_refl up y season) (links_rounds_trans up y season)).
  intros race Hin d0. now apply import_round_links.
Qed.

(** X10, witness: the rounds of 2021 imported into the store that holds
    the season; the circuit of the race is created on the way. *)
Lemma created_rounds_are_linked_witness :
  List.length
    (created
       (rounds (fst (import_seasons up_full 2021 (Some 2021) empty_db)))
       (rounds (fst (import_rounds_for_season up_full 2021
                       (fst (import_seasons up_full 2021 (Some 2021)
                               empty_db))))))
  = 1%nat /\
  Forall (round_of_race up_full 2021
            (mkrow 1 (SeasonCreate.mk 2021
                        (Some "https://en.wikipedia.org/wiki/Formula_One")))
            (fst (import_rounds_for_season up_full 2021
                    (fst (import_seasons up_full 2021 (Some 2021) empty_db)))))
         (created
            (rounds (fst (import_seasons up_full 2021 (Some 2021) empty_db)))
            (rounds (fst (import_rounds_for_season up_full 2021
                            (fst (import_seasons up_full 2021 (Some 2021)
                                    empty_db)))))).
Proof.
  split; [reflexivity |].
  apply (created_rounds_are_linked up_full 2021
           (fst (import_seasons up_full 2021 (Some 2021) empty_db))).
  vm_compute. reflexivity.
Defined.

(** ** Created pairings link the driver and the team of the pair *)

Lemma pairing_of_later up y d d' t :
  pairing_of up y d t -> later d d' -> pairing_of up y d' t.
Proof.
  intros (p & dr & tr & driver & team & H1 & H2 & H3 & H4 & H5 & H6)
         (_ & Hd & Ht & _).
  exists p, dr, tr, driver, team. rewrite Hd, Ht.
  repeat (split; [assumption |]). assumption.
Qed.

Lemma links_pairs_refl up y d : links_pairs up y d d.
Proof. split; [apply later_refl |]. rewrite created_refl. constructor. Qed.

Lemma links_pairs_trans up y a b c :
  links_pairs up y a b -> links_pairs up y b c -> links_pairs up y a c.
Proof.
  intros [L1 F1] [L2 F2]. split; [eapply later_trans; eassumption |].
  destruct L1 as (_ & _ & _ & E1). pose proof L2 as (_ & _ & _ & E2).
  rewrite (created_trans (team_drivers a) (team_drivers b) (team_drivers c));
    [| apply E1 | apply E2].
  apply Forall_app. split; [| exact F2].
  revert F1. apply Forall_impl. intros t Ht.
  eapply pairing_of_later; eassumption.
Qed.

Lemma import_team_driver_links up y p d :
  In p (fetch_driver_constructor_by_season up y) ->
  links_pairs up y d (fst (import_team_driver y p d)).
Proof.
  intro Hin. split; [apply later_import_team_driver |].
  destruct (import_team_driver y p d) as [d' res] eqn:Hrun. cbn [fst].
  destruct p as [dref tref].
  unfold import_team_driver, bind, lift, get_driver_by_reference,
    get_team_by_reference, query_team_driver in Hrun.
  destruct (bind_param dref) as [dr |] eqn:Hdr;
    [| injection Hrun as <- _; rewrite created_refl; constructor].
  cbv beta iota in Hrun.
  destruct (bind_param tref) as [tr |] eqn:Htr;
    [| injection Hrun as <- _; rewrite created_refl; constructor].
  cbv beta iota in Hrun.
  destruct (find _ (drivers d)) as [driver |] eqn:Hd; cbv beta iota in Hrun;
    [| unfold ret in Hrun; injection Hrun as <- _; rewrite created_refl;
       constructor].
  destruct (find _ (teams d)) as [team |] eqn:Ht;
    [| unfold ret in Hrun; injection Hrun as <- _; rewrite created_refl;
       constructor].
  destruct (find _ (team_drivers d));
    [unfold ret in Hrun; injection Hrun as <- _; rewrite created_refl;
     constructor |].
  unfold create_team_driver, insert, ret in Hrun. injection Hrun as <- _.
  cbn [team_drivers]. rewrite created_app. constructor; [| constructor].
  exists (dref, tref), dr, tr, driver, team. cbn [fst snd drivers teams fields].
  repeat (split; [assumption |]). reflexivity.
Qed.

(** X11. Created pairings link the driver and the team of the pair: whether
    [import_team_drivers_for_season] returns or raises, each pairing it
    created holds the year and the ids of the Driver and Team rows that the
    store finds for the driverId and constructorId of one pair of the
    year's list. *)
Theorem created_pairings_are_linked :
  forall (up : upstream) (season_year : Z) (d : db),
    let d' := fst (import_team_drivers_for_season up season_year d) in
    Forall (pairing_of up season_year d')
           (created (team_drivers d) (team_drivers d')).
Proof.
  intros up y d d'. subst d'. unfold import_team_drivers_for_season.
  apply (keeps_for_each_in (links_pairs up y) _
           (links_pairs_refl up y) (links_pairs_trans up y)).
  intros p Hin d0. now apply import_team_driver_links.
Qed.

(** ** What the imports by reference create *)

Lemma find_ref_some {A} (col : A -> option string) (t : list A) reference r :
  find (fun r => ref_eqb reference (col r)) t = Some r ->
  In reference (refs (map col t)).
Proof.
  intro H. apply find_some in H. destruct H as [Hin Hr].
  apply in_refs. apply in_map_iff. exists r. split; [| exact Hin].
  unfold ref_eqb in Hr. destruct (col r) as [s |]; [| discriminate].
  apply String.eqb_eq in Hr. now subst.
Qed.

(** The loop of an import by reference, from any store and any count. *)
Section KeyedLoop.
Context {A : Type} (T : db -> table A) (col : A -> option string)
        (key : string) (body : dict -> M bool).
Hypothesis body_spec :
  forall x d d' b,
    body x d = (d', Ok b) ->
    exists k,
      (let? v := dict_index key x in bind_param v) = Ok k /\
      match find (fun r => ref_eqb k (col (fields r))) (T d) with
      | Some _ => d' = d /\ b = false
      | None => b = true /\
                exists a, col a = Some k /\
                          T d' = T d ++ [mkrow (next_id (T d)) a]
      end.

Lemma keyed_loop (l : list dict) :
  forall d count d' n,
    for_each body l count d = (d', Ok n) ->
    exists new,
      T d' = T d ++ new /\ n = count + Z.of_nat (List.length new) /\
      one_row_per_reference col
        (refs (map (fun r => col (fields r)) (T d))) (upstream_refs key l) new.
Proof.
  induction l as [| x rest IH]; intros d count d' n Hrun.
  - cbn in Hrun. unfold ret in Hrun. injection Hrun as <- <-.
    exists []. rewrite app_nil_r. split; [reflexivity |]. split; [cbn; lia |].
    exists []. split; [reflexivity |]. split; [constructor |].
    intro k. cbn. tauto.
  - cbn [for_each] in Hrun. apply bind_ok in Hrun.
    destruct Hrun as (d1 & b & Hbody & Hrest).
    apply body_spec in Hbody. destruct Hbody as (k & Hk & Hcase).
    cbn [upstream_refs]. rewrite Hk.
    apply IH in Hrest. destruct Hrest as (new & HT & Hn & ks & Hcol & Hnd & Hiff).
    destruct (find _ (T d)) as [r |] eqn:Hfind.
    + destruct Hcase as [-> ->]. exists new.
      split; [exact HT |]. split; [exact Hn |].
      exists ks. split; [exact Hcol |]. split; [exact Hnd |].
      intro k'. rewrite Hiff. split.
      * intros [H1 H2]. split; [now right | exact H2].
      * intros [[<- | H1] H2]; [| tauto].
        exfalso. apply H2.
        apply (find_ref_some (fun r => col (fields r)) _ _ _ Hfind).
    + destruct Hcase as (-> & a & Ha & HT1).
      assert (Hrefs : refs (map (fun r => col (fields r)) (T d1))
                      = refs (map (fun r => col (fields r)) (T d)) ++ [k]).
      { rewrite HT1, map_app. cbn [map fields]. rewrite Ha.
        apply refs_snoc_some. }
      rewrite Hrefs in Hiff.
      pose proof (find_ref_none (fun r => col (fields r)) _ _ Hfind) as Hnew.
      exists (mkrow (next_id (T d)) a :: new).
      split; [rewrite HT, HT1, <- app_assoc; reflexivity |].
      split; [cbn [List.length]; lia |].
      exists (k :: ks). split; [cbn [map fields]; now rewrite Ha, Hcol |].
      split.
      * constructor; [| exact Hnd]. intro Hin. apply Hiff in Hin.
        destruct Hin as [_ Hin]. apply Hin. apply in_or_app. right. now left.
      * intro k'. cbn [In]. rewrite Hiff. split.
        -- intros [<- | [H1 H2]]; [split; [now left | exact Hnew] |].
           split; [now right |]. intro H. apply H2. apply in_or_app. now left.
        -- intros [[<- | H1] H2]; [now left |].
           destruct (string_dec k k') as [-> | Hne]; [now left |].
           right. split; [exact H1 |]. intro H. apply in_app_or in H.
           destruct H as [H | [H | []]]; [now apply H2 | now apply Hne].
Qed.
End KeyedLoop.

Lemma import_circuit_spec c d d' b :
  import_circuit c d = (d', Ok b) ->
  exists k,
    (let? v := dict_index "circuitId" c in bind_param v) = Ok k /\
    match find (fun r => ref_eqb k (CircuitCreate.reference (fields r)))
               (circuits d) with
    | Some _ => d' = d /\ b = false
    | None => b = true /\
              exists a, CircuitCreate.reference a = Some k /\
                        circuits d' = circuits d ++ [mkrow (next_id (circuits d)) a]
    end.
Proof.
  unfold import_circuit, bind, lift, get_circuit_by_reference. intro Hrun.
  destruct (let? v := dict_index "circuitId" c in bind_param v)
    as [k |]; [| discriminate].
  cbv beta iota in Hrun. exists k. split; [reflexivity |].
  destruct (find _ (circuits d)).
  { unfold ret in Hrun. injection Hrun as <- <-. now split. }
  destruct (build_circuit_create k c) as [a |] eqn:Ha; [| discriminate].
  unfold create_circuit, insert, ret in Hrun. injection Hrun as <- <-.
  split; [reflexivity |]. exists a.
  split; [eapply build_circuit_create_reference; eassumption | reflexivity].
Qed.

Lemma import_driver_spec c d d' b :
  import_driver c d = (d', Ok b) ->
  exists k,
    (let? v := dict_index "driverId" c in bind_param v) = Ok k /\
    match find (fun r => ref_eqb k (DriverCreate.reference (fields r)))
               (drivers d) with
    | Some _ => d' = d /\ b = false
    | None => b = true /\
              exists a, DriverCreate.reference a = Some k /\
                        drivers d' = drivers d ++ [mkrow (next_id (drivers d)) a]
    end.
Proof.
  unfold import_driver, bind, lift, get_driver_by_reference. intro Hrun.
  destruct (let? v := dict_index "driverId" c in bind_param v)
    as [k |]; [| discriminate].
  cbv beta iota in Hrun. exists k. split; [reflexivity |].
  destruct (find _ (drivers d)).
  { unfold ret in Hrun. injection Hrun as <- <-. now split. }
  destruct (build_driver_create k c) as [a |] eqn:Ha; [| discriminate].
  unfold create_driver, insert, ret in Hrun. injection Hrun as <- <-.
  split; [reflexivity |]. exists a.
  split; [eapply build_driver_create_reference; eassumption | reflexivity].
Qed.

Lemma import_team_spec c d d' b :
  import_team c d = (d', Ok b) ->
  exists k,
    (let? v := dict_index "constructorId" c in bind_param v) = Ok k /\
    match find (fun r => ref_eqb k (TeamCreate.reference (fields r)))
               (teams d) with
    | Some _ => d' = d /\ b = false
    | None => b = true /\
              exists a, TeamCreate.reference a = Some k /\
                        teams d' = teams d ++ [mkrow (next_id (teams d)) a]
    end.
Proof.
  unfold import_team, bind, lift, get_team_by_reference. intro Hrun.
  destruct (let? v := dict_index "constructorId" c in bind_param v)
    as [k |]; [| discriminate].
  cbv beta iota in Hrun. exists k. split; [reflexivity |].
  destruct (find _ (teams d)).
  { unfold ret in Hrun. injection Hrun as <- <-. now split. }
  destruct (build_team_create k c) as [a |] eqn:Ha; [| discriminate].
  unfold create_team, insert, ret in Hrun. injection Hrun as <- <-.
  split; [reflexivity |]. exists a.
  split; [eapply build_team_create_reference; eassumption | reflexivity].
Qed.

(** X12. What the imports by reference create: a run of [import_circuits],
    [import_drivers] or [import_teams] that returns has added exactly one
    row for each distinct reference of the upstream list that the store did
    not hold, each carrying that reference, and returns the number of rows
    added. *)
Theorem reference_imports_create_missing_rows :
  forall (up : upstream) (d d' : db) (n : Z),
    (import_circuits up d = (d', Ok n) ->
     exists new,
       circuits d' = circuits d ++ new /\ n = Z.of_nat (List.length new) /\
       one_row_per_reference CircuitCreate.reference (circuit_refs d)
         (upstream_refs "circuitId" (fetch_circuits up)) new) /\
    (import_drivers up d = (d', Ok n) ->
     exists new,
       drivers d' = drivers d ++ new /\ n = Z.of_nat (List.length new) /\
       one_row_per_reference DriverCreate.reference (driver_refs d)
         (upstream_refs "driverId" (fetch_drivers up)) new) /\
    (import_teams up d = (d', Ok n) ->
     exists new,
       teams d' = teams d ++ new /\ n = Z.of_nat (List.length new) /\
       one_row_per_reference TeamCreate.reference (team_refs d)
         (upstream_refs "constructorId" (fetch_constructors up)) new).
Proof.
  intros up d d' n. split; [| split]; intro Hrun.
  - apply (keyed_loop circuits CircuitCreate.reference "circuitId" _
             import_circuit_spec) in Hrun.
    destruct Hrun as (new & H1 & H2 & H3). exists new.
    split; [exact H1 |]. split; [lia | exact H3].
  - apply (keyed_loop drivers DriverCreate.reference "driverId" _
             import_driver_spec) in Hrun.
    destruct Hrun as (new & H1 & H2 & H3). exists new.
    split; [exact H1 |]. split; [lia | exact H3].
  - apply (keyed_loop teams TeamCreate.reference "constructorId" _
             import_team_spec) in Hrun.
    destruct Hrun as (new & H1 & H2 & H3). exists new.
    split; [exact H1 |]. split; [lia | exact H3].
Qed.

(** X12, witness: the circuits of the fixture imported into the empty
    store. *)
Lemma reference_imports_create_missing_rows_witness :
  exists new,
    circuits (fst (import_circuits up_full empty_db)) = circuits empty_db ++ new /\
    1 = Z.of_nat (List.length new) /\
    one_row_per_reference CircuitCreate.reference (circuit_refs empty_db)
      (upstream_refs "circuitId" (fetch_circuits up_full)) new.
Proof.
  apply (proj1 (reference_imports_create_missing_rows up_full empty_db
                  (fst (import_circuits up_full empty_db)) 1)).
  vm_compute. reflexivity.
Defined.

(** ** The store after a full import holds the scope *)

Lemma default_end_year_twice up ey :
  default_end_year up (Some (default_end_year up ey)) = default_end_year up ey.
Proof.
  unfold default_end_year. destruct ey as [e |].
  - destruct (e =? 0) eqn:He; [| now rewrite He].
    now destruct (now_year up =? 0).
  - now destruct (now_year up =? 0).
Qed.

Lemma Forall_stays {X} (done : X -> db -> Prop) (R : db -> db -> Prop)
  (l : list X) d d' :
  (forall x d d', done x d -> R d d' -> done x d') ->
  Forall (fun x => done x d) l -> R d d' -> Forall (fun x => done x d') l.
Proof.
  intros Hstay H HR. revert H. apply Forall_impl. intros x Hx.
  eapply Hstay; eassumption.
Qed.

(** What a full import that returned has settled. *)
Lemma import_all_settles :
  forall (up : upstream) (start_year : Z) (end_year : option Z) (d d' : db)
         (n : counts),
    import_all_f1_data up start_year end_year d = (d', Ok n) ->
    Forall (fun s => done_season start_year (default_end_year up end_year) s d')
           (fetch_seasons up) /\
    Forall (fun c => done_circuit c d') (fetch_circuits up) /\
    Forall (fun c => done_driver c d') (fetch_drivers up) /\
    Forall (fun c => done_team c d') (fetch_constructors up) /\
    Forall (fun y => rounds_done up y d' /\ pairs_done up y d')
           (year_range start_year (default_end_year up end_year)).
Proof.
  intros up sy ey d d' n Hrun.
  unfold import_all_f1_data in Hrun.
  set (e := default_end_year up ey) in *.
  apply bind_ok in Hrun. destruct Hrun as (d1 & n1 & H1 & Hrun).
  apply bind_ok in Hrun. destruct Hrun as (d2 & n2 & H2 & Hrun).
  apply bind_ok in Hrun. destruct Hrun as (d3 & n3 & H3 & Hrun).
  apply bind_ok in Hrun. destruct Hrun as (d4 & n4 & H4 & Hrun).
  apply bind_ok in Hrun. destruct Hrun as (d5 & rt & H5 & Hrun).
  unfold ret in Hrun. injection Hrun as <- _.
  pose proof (extends_import_circuits up d1) as E12. rewrite H2 in E12.
  pose proof (extends_import_drivers up d2) as E23. rewrite H3 in E23.
  pose proof (extends_import_teams up d3) as E34. rewrite H4 in E34.
  pose proof (extends_import_years up (year_range sy e) 0 0 d4) as E45.
  rewrite H5 in E45. cbn [fst] in E12, E23, E34, E45.
  assert (E35 : extends d3 d5) by (eapply extends_trans; eassumption).
  assert (E25 : extends d2 d5) by (eapply extends_trans; eassumption).
  assert (E15 : extends d1 d5) by (eapply extends_trans; eassumption).
  unfold import_seasons in H1. unfold import_circuits in H2.
  unfold import_drivers in H3. unfold import_teams in H4.
  unfold e in H1 at 1. rewrite default_end_year_twice in H1. fold e in H1.
  apply (for_each_all_done _ (done_season sy e) (done_season_after _ _)
           (done_season_stays _ _) (extends_import_season _ _)) in H1.
  apply (for_each_all_done _ done_circuit done_circuit_after done_circuit_stays
           extends_import_circuit) in H2.
  apply (for_each_all_done _ done_driver done_driver_after done_driver_stays
           extends_import_driver) in H3.
  apply (for_each_all_done _ done_team done_team_after done_team_stays
           extends_import_team) in H4.
  apply import_years_done in H5.
  split; [exact (Forall_stays (done_season sy e) extends _ d1 d5 (done_season_stays sy e) H1 E15) |].
  split; [exact (Forall_stays done_circuit extends _ d2 d5 done_circuit_stays H2 E25) |].
  split; [exact (Forall_stays done_driver extends _ d3 d5 done_driver_stays H3 E35) |].
  split; [exact (Forall_stays done_team extends _ d4 d5 done_team_stays H4 E45) |].
  exact H5.
Qed.

(** X13. The store after a full import holds the scope: when
    [import_all_f1_data] returns, every upstream season holds a year that is
    out of range or stored, every upstream circuit, driver and team has its
    reference stored, and for every year of the range each race of a stored
    season has its circuit and its round stored and each pair of a stored
    driver and a stored team has its pairing stored. *)
Theorem full_import_is_complete :
  forall (up : upstream) (start_year : Z) (end_year : option Z) (d d' : db)
         (n : counts),
    import_all_f1_data up start_year end_year d = (d', Ok n) ->
    Forall (fun s => done_season start_year (default_end_year up end_year) s d')
           (fetch_seasons up) /\
    Forall (fun c => done_circuit c d') (fetch_circuits up) /\
    Forall (fun c => done_driver c d') (fetch_drivers up) /\
    Forall (fun c => done_team c d') (fetch_constructors up) /\
    Forall (fun y => rounds_done up y d' /\ pairs_done up y d')
           (year_range start_year (default_end_year up end_year)).
Proof. exact import_all_settles. Qed.

(** X13, witness: the import of 2021 into the empty store. *)
Lemma full_import_is_complete_witness :
  Forall (fun c => done_circuit c
                     (fst (import_all_f1_data up_full 2021 (Some 2021) empty_db)))
         (fetch_circuits up_full).
Proof.
  refine (proj1 (proj2 (full_import_is_complete up_full 2021 (Some 2021) empty_db
                          (fst (import_all_f1_data up_full 2021 (Some 2021)
                                  empty_db))
                          (mkcounts 1 1 1 1 1 1) _))).
  vm_compute. reflexivity.
Defined.

(** ** The count of a session import *)

Lemma tallies_ret c : tallies c (ret c).
Proof. intros d d' n H. unfold ret in H. injection H as <- <-. lia. Qed.

Lemma tallies_lift {A} c (r : result A) (k : A -> M Z) :
  (forall a, tallies c (k a)) -> tallies c (bind (lift r) k).
Proof.
  intros Hk d d' n H. apply bind_ok in H. destruct H as (d1 & a & H1 & H2).
  unfold lift in H1. destruct r; [| discriminate]. injection H1 as <- <-.
  eapply Hk. eassumption.
Qed.

Lemma tallies_create c s (k : M Z) :
  tallies (c + 1) k -> tallies c (bind (create_session s) (fun _ => k)).
Proof.
  intros Hk d d' n H. apply bind_ok in H. destruct H as (d1 & a & H1 & H2).
  unfold create_session in H1. destruct (existsb _ _); [| discriminate].
  unfold insert in H1. injection H1 as <- _.
  apply Hk in H2. cbn [sessions] in H2. rewrite size_snoc in H2. lia.
Qed.

Lemma tallies_bind c (m : M Z) (k : Z -> M Z) :
  tallies c m -> (forall c', tallies c' (k c')) -> tallies c (bind m k).
Proof.
  intros Hm Hk d d' n H. apply bind_ok in H. destruct H as (d1 & c' & H1 & H2).
  apply Hm in H1. apply Hk in H2. lia.
Qed.

Ltac tally_step :=
  first
    [ apply tallies_ret
    | apply tallies_lift; intro
    | apply tallies_create
    | apply tallies_bind; [| intro]
    | match goal with
      | |- tallies _ (match ?x with _ => _ end) => destruct x
      | |- tallies _ (if ?x then _ else _) => destruct x
      end ].

Lemma import_sessions_tallies up y round_num round_id :
  tallies 0 (import_sessions_for_round up y round_num round_id).
Proof.
  unfold import_sessions_for_round. cbv zeta. repeat tally_step.
Qed.

(** X14. The count of a session import: when [import_sessions_for_round]
    returns, the number it returns is the number of Session rows it
    created. *)
Theorem session_count_is_rows_created :
  forall (up : upstream) (season_year round_num round_id : Z) (d d' : db) (n : Z),
    import_sessions_for_round up season_year round_num round_id d = (d', Ok n) ->
    n = size (created (sessions d) (sessions d')).
Proof.
  intros up y round_num round_id d d' n Hrun.
  pose proof (extends_import_sessions up y round_num round_id d) as E.
  rewrite Hrun in E. cbn [fst] in E. destruct E as (_ & _ & _ & _ & _ & G & _).
  rewrite (size_created _ _ G).
  apply import_sessions_tallies in Hrun. lia.
Qed.

(** X14, witness: the sessions of the first round of 2021, stored without
    sessions. *)
Lemma session_count_is_rows_created_witness :
  5 = size (created (sessions db_round)
              (sessions (fst (import_sessions_for_round (up_undated [[]]) 2021 1 1
                                                        db_round)))).
Proof.
  apply (session_count_is_rows_created (up_undated [[]]) 2021 1 1 db_round).
  vm_compute. reflexivity.
Defined.

(** ** An empty range of years *)

Lemma import_season_out_of_range sy e s d :
  e < sy ->
  import_season sy e s d = (d, Ok false) \/
  exists x, import_season sy e s d = (d, Raise x).
Proof.
  intro Hlt. unfold import_season, bind, lift.
  destruct (let? v := dict_index "season" s in py_int v) as [y | x];
    [| right; now exists x].
  assert (H : (y <? sy) || (y >? e) = true).
  { apply orb_true_iff. destruct (y <? sy) eqn:E; [now left | right].
    apply Z.ltb_ge in E. apply Z.gtb_lt. lia. }
  rewrite H. now left.
Qed.

Lemma import_seasons_out_of_range sy e (l : list dict) :
  e < sy ->
  forall count d,
    for_each (import_season sy e) l count d = (d, Ok count) \/
    exists x, for_each (import_season sy e) l count d = (d, Raise x).
Proof.
  intro Hlt. induction l as [| s rest IH]; intros count d; [now left |].
  cbn [for_each]. unfold bind.
  destruct (import_season_out_of_range sy e s d Hlt) as [-> | [x ->]].
  - apply IH.
  - right. now exists x.
Qed.

Lemma year_range_empty sy e : e < sy -> year_range sy e = [].
Proof.
  intro H. unfold year_range.
  replace (Z.to_nat (e + 1 - sy)) with 0%nat by lia. reflexivity.
Qed.

(** X15. An empty range of years: when the end year, defaulted, is below
    the start year, [import_all_f1_data] leaves seasons, rounds, sessions
    and pairings as they are, whether it returns or raises, and the counts
    it returns for seasons, rounds and pairings are zero; circuits, drivers
    and teams are imported all the same. *)
Theorem empty_range_imports_no_season_data :
  forall (up : upstream) (start_year : Z) (end_year : option Z) (d : db),
    default_end_year up end_year < start_year ->
    let run := import_all_f1_data up start_year end_year d in
    seasons (fst run) = seasons d /\ rounds (fst run) = rounds d /\
    sessions (fst run) = sessions d /\
    team_drivers (fst run) = team_drivers d /\
    (forall n, snd run = Ok n ->
               n_seasons n = 0 /\ n_rounds n = 0 /\ n_team_drivers n = 0 /\
               snd (import_circuits up d) = Ok (n_circuits n)).
Proof.
  intros up sy ey d Hlt run.
  assert (H : exists d' r,
             run = (d', r) /\
             seasons d' = seasons d /\ rounds d' = rounds d /\
             sessions d' = sessions d /\ team_drivers d' = team_drivers d /\
             (forall n, r = Ok n ->
                        n_seasons n = 0 /\ n_rounds n = 0 /\
                        n_team_drivers n = 0 /\
                        snd (import_circuits up d) = Ok (n_circuits n))).
  { subst run. unfold import_all_f1_data, import_seasons. cbv zeta.
    rewrite default_end_year_twice.
    set (e := default_end_year up ey) in *.
    rewrite (year_range_empty sy e Hlt). cbn [import_years].
    unfold bind at 1.
    destruct (import_seasons_out_of_range sy e (fetch_seasons up) Hlt 0 d)
      as [-> | [x ->]];
      [| eexists _, _; split; [reflexivity |]; repeat (split; [reflexivity |]);
         first [intros n H; discriminate H | congruence]].
    pose proof (same_sessions_import_circuits up d) as A1.
    pose proof (same_import_circuits up d) as A2.
    unfold bind at 1.
    destruct (import_circuits up d) as [d2 [n2 | x2]]; cbn [fst snd] in *;
      unfold same in A1, A2; injection A1 as A1r A1s;
      injection A2 as A2s _ _ _ A2t;
      [| eexists _, _; split; [reflexivity |]; repeat (split; [congruence |]);
         first [intros n H; discriminate H | congruence]].
    pose proof (same_sessions_import_drivers up d2) as B1.
    pose proof (same_import_drivers up d2) as B2.
    unfold bind at 1.
    destruct (import_drivers up d2) as [d3 [n3 | x3]]; cbn [fst snd] in *;
      unfold same in B1, B2; injection B1 as B1r B1s;
      injection B2 as B2s _ _ _ B2t;
      [| eexists _, _; split; [reflexivity |]; repeat (split; [congruence |]);
         first [intros n H; discriminate H | congruence]].
    pose proof (same_sessions_import_teams up d3) as C1.
    pose proof (same_import_teams up d3) as C2.
    unfold bind at 1.
    destruct (import_teams up d3) as [d4 [n4 | x4]]; cbn [fst snd] in *;
      unfold same in C1, C2; injection C1 as C1r C1s;
      injection C2 as C2s _ _ _ C2t;
      [| eexists _, _; split; [reflexivity |]; repeat (split; [congruence |]);
         first [intros n H; discriminate H | congruence]].
    unfold bind, ret. eexists _, _. split; [reflexivity |].
    repeat (split; [congruence |]).
    intros n H. injection H as <-. cbn. repeat split. }
  destruct H as (d' & r & -> & H1 & H2 & H3 & H4 & H5). cbn [fst snd].
  repeat (split; [assumption |]). exact H5.
Qed.

(** X15, witness: the years 2022 down to 2021. *)
Lemma empty_range_imports_no_season_data_witness :
  seasons (fst (import_all_f1_data up_full 2022 (Some 2021) empty_db))
  = seasons empty_db.
Proof.
  refine (proj1 (empty_range_imports_no_season_data up_full 2022 (Some 2021)
                   empty_db _)).
  vm_compute. reflexivity.
Defined.

(** ** An upstream that returns nothing *)

Lemma import_years_silent up years :
  (forall y, fetch_races up y = []) ->
  (forall y, fetch_driver_constructor_by_season up y = []) ->
  forall r t d, import_years up years r t d = (d, Ok (r, t)).
Proof.
  intros Hr Hp. induction years as [| y rest IH]; intros r t d; [reflexivity |].
  cbn [import_years].
  assert (H1 : import_rounds_for_season up y d = (d, Ok 0)).
  { unfold import_rounds_for_season, bind, get_season_by_year. rewrite Hr.
    now destruct (find _ (seasons d)). }
  assert (H2 : import_team_drivers_for_season up y d = (d, Ok 0)).
  { unfold import_team_drivers_for_season. now rewrite Hp. }
  unfold bind at 1. rewrite H1. unfold bind at 1. rewrite H2.
  rewrite !Z.add_0_r. apply IH.
Qed.

(** X16. An upstream that returns nothing: when every fetcher returns the
    empty list, which is what the fetchers return when a request fails,
    [import_all_f1_data] raises nothing, leaves the store as it is and
    returns a count of zero for every entity. *)
Theorem silent_upstream_imports_nothing :
  forall (up : upstream) (start_year : Z) (end_year : option Z) (d : db),
    upstream_silent up ->
    import_all_f1_data up start_year end_year d = (d, Ok no_counts).
Proof.
  intros up sy ey d (H1 & H2 & H3 & H4 & H5 & H6).
  unfold import_all_f1_data, import_seasons, import_circuits, import_drivers,
    import_teams.
  rewrite H1, H2, H3, H4. cbn [for_each]. unfold bind at 1 2 3 4, ret at 1 2 3 4.
  unfold bind. rewrite (import_years_silent up _ H5 H6). reflexivity.
Qed.

(** X16, witness: the upstream that serves nothing, on the store the import
    of 2021 left. *)
Lemma silent_upstream_imports_nothing_witness :
  import_all_f1_data up_empty 1950 None
    (fst (import_all_f1_data up_full 2021 (Some 2021) empty_db))
  = (fst (import_all_f1_data up_full 2021 (Some 2021) empty_db), Ok no_counts).
Proof.
  apply (silent_upstream_imports_nothing up_empty 1950 None).
  repeat split.
Defined.

(** ** The fetchers *)

Lemma failed_request_is_error r :
  Api.request_failed r ->
  Api.contains "error" (Api.fetch_data r) = Api.Return true.
Proof.
  destruct r as [message | status body]; cbn [Api.request_failed Api.fetch_data];
    [reflexivity |].
  intro H. apply Z.eqb_neq in H. rewrite H. reflexivity.
Qed.

(** X17. A failed request gives an empty list: when the request raised, or
    was answered with a status other than 200, every fetcher returns the
    empty list and raises nothing. *)
Theorem failed_request_gives_empty_list :
  forall (r : Api.reply) (season : Z),
    Api.request_failed r ->
    Api.fetch_seasons r = Api.Return (Api.VArr []) /\
    Api.fetch_drivers r = Api.Return (Api.VArr []) /\
    Api.fetch_constructors r = Api.Return (Api.VArr []) /\
    Api.fetch_circuits r = Api.Return (Api.VArr []) /\
    Api.fetch_races r = Api.Return (Api.VArr []) /\
    Api.fetch_race_results r = Api.Return (Api.VArr []) /\
    Api.fetch_qualifying_results r = Api.Return (Api.VArr []) /\
    Api.fetch_sprint_results r = Api.Return (Api.VArr []) /\
    Api.fetch_driver_constructor_by_season season r = Api.Return (Api.VArr []) /\
    Api.fetch_driver_standings r = Api.Return (Api.VArr []) /\
    Api.fetch_constructor_standings r = Api.Return (Api.VArr []).
Proof.
  intros r season H. apply failed_request_is_error in H.
  unfold Api.fetch_seasons, Api.fetch_drivers, Api.fetch_constructors,
    Api.fetch_circuits, Api.fetch_races, Api.fetch_race_results,
    Api.fetch_qualifying_results, Api.fetch_table, Api.fetch_first_race,
    Api.fetch_sprint_results, Api.fetch_driver_constructor_by_season,
    Api.fetch_driver_standings, Api.fetch_constructor_standings,
    Api.fetch_standings.
  cbv zeta. rewrite H. cbn [Api.and_then]. repeat split.
Qed.

(** X17, witness: a request that timed out. *)
Lemma failed_request_gives_empty_list_witness :
  Api.fetch_seasons (Api.Failed "timeout") = Api.Return (Api.VArr []).
Proof.
  refine (proj1 (failed_request_gives_empty_list (Api.Failed "timeout") 2021 _)).
  exact I.
Defined.

Lemma each_constructor_throws driver_id season cs :
  forall acc e,
    Api.each_constructor driver_id season cs acc = Api.Throw e ->
    e = Api.KeyError \/ e = Api.TypeError.
Proof.
  induction cs as [| c rest IH]; intros acc e H; [discriminate |].
  cbn [Api.each_constructor] in H. unfold Api.and_then at 1 in H.
  destruct (Api.getitem c "constructorId") as [cid | e'] eqn:Hc.
  - eapply IH. eassumption.
  - injection H as <-. unfold Api.getitem in Hc.
    destruct c; try (injection Hc as <-; now right).
    destruct (Api.lookup _ _); [discriminate |]. injection Hc as <-. now left.
Qed.

Lemma getitem_throws v k e :
  Api.getitem v k = Api.Throw e -> e = Api.KeyError \/ e = Api.TypeError.
Proof.
  unfold Api.getitem. destruct v; try (intro H; injection H as <-; now right).
  destruct (Api.lookup _ _); [discriminate |]. intro H. injection H as <-. now left.
Qed.

Lemma getitem0_throws v e :
  Api.getitem0 v = Api.Throw e ->
  e = Api.KeyError \/ e = Api.IndexError \/ e = Api.TypeError.
Proof.
  unfold Api.getitem0.
  destruct v as [| b | n | [| c s] | [| x l] | items]; intro H;
    try discriminate; injection H as <-; auto.
Qed.

Lemma iterate_throws v e : Api.iterate v = Api.Throw e -> e = Api.TypeError.
Proof.
  unfold Api.iterate. destruct v; intro H; try discriminate;
    now injection H as <-.
Qed.

Lemma contains_throws k v e : Api.contains k v = Api.Throw e -> e = Api.TypeError.
Proof.
  unfold Api.contains. destruct v; intro H; try discriminate;
    now injection H as <-.
Qed.

Lemma each_standing_throws season l :
  forall acc e,
    Api.each_standing season l acc = Api.Throw e ->
    e = Api.KeyError \/ e = Api.TypeError.
Proof.
  induction l as [| ds rest IH]; intros acc e H; [discriminate |].
  cbn [Api.each_standing] in H. unfold Api.and_then at 1 in H.
  destruct (Api.getitem ds "Driver") as [driver | e1] eqn:H1;
    [| injection H as <-; eapply getitem_throws; eassumption].
  unfold Api.and_then at 1 in H.
  destruct (Api.getitem driver "driverId") as [driver_id | e2] eqn:H2;
    [| injection H as <-; eapply getitem_throws; eassumption].
  unfold Api.and_then at 1 in H.
  destruct (Api.getitem ds "Constructors") as [cs | e3] eqn:H3;
    [| injection H as <-; eapply getitem_throws; eassumption].
  unfold Api.and_then at 1 in H.
  destruct (Api.iterate cs) as [cl | e4] eqn:H4;
    [| injection H as <-; right; eapply iterate_throws; eassumption].
  unfold Api.and_then at 1 in H.
  destruct (Api.each_constructor driver_id season cl acc) as [acc' | e5] eqn:H5;
    [| injection H as <-; eapply each_constructor_throws; eassumption].
  eapply IH. eassumption.
Qed.



Lemma throws_and_then {A B} (S : Api.error -> Prop) (m : Api.outcome A)
  (k : A -> Api.outcome B) :
  throws_in S m -> (forall a, throws_in S (k a)) ->
  throws_in S (Api.and_then m k).
Proof.
  intros Hm Hk e H. unfold Api.and_then in H. destruct m as [a | e'].
  - eapply Hk. eassumption.
  - injection H as <-. now apply Hm.
Qed.

Lemma throws_return {A} (S : Api.error -> Prop) (a : A) :
  throws_in S (Api.Return a).
Proof. intros e H. discriminate. Qed.

Lemma throws_weaken {A} (S S' : Api.error -> Prop) (m : Api.outcome A) :
  (forall e, S e -> S' e) -> throws_in S m -> throws_in S' m.
Proof. intros HS Hm e H. apply HS, Hm, H. Qed.

Lemma throws_getitem v k : throws_in index_errors (Api.getitem v k).
Proof.
  intros e H. apply getitem_throws in H. unfold index_errors. tauto.
Qed.

Lemma throws_getitem0 v : throws_in index_errors (Api.getitem0 v).
Proof.
  intros e H. apply getitem0_throws in H. unfold index_errors. tauto.
Qed.

Lemma throws_iterate v : throws_in index_errors (Api.iterate v).
Proof.
  intros e H. apply iterate_throws in H. unfold index_errors. tauto.
Qed.

Lemma throws_get_default v k dflt :
  throws_in lookup_errors (Api.get_default v k dflt).
Proof.
  intros e H. unfold Api.get_default in H.
  destruct v; try discriminate; injection H as <-; now right.
Qed.

Lemma throws_each_standing season l acc :
  throws_in index_errors (Api.each_standing season l acc).
Proof.
  intros e H. apply each_standing_throws in H. unfold index_errors. tauto.
Qed.

Lemma throws_lookup {A} (m : Api.outcome A) :
  throws_in index_errors m -> throws_in lookup_errors m.
Proof. apply throws_weaken. intros e H. now left. Qed.

Lemma throws_except_key_index (m : Api.outcome Api.value) :
  throws_in index_errors m ->
  throws_in (eq Api.TypeError) (Api.except_key_index m).
Proof.
  intros Hm e H. unfold Api.except_key_index in H.
  destruct m as [v | e']; [discriminate |].
  specialize (Hm e' eq_refl).
  destruct e'; try discriminate; injection H as <-; try reflexivity.
  destruct Hm as [Hm | [Hm | Hm]]; discriminate.
Qed.

Lemma throws_except_key_index_get (m : Api.outcome Api.value) :
  throws_in lookup_errors m -> throws_in not_caught (Api.except_key_index m).
Proof.
  intros Hm e H. unfold Api.except_key_index in H.
  destruct m as [v | e']; [discriminate |].
  destruct e'; try discriminate; injection H as <-; unfold not_caught; auto.
Qed.

Lemma throws_except_key (m : Api.outcome Api.value) :
  throws_in key_or_type m -> throws_in (eq Api.TypeError) (Api.except_key m).
Proof.
  intros Hm e H. unfold Api.except_key in H.
  destruct m as [v | e']; [discriminate |].
  specialize (Hm e' eq_refl).
  destruct e'; try discriminate; injection H as <-; try reflexivity;
    destruct Hm; discriminate.
Qed.

Ltac throws_step :=
  first
    [ apply throws_return
    | apply throws_getitem | apply throws_getitem0 | apply throws_iterate
    | apply throws_get_default | apply throws_each_standing
    | apply throws_lookup; first [ apply throws_getitem | apply throws_getitem0 ]
    | apply throws_and_then; [| intro]
    | match goal with
      | |- throws_in _ (if ?c then _ else _) => destruct c
      end ].

(** The test for an error, then the guarded extraction. *)
Lemma throws_guarded (S : Api.error -> Prop) data (m : Api.outcome Api.value) :
  S Api.TypeError -> throws_in S m ->
  throws_in S (Api.and_then (Api.contains "error" data)
                 (fun err => if err then Api.Return (Api.VArr []) else m)).
Proof.
  intros HS Hm. apply throws_and_then.
  - intros e H. apply contains_throws in H. now subst.
  - intros [|]; [apply throws_return | exact Hm].
Qed.

(** X18. The exceptions that escape a fetcher: none of the eleven fetchers
    raises KeyError or IndexError.  A fetcher raises at most TypeError,
    which it does when the document holds a value of another kind where a
    dict or a list is expected; [fetch_sprint_results], which calls [.get],
    raises at most TypeError or AttributeError.  [fetch_table] stands for
    the five fetchers of a table, [fetch_first_race] for the fetchers of
    race and qualifying results, [fetch_standings] for the fetchers of
    driver and constructor standings. *)
Theorem fetchers_raise_only_type_errors :
  forall (r : Api.reply) (season : Z) (e : Api.error),
    (forall table name,
        Api.fetch_table table name r = Api.Throw e -> e = Api.TypeError) /\
    (forall name,
        Api.fetch_first_race name r = Api.Throw e -> e = Api.TypeError) /\
    (Api.fetch_sprint_results r = Api.Throw e ->
     e = Api.TypeError \/ e = Api.AttributeError) /\
    (Api.fetch_driver_constructor_by_season season r = Api.Throw e ->
     e = Api.TypeError) /\
    (forall name,
        Api.fetch_standings name r = Api.Throw e -> e = Api.TypeError) /\
    (Api.fetch_seasons r = Api.Throw e -> e = Api.TypeError) /\
    (Api.fetch_drivers r = Api.Throw e -> e = Api.TypeError) /\
    (Api.fetch_constructors r = Api.Throw e -> e = Api.TypeError) /\
    (Api.fetch_circuits r = Api.Throw e -> e = Api.TypeError) /\
    (Api.fetch_races r = Api.Throw e -> e = Api.TypeError) /\
    (Api.fetch_race_results r = Api.Throw e -> e = Api.TypeError) /\
    (Api.fetch_qualifying_results r = Api.Throw e -> e = Api.TypeError) /\
    (Api.fetch_driver_standings r = Api.Throw e -> e = Api.TypeError) /\
    (Api.fetch_constructor_standings r = Api.Throw e -> e = Api.TypeError).
Proof.
  intros r season.
  assert (Htable : forall table name,
             throws_in (eq Api.TypeError) (Api.fetch_table table name r)).
  { intros table name. unfold Api.fetch_table. cbv zeta.
    apply throws_guarded; [reflexivity |]. apply throws_except_key.
    repeat (apply throws_and_then; [| intro]);
      intros e H; apply getitem_throws in H; exact H. }
  assert (Hfirst : forall name,
             throws_in (eq Api.TypeError) (Api.fetch_first_race name r)).
  { intro name. unfold Api.fetch_first_race. cbv zeta.
    apply throws_guarded; [reflexivity |]. apply throws_except_key_index.
    repeat throws_step. }
  assert (Hstandings : forall name,
             throws_in (eq Api.TypeError) (Api.fetch_standings name r)).
  { intro name. unfold Api.fetch_standings. cbv zeta.
    apply throws_guarded; [reflexivity |]. apply throws_except_key_index.
    repeat throws_step. }
  assert (Hsprint : throws_in not_caught (Api.fetch_sprint_results r)).
  { unfold Api.fetch_sprint_results. cbv zeta.
    apply throws_guarded; [now left |]. apply throws_except_key_index_get.
    repeat throws_step. }
  assert (Hpairs : throws_in (eq Api.TypeError)
                     (Api.fetch_driver_constructor_by_season season r)).
  { unfold Api.fetch_driver_constructor_by_season, Api.driver_standings_of.
    cbv zeta.
    apply throws_guarded; [reflexivity |]. apply throws_except_key_index.
    repeat throws_step. }
  intro e.
  unfold Api.fetch_seasons, Api.fetch_drivers, Api.fetch_constructors,
    Api.fetch_circuits, Api.fetch_races, Api.fetch_race_results,
    Api.fetch_qualifying_results, Api.fetch_driver_standings,
    Api.fetch_constructor_standings.
  repeat match goal with |- _ /\ _ => split end; intros;
    match goal with
    | H : Api.fetch_sprint_results _ = _ |- _ => exact (Hsprint _ H)
    | H : Api.fetch_table _ _ _ = _ |- _ => symmetry; exact (Htable _ _ _ H)
    | H : Api.fetch_first_race _ _ = _ |- _ => symmetry; exact (Hfirst _ _ H)
    | H : Api.fetch_standings _ _ = _ |- _ => symmetry; exact (Hstandings _ _ H)
    | H : Api.fetch_driver_constructor_by_season _ _ = _ |- _ =>
        symmetry; exact (Hpairs _ H)
    end.
Qed.

(** X18, witness: a document whose MRData is a list. *)
Lemma fetchers_raise_only_type_errors_witness : Api.TypeError = Api.TypeError.
Proof.
  refine (proj1 (fetchers_raise_only_type_errors
                   (Api.Answered 200 (Api.VObj [("MRData", Api.VArr [])]))
                   2021 Api.TypeError)
                "SeasonTable" "Seasons" _).
  reflexivity.
Defined.

Lemma each_constructor_collect driver_id season cs :
  forall acc,
    Api.each_constructor driver_id season cs acc
    = Api.and_then (Api.collect (fun c => Api.getitem c "constructorId") cs)
        (fun ids => Api.Return (acc ++ map (Api.pairing driver_id season) ids)).
Proof.
  induction cs as [| c rest IH]; intro acc.
  - cbn. now rewrite app_nil_r.
  - cbn [Api.each_constructor Api.collect]. unfold Api.and_then at 1 3.
    destruct (Api.getitem c "constructorId") as [cid | e]; [| reflexivity].
    rewrite IH. unfold Api.and_then.
    destruct (Api.collect _ rest) as [ids | e]; [| reflexivity].
    cbn [map]. rewrite <- app_assoc. reflexivity.
Qed.

Lemma each_standing_collect season l :
  forall acc,
    Api.each_standing season l acc
    = Api.and_then (Api.collect (Api.standing_pairs season) l)
        (fun pss => Api.Return (acc ++ List.concat pss)).
Proof.
  induction l as [| ds rest IH]; intro acc.
  - cbn. now rewrite app_nil_r.
  - cbn [Api.each_standing Api.collect]. unfold Api.standing_pairs at 1.
    unfold Api.and_then at 1 7.
    destruct (Api.getitem ds "Driver") as [driver | e]; [| reflexivity].
    unfold Api.and_then at 1 6.
    destruct (Api.getitem driver "driverId") as [driver_id | e]; [| reflexivity].
    unfold Api.and_then at 1 5.
    destruct (Api.getitem ds "Constructors") as [cs | e]; [| reflexivity].
    unfold Api.and_then at 1 4.
    destruct (Api.iterate cs) as [cl | e]; [| reflexivity].
    rewrite each_constructor_collect. unfold Api.and_then at 2 4.
    destruct (Api.collect _ cl) as [ids | e]; [| reflexivity].
    unfold Api.and_then at 1 3. rewrite IH. unfold Api.and_then.
    destruct (Api.collect _ rest) as [pss | e]; [| reflexivity].
    cbn [List.concat]. rewrite app_assoc. reflexivity.
Qed.

(** X19. The pairings fetcher returns all or nothing: when
    [fetch_driver_constructor_by_season] returns, the list is empty or it
    is the pairings of every driver standing of the document, each driver
    with each of its constructors and the season, in the order of the
    document; a partial list is never returned. *)
Theorem pairings_fetch_is_all_or_nothing :
  forall (season : Z) (r : Api.reply) (v : Api.value),
    Api.fetch_driver_constructor_by_season season r = Api.Return v ->
    v = Api.VArr [] \/
    exists driver_standings standings pss,
      Api.driver_standings_of (Api.fetch_data r) = Api.Return driver_standings /\
      Api.iterate driver_standings = Api.Return standings /\
      Api.collect (Api.standing_pairs season) standings = Api.Return pss /\
      v = Api.VArr (List.concat pss).
Proof.
  intros season r v. unfold Api.fetch_driver_constructor_by_season. cbv zeta.
  unfold Api.and_then at 1.
  destruct (Api.contains "error" (Api.fetch_data r)) as [[|] | e];
    [intro H; injection H as <-; now left | | discriminate].
  destruct (Api.driver_standings_of (Api.fetch_data r)) as [sv | e] eqn:Hsv.
  - unfold Api.and_then at 1 2.
    destruct (Api.iterate sv) as [standings | e] eqn:Hit.
    + rewrite each_standing_collect. unfold Api.and_then.
      destruct (Api.collect _ standings) as [pss | e] eqn:Hc.
      * cbn. intro H. injection H as <-. right.
        exists sv, standings, pss. repeat split; assumption.
      * destruct e; cbn; intro H; try discriminate; injection H as <-; now left.
    + destruct e; cbn; intro H; try discriminate; injection H as <-; now left.
  - unfold Api.and_then at 1.
    destruct e; cbn; intro H; try discriminate; injection H as <-; now left.
Qed.

(** X19, witness: one driver standing with two constructors. *)
Lemma pairings_fetch_is_all_or_nothing_witness :
  Api.VArr [Api.pairing (Api.VStr "hamilton") 2021 (Api.VStr "mercedes");
            Api.pairing (Api.VStr "hamilton") 2021 (Api.VStr "ferrari")]
  = Api.VArr [] \/
  exists driver_standings standings pss,
    Api.driver_standings_of
      (Api.fetch_data
         (Api.Answered 200
            (Api.VObj
               [("MRData",
                 Api.VObj
                   [("StandingsTable",
                     Api.VObj
                       [("StandingsLists",
                         Api.VArr
                           [Api.VObj
                              [("DriverStandings",
                                Api.VArr
                                  [Api.VObj
                                     [("Driver",
                                       Api.VObj [("driverId", Api.VStr "hamilton")]);
                                      ("Constructors",
                                       Api.VArr
                                         [Api.VObj [("constructorId",
                                                     Api.VStr "mercedes")];
                                          Api.VObj [("constructorId",
                                                     Api.VStr "ferrari")]])]])]])])])])))
    = Api.Return driver_standings /\
    Api.iterate driver_standings = Api.Return standings /\
    Api.collect (Api.standing_pairs 2021) standings = Api.Return pss /\
    Api.VArr [Api.pairing (Api.VStr "hamilton") 2021 (Api.VStr "mercedes");
              Api.pairing (Api.VStr "hamilton") 2021 (Api.VStr "ferrari")]
    = Api.VArr (List.concat pss).
Proof.
  apply (pairings_fetch_is_all_or_nothing 2021). vm_compute. reflexivity.
Defined.

(** ** Every record in scope ends up linked *)

Lemma in_year_range sy e y : sy <= y <= e -> In y (year_range sy e).
Proof.
  intro H. unfold year_range. apply in_map_iff.
  exists (Z.to_nat (y - sy)). split; [lia |]. apply in_seq. lia.
Qed.

Lemma found_find {A} (f : A -> bool) (t : list A) :
  found f t -> exists x, find f t = Some x.
Proof.
  unfold found. destruct (find f t) as [x |]; [now exists x | congruence].
Qed.

(** X20. Every record in scope ends up linked: when [import_all_f1_data]
    returns, then for each year of the range, every race of a season that
    the seasons feed lists has its circuit and its round in the store, and
    every pairing of the year whose driver and constructor the drivers and
    constructors feeds list has its Driver row, its Team row and its
    TeamDriver row in the store. *)
Theorem full_import_links_every_record :
  forall (up : upstream) (start_year : Z) (end_year : option Z) (d d' : db)
         (n : counts) (y : Z),
    import_all_f1_data up start_year end_year d = (d', Ok n) ->
    start_year <= y <= default_end_year up end_year ->
    (forall s race,
        In s (fetch_seasons up) ->
        (let? v := dict_index "season" s in py_int v) = Ok y ->
        In race (fetch_races up y) ->
        done_round y race d') /\
    (forall p driver_data team_data dr tr,
        In p (fetch_driver_constructor_by_season up y) ->
        In driver_data (fetch_drivers up) ->
        In team_data (fetch_constructors up) ->
        bind_param (fst p) = Ok dr ->
        (let? v := dict_index "driverId" driver_data in bind_param v) = Ok dr ->
        bind_param (snd p) = Ok tr ->
        (let? v := dict_index "constructorId" team_data in bind_param v) = Ok tr ->
        exists driver team,
          find (fun r => ref_eqb dr (DriverCreate.reference (fields r))) (drivers d')
          = Some driver /\
          find (fun r => ref_eqb tr (TeamCreate.reference (fields r))) (teams d')
          = Some team /\
          found (fun r => (TeamDriverCreate.team_id (fields r) =? id team)
                          && (TeamDriverCreate.driver_id (fields r) =? id driver)
                          && (TeamDriverCreate.season_year (fields r) =? y))
                (team_drivers d')).
Proof.
  intros up sy ey d d' n y Hrun Hy.
  destruct (import_all_settles up sy ey d d' n Hrun)
    as (Hs & _ & Hd & Ht & Hyears).
  rewrite Forall_forall in Hs, Hd, Ht, Hyears.
  destruct (Hyears y (in_year_range _ _ _ Hy)) as [Hrounds Hpairs].
  split.
  - intros s race Hin Hyear Hrace.
    destruct (Hs s Hin) as (y' & Hy' & Hcase).
    rewrite Hyear in Hy'. injection Hy' as <-.
    destruct Hcase as [Hout | Hfound].
    + apply orb_true_iff in Hout. destruct Hout as [Hout | Hout]; lia.
    + unfold rounds_done in Hrounds. apply found_find in Hfound.
      destruct Hfound as [season Hseason]. rewrite Hseason in Hrounds.
      rewrite Forall_forall in Hrounds. now apply Hrounds.
  - intros p driver_data team_data dr tr Hp Hdin Htin Hdr Hdr' Htr Htr'.
    destruct (Hd driver_data Hdin) as (dr0 & Hdr0 & Hfd).
    rewrite Hdr' in Hdr0. injection Hdr0 as <-.
    destruct (Ht team_data Htin) as (tr0 & Htr0 & Hft).
    rewrite Htr' in Htr0. injection Htr0 as <-.
    apply found_find in Hfd, Hft.
    destruct Hfd as [driver Hdriver]. destruct Hft as [team Hteam].
    unfold pairs_done in Hpairs. rewrite Forall_forall in Hpairs.
    destruct (Hpairs p Hp) as (dr1 & tr1 & Hdr1 & Htr1 & Hdone).
    rewrite Hdr in Hdr1. injection Hdr1 as <-.
    rewrite Htr in Htr1. injection Htr1 as <-.
    rewrite Hdriver, Hteam in Hdone.
    exists driver, team. split; [exact Hdriver |]. split; [exact Hteam |].
    exact Hdone.
Qed.

(** X20, witness: the race of 2021 after the import of 2021. *)
Lemma full_import_links_every_record_witness :
  done_round 2021 race_undated
    (fst (import_all_f1_data up_full 2021 (Some 2021) empty_db)).
Proof.
  refine (proj1 (full_import_links_every_record up_full 2021 (Some 2021) empty_db
                   (fst (import_all_f1_data up_full 2021 (Some 2021) empty_db))
                   (mkcounts 1 1 1 1 1 1) 2021 _ _)
                [("season", JStr "2021");
                 ("url", JStr "https://en.wikipedia.org/wiki/Formula_One")]
                race_undated _ _ _).
  - vm_compute. reflexivity.
  - vm_compute. split; discriminate.
  - vm_compute. tauto.
  - vm_compute. reflexivity.
  - vm_compute. now left.
Defined.

(** ** Race entries that give a date *)

Lemma dated_race_session_rejected race_info round_id date :
  parse_date (dict_get "date" race_info) = Ok (Some date) ->
  race_session_create race_info round_id = Raise ValidationError.
Proof.
  intro H. unfold race_session_create, bindR. rewrite H. reflexivity.
Qed.

Lemma dated_round_rejected race round reference sid cid date :
  parse_date (dict_get "date" race) = Ok (Some date) ->
  exists e,
    (let? name := dict_index "raceName" race in
     let? round_number := py_int round in
     let? date := parse_date (dict_get "date" race) in
     let? name := valid_str name in
     let? date := valid_date_field date in
     let? time := valid_opt_str (dict_get "time" race) in
     let? wikipedia := valid_opt_str (dict_get "url" race) in
     Ok (RoundCreate.mk (Some reference) name round_number date time wikipedia
                        sid cid)) = Raise e.
Proof.
  intro Hdate.
  match goal with
  | |- exists e, ?chain = Raise e => destruct chain as [rc | e] eqn:Hrc
  end; [| now exists e].
  apply round_create_fields in Hrc. destruct Hrc as (_ & _ & Hnone & _).
  congruence.
Qed.

(** X21. A race entry that gives a date gets no round and no session: the
    [date] field of the Round and Session records takes no value but None,
    so for a race whose date parses, [import_round] creates no Round and no
    Session and does not return true, and [import_sessions_for_round], when
    that race is the entry of the round, raises ValidationError and leaves
    the store as it is. *)
Theorem dated_races_get_no_round :
  forall (up : upstream) (season_year : Z) (season : row SeasonCreate.t)
         (race : dict) (date : pydate) (d : db),
    parse_date (dict_get "date" race) = Ok (Some date) ->
    (rounds (fst (import_round up season_year season race d)) = rounds d /\
     sessions (fst (import_round up season_year season race d)) = sessions d /\
     snd (import_round up season_year season race d) <> Ok true) /\
    (forall round_num round_id,
        find_race round_num (fetch_races up season_year) = Ok (Some race) ->
        import_sessions_for_round up season_year round_num round_id d
        = (d, Raise ValidationError)).
Proof.
  intros up y season race date d Hdate. split.
  - assert (H : forall d' res,
               import_round up y season race d = (d', res) ->
               rounds d' = rounds d /\ sessions d' = sessions d /\
               res <> Ok true).
    { intros d' res Hrun. unfold import_round in Hrun.
      unfold bind at 1, lift at 1 in Hrun.
      destruct (dict_index "Circuit" race) as [cdata |];
        [| injection Hrun as <- <-; repeat split; discriminate].
      unfold bind at 1, lift at 1 in Hrun.
      destruct (let? v := json_index "circuitId" cdata in bind_param v)
        as [cref |]; [| injection Hrun as <- <-; repeat split; discriminate].
      unfold bind at 1, get_circuit_by_reference at 1 in Hrun.
      unfold bind at 1 in Hrun.
      match type of Hrun with
      | context [match ?m0 d with _ => _ end] => set (m := m0) in Hrun
      end.
      assert (K : keeps (same (fun d => (rounds d, sessions d))) m)
        by (subst m; repeat same_step).
      specialize (K d). unfold same in K.
      destruct (m d) as [d1 [circuit | e]]; cbn [fst] in K;
        injection K as Kr Ks;
        [| injection Hrun as <- <-; repeat split;
           first [assumption | discriminate]].
      clear m.
      unfold bind at 1, lift at 1 in Hrun.
      destruct (dict_index "round" race) as [round |];
        [| injection Hrun as <- <-; repeat split;
           first [assumption | discriminate]].
      unfold bind at 1, get_round_by_reference at 1 in Hrun.
      destruct (find _ (rounds d1));
        [unfold ret in Hrun; injection Hrun as <- <-; repeat split;
         first [assumption | discriminate] |].
      unfold bind at 1, lift at 1 in Hrun.
      destruct (dated_round_rejected race round
                  (str_of_int y ++ "-" ++ py_str round)%string
                  (id season) (id circuit) date Hdate) as [e He].
      rewrite He in Hrun. injection Hrun as <- <-.
      repeat split; first [assumption | discriminate]. }
    destruct (import_round up y season race d) as [d' res] eqn:Hrun.
    exact (H d' res eq_refl).
  - intros round_num round_id Hfind.
    eapply import_sessions_with_rejected_entry; [exact Hfind |].
    eapply dated_race_session_rejected. exact Hdate.
Qed.

(** X21, witness: the race of Bahrain as the API serves it, dated
    2021-03-28.  The import of 2021 stops at that race with a
    ValidationError, after the seasons, circuits, drivers and teams. *)
Lemma dated_races_get_no_round_witness :
  parse_date (dict_get "date" race_bahrain) = Ok (Some (mkdate 2021 3 28)) /\
  snd (import_all_f1_data up_dated 2021 (Some 2021) empty_db)
  = Raise ValidationError /\
  rounds (fst (import_all_f1_data up_dated 2021 (Some 2021) empty_db)) = [] /\
  import_sessions_for_round up_dated 2021 1 1 db_round
  = (db_round, Raise ValidationError).
Proof.
  split; [reflexivity |]. split; [reflexivity |]. split; [reflexivity |].
  refine (proj2 (dated_races_get_no_round up_dated 2021
                   (mkrow 1 (SeasonCreate.mk 2021 None)) race_bahrain
                   (mkdate 2021 3 28) db_round _) 1 1 _); reflexivity.
Defined.
